(** * Neon-break: a shallow embedding of the simulation core of [game2.js]

    The development follows the source file class by class: the utility
    helpers, [Paddle], [Ball], [Brick], [PowerUp], [LevelManager] and [Game].

    Number model.  JavaScript numbers are IEEE doubles.  Quantities that the
    program only ever builds from integers (canvas size, brick geometry,
    hit-points, score, lives, level index) are [Z]; positions, velocities,
    speeds and timers are real numbers [R], so the arithmetic is exact and
    rounding is not modelled.  [Math.random] is a tape [random : nat -> R]
    read at the position stored in the game ([Game.draws]).  Calls into the
    sound module are recorded in a log ([Game.sfx]); drawing and the HUD are
    not modelled.  The listeners of [Input] are the functions of [Events];
    the constructor of [Game], [resetGame], [startLevel] and the click
    listeners of the buttons are in [Commands], which takes the bricks of a
    level by value.

    [Game.update] is the composition of its loops, one definition per loop,
    in the order of the source.  Bricks are plain records there; object
    identity matters only for [LevelManager.getBricksForLevel], which is
    modelled over a store of brick objects in [LevelManager]. *)

From Stdlib Require Import Reals Lra Lia ZArith List String Bool.
From stdpp Require Import base option list gmap.

Open Scope R_scope.

(** ** Canvas constants

    [WIDTH] and [HEIGHT] are read from the canvas element of the page, which
    is not part of the script, so they are parameters of the model. *)

Class Canvas := { WIDTH : Z; HEIGHT : Z }.

Definition PADDLE_BASE_WIDTH : R := 120.
Definition PADDLE_HEIGHT : R := 16.
Definition BALL_RADIUS : R := 6.
Definition BRICK_COLS : Z := 10.
Definition BRICK_H : Z := 22.
Definition POWER_CHANCE : R := 18 / 100.

Definition PADDLE_Y `{Canvas} : R := IZR HEIGHT - 36.
Definition BRICK_W `{Canvas} : Z := ((WIDTH - 80) / BRICK_COLS)%Z.

Inductive STATE := READY | PLAYING | PAUSED | LEVEL_COMPLETE | GAME_OVER.

(** ** Comparisons and utility helpers *)

Definition Rltb (a b : R) : bool := if Rlt_dec a b then true else false.
Definition Rleb (a b : R) : bool := if Rle_dec a b then true else false.
Definition Reqb (a b : R) : bool := if Req_dec_T a b then true else false.

Definition clamp (v a b : R) : R := Rmax a (Rmin b v).

Definition hypot (a b : R) : R := sqrt (a * a + b * b).

(** [Math.atan2 y x] on the reals: the angle of the vector [(x, y)] in
    [(-PI, PI]], with [atan2 0 0 = 0]. *)
Definition atan2 (y x : R) : R :=
  if Rltb 0 x then atan (y / x)
  else if Rltb x 0 then
    (if Rleb 0 y then atan (y / x) + PI else atan (y / x) - PI)
  else if Rltb 0 y then PI / 2
  else if Rltb y 0 then - (PI / 2)
  else 0.

(** [randChoice arr]: [arr[Math.floor(u * arr.length)]] for the draw [u];
    an index outside the array reads [undefined]. *)
Definition randChoice {A} (arr : list A) (u : R) : option A :=
  let k := Int_part (u * INR (length arr)) in
  if (k <? 0)%Z then None else arr !! Z.to_nat k.

(** [circleRectCollision cx cy r rx ry rw rh] *)
Definition circleRectCollision (cx cy r rx ry rw rh : R) : bool :=
  let closestX := clamp cx rx (rx + rw) in
  let closestY := clamp cy ry (ry + rh) in
  let dx := cx - closestX in
  let dy := cy - closestY in
  Rltb (dx * dx + dy * dy) (r * r + 1 / 10000).

(** ** Input snapshot *)

Module Input.
Record t := mk {
  left : bool;
  right : bool;
  launch : bool;
  pointerDown : bool;
  pointerX : R
}.

Definition set_launch (v : bool) (i : t) : t :=
  mk (left i) (right i) v (pointerDown i) (pointerX i).
End Input.

(** Rectangles returned by [getRect]. *)
Record Rect := mkRect { rx : R; ry : R; rw : R; rh : R }.

Inductive PowerType := PMulti | PPaddle | PSpeed.

(** ** Paddle *)

Module Paddle.
Record t := mk {
  width : R;
  height : R;
  x : R;
  y : R;
  speed : R;
  expireTimer : R
}.

Section WithCanvas.
Context `{Canvas}.

(** [new Paddle()] *)
Definition new : t :=
  mk PADDLE_BASE_WIDTH PADDLE_HEIGHT
     (IZR WIDTH / 2 - PADDLE_BASE_WIDTH / 2) PADDLE_Y 960 0.

(** The horizontal position after the movement part of [update]. *)
Definition moved_x (dt : R) (input : Input.t) (p : t) : R :=
  let move : Z :=
    ((if Input.left input then -1 else 0)
     + (if Input.right input then 1 else 0))%Z in
  if Input.pointerDown input then
    let targetX :=
      clamp (Input.pointerX input - width p / 2) 12
            (IZR WIDTH - 12 - width p) in
    x p + (targetX - x p) * clamp (dt * 12) 0 1
  else if negb (move =? 0)%Z then
    clamp (x p + IZR move * speed p * dt) 12 (IZR WIDTH - 12 - width p)
  else
    clamp (x p) 12 (IZR WIDTH - 12 - width p).

(** [Paddle.update(dt, input)] *)
Definition update (dt : R) (input : Input.t) (p : t) : t :=
  let x1 := moved_x dt input p in
  if Rltb 0 (expireTimer p) then
    let e1 := expireTimer p - dt in
    if Rleb e1 0 then mk PADDLE_BASE_WIDTH (height p) x1 (y p) (speed p) e1
    else mk (width p) (height p) x1 (y p) (speed p) e1
  else mk (width p) (height p) x1 (y p) (speed p) (expireTimer p).
End WithCanvas.

(** [Paddle.applyPower(type)] *)
Definition applyPower (type : option PowerType) (p : t) : t :=
  match type with
  | Some PPaddle =>
      mk (PADDLE_BASE_WIDTH * (16 / 10)) (height p) (x p) (y p) (speed p) 12
  | _ => p
  end.

Definition getRect (p : t) : Rect := mkRect (x p) (y p) (width p) (height p).

(** The interval the paddle is meant to stay in for its current width. *)
Definition in_field `{Canvas} (p : t) : Prop :=
  12 <= x p <= IZR WIDTH - 12 - width p.
End Paddle.

(** ** Ball *)

Module Ball.
Record t := mk {
  x : R;
  y : R;
  vx : R;
  vy : R;
  radius : R;
  speed : R;
  stuck : bool
}.

(** [new Ball(x, y, speed = 360)] *)
Definition new (x0 y0 : R) (speed0 : R) : t :=
  mk x0 y0 0 0 BALL_RADIUS speed0 true.

Definition default_speed : R := 360.

(** [attachToPaddle(paddle)] *)
Definition attachToPaddle (p : Paddle.t) (b : t) : t :=
  mk (Paddle.x p + Paddle.width p / 2) (Paddle.y p - radius b - 2)
     (vx b) (vy b) (radius b) (speed b) true.

(** [launch(ang)] *)
Definition launch (ang : R) (b : t) : t :=
  mk (x b) (y b) (speed b * cos ang) (speed b * sin ang)
     (radius b) (speed b) false.

(** [setVelocityFromSpeed(angle)] *)
Definition setVelocityFromSpeed (angle : R) (b : t) : t :=
  mk (x b) (y b) (speed b * cos angle) (speed b * sin angle)
     (radius b) (speed b) (stuck b).

(** [Ball.update(dt)]: integration and the left, right and top walls. *)
Definition update `{Canvas} (dt : R) (b : t) : t :=
  if stuck b then b else
  let x1 := x b + vx b * dt in
  let y1 := y b + vy b * dt in
  let '(x2, vx2) :=
    if Rleb (x1 - radius b) 8 then (8 + radius b, Rabs (vx b))
    else (x1, vx b) in
  let '(x3, vx3) :=
    if Rleb (IZR WIDTH - 8) (x2 + radius b)
    then (IZR WIDTH - 8 - radius b, - Rabs vx2)
    else (x2, vx2) in
  let '(y2, vy2) :=
    if Rleb (y1 - radius b) 8 then (8 + radius b, Rabs (vy b))
    else (y1, vy b) in
  mk x3 y2 vx3 vy2 (radius b) (speed b) false.

(** A quotient of two numbers is a number unless the divisor is zero
    (the outcome JavaScript reports as [NaN] or an infinity). *)
Definition div (a b : R) : option R :=
  if Reqb b 0 then None else Some (a / b).

(** The velocity mirrored across the normal [(nx, ny)]:
    [v' = v - 2 (v . n) n]. *)
Definition mirrored (nx ny : R) (b : t) : R * R :=
  let vDotN := vx b * nx + vy b * ny in
  (vx b - 2 * vDotN * nx, vy b - 2 * vDotN * ny).

(** [reflect(nx, ny, speedMultiplier = 1.0)]; [None] when a component of
    the new velocity is not a number. *)
Definition reflect (nx ny speedMultiplier : R) (b : t) : option t :=
  let '(vx1, vy1) := mirrored nx ny b in
  let mag := if Reqb (hypot vx1 vy1) 0 then 1 else hypot vx1 vy1 in
  let desired := speed b * speedMultiplier in
  ux ← div vx1 mag;
  uy ← div vy1 mag;
  Some (mk (x b) (y b) (ux * desired) (uy * desired)
           (radius b) (speed b) (stuck b)).

(** [|velocity| == speed] *)
Definition speed_consistent (b : t) : Prop :=
  hypot (vx b) (vy b) = speed b.
End Ball.

(** ** Brick *)

Module Brick.
Record t := mk {
  x : Z;
  y : Z;
  w : Z;
  h : Z;
  color : string;
  hp : Z;
  alive : bool
}.

(** [new Brick(x, y, w, h, color, hp = 1)] *)
Definition new (x0 y0 w0 h0 : Z) (color0 : string) (hp0 : Z) : t :=
  mk x0 y0 w0 h0 color0 hp0 true.

(** [hit()] *)
Definition hit (b : t) : t :=
  let hp1 := (hp b - 1)%Z in
  mk (x b) (y b) (w b) (h b) (color b) hp1
     (if (hp1 <=? 0)%Z then false else alive b).
End Brick.

(** ** PowerUp *)

Module PowerUp.
Record t := mk {
  x : R;
  y : R;
  type : option PowerType;
  radius : R;
  vy : R;
  alive : bool;
  duration : R
}.

(** [new PowerUp(x, y, type)] *)
Definition new (x0 y0 : R) (ty : option PowerType) : t :=
  mk x0 y0 ty 10 90 true
     (match ty with Some PSpeed => 10 | Some PPaddle => 12 | _ => 0 end).

(** [PowerUp.update(dt)] *)
Definition update `{Canvas} (dt : R) (p : t) : t :=
  let y1 := y p + vy p * dt in
  mk (x p) y1 (type p) (radius p) (vy p)
     (if Rltb (IZR HEIGHT + 40) y1 then false else alive p) (duration p).
End PowerUp.

(** ** Game *)

Inductive Sfx := SfxHit | SfxBreak | SfxPower.

Module Game.
Record t := mk {
  state : STATE;
  input : Input.t;
  currentLevel : Z;
  bricks : list Brick.t;
  paddle : Paddle.t;
  balls : list Ball.t;
  powerups : list PowerUp.t;
  lives : Z;
  score : Z;
  lastTime : R;
  speedBoostTimer : R;
  multiBallTimer : R;
  draws : nat;        (* number of [Math.random()] calls made so far *)
  sfx : list Sfx      (* calls to the sound module, oldest first *)
}.

Definition set_state v g :=
  mk v (input g) (currentLevel g) (bricks g) (paddle g) (balls g)
     (powerups g) (lives g) (score g) (lastTime g) (speedBoostTimer g)
     (multiBallTimer g) (draws g) (sfx g).
Definition set_input v g :=
  mk (state g) v (currentLevel g) (bricks g) (paddle g) (balls g)
     (powerups g) (lives g) (score g) (lastTime g) (speedBoostTimer g)
     (multiBallTimer g) (draws g) (sfx g).
Definition set_bricks v g :=
  mk (state g) (input g) (currentLevel g) v (paddle g) (balls g)
     (powerups g) (lives g) (score g) (lastTime g) (speedBoostTimer g)
     (multiBallTimer g) (draws g) (sfx g).
Definition set_paddle v g :=
  mk (state g) (input g) (currentLevel g) (bricks g) v (balls g)
     (powerups g) (lives g) (score g) (lastTime g) (speedBoostTimer g)
     (multiBallTimer g) (draws g) (sfx g).
Definition set_balls v g :=
  mk (state g) (input g) (currentLevel g) (bricks g) (paddle g) v
     (powerups g) (lives g) (score g) (lastTime g) (speedBoostTimer g)
     (multiBallTimer g) (draws g) (sfx g).
Definition set_powerups v g :=
  mk (state g) (input g) (currentLevel g) (bricks g) (paddle g) (balls g)
     v (lives g) (score g) (lastTime g) (speedBoostTimer g)
     (multiBallTimer g) (draws g) (sfx g).
Definition set_lives v g :=
  mk (state g) (input g) (currentLevel g) (bricks g) (paddle g) (balls g)
     (powerups g) v (score g) (lastTime g) (speedBoostTimer g)
     (multiBallTimer g) (draws g) (sfx g).
Definition set_score v g :=
  mk (state g) (input g) (currentLevel g) (bricks g) (paddle g) (balls g)
     (powerups g) (lives g) v (lastTime g) (speedBoostTimer g)
     (multiBallTimer g) (draws g) (sfx g).
Definition set_lastTime v g :=
  mk (state g) (input g) (currentLevel g) (bricks g) (paddle g) (balls g)
     (powerups g) (lives g) (score g) v (speedBoostTimer g)
     (multiBallTimer g) (draws g) (sfx g).
Definition set_speedBoostTimer v g :=
  mk (state g) (input g) (currentLevel g) (bricks g) (paddle g) (balls g)
     (powerups g) (lives g) (score g) (lastTime g) v
     (multiBallTimer g) (draws g) (sfx g).
Definition set_multiBallTimer v g :=
  mk (state g) (input g) (currentLevel g) (bricks g) (paddle g) (balls g)
     (powerups g) (lives g) (score g) (lastTime g) (speedBoostTimer g)
     v (draws g) (sfx g).
Definition set_draws v g :=
  mk (state g) (input g) (currentLevel g) (bricks g) (paddle g) (balls g)
     (powerups g) (lives g) (score g) (lastTime g) (speedBoostTimer g)
     (multiBallTimer g) v (sfx g).
Definition play (s : Sfx) g :=
  mk (state g) (input g) (currentLevel g) (bricks g) (paddle g) (balls g)
     (powerups g) (lives g) (score g) (lastTime g) (speedBoostTimer g)
     (multiBallTimer g) (draws g) (sfx g ++ [s]).

(** [togglePause()] (the label of the pause button is not modelled). *)
Definition togglePause (g : t) : t :=
  match state g with
  | PLAYING => set_state PAUSED g
  | PAUSED => set_state PLAYING g
  | _ => g
  end.

(** *** [applyPowerUp(type)] *)

(** The two balls made from ball [b] by the multi-ball power-up. *)
Definition multi_spawn (b : Ball.t) : list Ball.t :=
  let speed := clamp (Ball.speed b * (102 / 100)) 260 920 in
  let a1 := atan2 (Ball.vy b) (Ball.vx b) + 18 / 100 in
  let a2 := atan2 (Ball.vy b) (Ball.vx b) - 18 / 100 in
  let b1 := Ball.new (Ball.x b + 8) (Ball.y b) speed in
  let b1 := Ball.mk (Ball.x b1) (Ball.y b1) (speed * cos a1) (speed * sin a1)
                    (Ball.radius b1) (Ball.speed b1) false in
  let b2 := Ball.new (Ball.x b - 8) (Ball.y b) speed in
  let b2 := Ball.mk (Ball.x b2) (Ball.y b2) (speed * cos a2) (speed * sin a2)
                    (Ball.radius b2) (Ball.speed b2) false in
  [b1; b2].

(** The effect of the speed power-up on ball [b]. *)
Definition speed_boost (b : Ball.t) : Ball.t :=
  let speed := clamp (Ball.speed b * (118 / 100)) 300 1000 in
  let ang := atan2 (Ball.vy b) (Ball.vx b) in
  Ball.mk (Ball.x b) (Ball.y b) (speed * cos ang) (speed * sin ang)
          (Ball.radius b) speed (Ball.stuck b).

Definition applyPowerUp (type : option PowerType) (g : t) : t :=
  match type with
  | Some PMulti =>
      let newBalls := flat_map multi_spawn (balls g) in
      set_multiBallTimer 9 (set_balls (balls g ++ newBalls) g)
  | Some PPaddle =>
      set_paddle (Paddle.applyPower (Some PPaddle) (paddle g)) g
  | Some PSpeed =>
      set_speedBoostTimer 10 (set_balls (map speed_boost (balls g)) g)
  | None => g
  end.

Section Update.
Context `{Canvas}.
Variable random : nat -> R.

(** *** Ball updates (first loop of [update]) *)

Definition launch_angle (u : R) : R :=
  - PI / 2 + (u * (6 / 10) - 3 / 10).

(** A stuck ball released by the launch request; [u] is the draw. *)
Definition launched (boost u : R) (b : Ball.t) : Ball.t :=
  let angle := launch_angle u in
  let speed := Ball.speed b * (if Rltb 0 boost then 108 / 100 else 1) in
  Ball.mk (Ball.x b) (Ball.y b) (speed * cos angle) (speed * sin angle)
          (Ball.radius b) speed false.

(** The loop over the balls.  It carries the launch flag of the input
    (cleared by the first launch) and the position on the random tape. *)
Fixpoint step_balls (dt : R) (p : Paddle.t) (boost : R)
    (bs : list Ball.t) (launch : bool) (n : nat)
    : list Ball.t * bool * nat :=
  match bs with
  | [] => ([], launch, n)
  | b :: rest =>
      if Ball.stuck b then
        let b1 := Ball.mk (Paddle.x p + Paddle.width p / 2)
                          (Paddle.y p - Ball.radius b - 2)
                          (Ball.vx b) (Ball.vy b) (Ball.radius b)
                          (Ball.speed b) true in
        if launch then
          let '(rest', l', n') := step_balls dt p boost rest false (S n) in
          (launched boost (random n) b1 :: rest', l', n')
        else
          let '(rest', l', n') := step_balls dt p boost rest launch n in
          (b1 :: rest', l', n')
      else
        let '(rest', l', n') := step_balls dt p boost rest launch n in
        (Ball.update dt b :: rest', l', n')
  end.

Definition update_balls (dt : R) (g : t) : t :=
  let '(bs, l, n) :=
    step_balls dt (paddle g) (speedBoostTimer g) (balls g)
               (Input.launch (input g)) (draws g) in
  set_draws n (set_input (Input.set_launch l (input g)) (set_balls bs g)).

(** *** Ball-paddle collisions *)

Definition hits_rect (b : Ball.t) (r : Rect) : bool :=
  circleRectCollision (Ball.x b) (Ball.y b) (Ball.radius b)
                      (rx r) (ry r) (rw r) (rh r).

Definition paddle_bounce (r : Rect) (boost : R) (b : Ball.t) : Ball.t :=
  let relative := (Ball.x b - (rx r + rw r / 2)) / (rw r / 2) in
  let bounceAngle := relative * (PI / 3) - PI / 2 in
  let speedMultiplier := if Rltb 0 boost then 108 / 100 else 1 in
  let speed := clamp (Ball.speed b * speedMultiplier) 200 820 in
  Ball.mk (Ball.x b) (ry r - Ball.radius b - 1)
          (speed * cos bounceAngle) (speed * sin bounceAngle)
          (Ball.radius b) speed (Ball.stuck b).

Fixpoint paddle_loop (r : Rect) (boost : R) (bs : list Ball.t)
    : list Ball.t * list Sfx :=
  match bs with
  | [] => ([], [])
  | b :: rest =>
      let '(rest', s) := paddle_loop r boost rest in
      if Ball.stuck b then (b :: rest', s)
      else if hits_rect b r then (paddle_bounce r boost b :: rest', SfxHit :: s)
      else (b :: rest', s)
  end.

Definition paddle_collisions (g : t) : t :=
  let '(bs, s) :=
    paddle_loop (Paddle.getRect (paddle g)) (speedBoostTimer g) (balls g) in
  mk (state g) (input g) (currentLevel g) (bricks g) (paddle g) bs
     (powerups g) (lives g) (score g) (lastTime g) (speedBoostTimer g)
     (multiBallTimer g) (draws g) (sfx g ++ s).

(** *** Ball-brick collisions *)

(** The ball after it bounces off brick [k]: reflection along the axis of
    smaller overlap, the nudge out of the brick, and the speed bump. *)
Definition brick_bounce (k : Brick.t) (b : Ball.t) : Ball.t :=
  let kx := IZR (Brick.x k) in
  let ky := IZR (Brick.y k) in
  let kw := IZR (Brick.w k) in
  let kh := IZR (Brick.h k) in
  let overlapX :=
    Rmin (Ball.x b + Ball.radius b - kx)
         (kx + kw - (Ball.x b - Ball.radius b)) in
  let overlapY :=
    Rmin (Ball.y b + Ball.radius b - ky)
         (ky + kh - (Ball.y b - Ball.radius b)) in
  let speed := clamp (Ball.speed b * (101 / 100)) 220 900 in
  if Rltb overlapX overlapY then
    let nx := if Rltb (Ball.x b) (kx + kw / 2) then -1 else 1 in
    Ball.mk (Ball.x b + nx * overlapX) (Ball.y b) (- Ball.vx b) (Ball.vy b)
            (Ball.radius b) speed (Ball.stuck b)
  else
    let ny := if Rltb (Ball.y b) (ky + kh / 2) then -1 else 1 in
    Ball.mk (Ball.x b) (Ball.y b + ny * overlapY) (Ball.vx b) (- Ball.vy b)
            (Ball.radius b) speed (Ball.stuck b).

Definition brick_rect (k : Brick.t) : Rect :=
  mkRect (IZR (Brick.x k)) (IZR (Brick.y k))
         (IZR (Brick.w k)) (IZR (Brick.h k)).

(** The inner loop over the bricks for one ball: the search for the
    first alive brick the ball touches.  The bricks are returned split
    around it. *)
Fixpoint first_brick_hit (b : Ball.t) (ks : list Brick.t)
    : option (list Brick.t * Brick.t * list Brick.t) :=
  match ks with
  | [] => None
  | k :: rest =>
      if negb (Brick.alive k) then
        '(pre, k', post) ← first_brick_hit b rest; Some (k :: pre, k', post)
      else if hits_rect b (brick_rect k) then Some ([], k, rest)
      else
        '(pre, k', post) ← first_brick_hit b rest; Some (k :: pre, k', post)
  end.

(** The power-up roll made after a hit on brick [k] (given after the
    hit): nothing is drawn while the brick is alive. *)
Definition spawn_powerup (k : Brick.t) (g : t) : t :=
  if negb (Brick.alive k) then
    if Rltb (random (draws g)) POWER_CHANCE then
      let types := [PMulti; PPaddle; PSpeed] in
      let ptype := randChoice types (random (S (draws g))) in
      let p := PowerUp.new (IZR (Brick.x k) + IZR (Brick.w k) / 2)
                           (IZR (Brick.y k) + IZR (Brick.h k) / 2) ptype in
      set_draws (S (S (draws g))) (set_powerups (powerups g ++ [p]) g)
    else set_draws (S (draws g)) g
  else g.

(** One iteration of the outer loop: ball [b] against the bricks of [g].
    The ball list of [g] is not read here. *)
Definition brick_step (b : Ball.t) (g : t) : Ball.t * t :=
  if Ball.stuck b then (b, g)
  else
    match first_brick_hit b (bricks g) with
    | None => (b, g)
    | Some (pre, k, post) =>
        let b1 := brick_bounce k b in
        let k1 := Brick.hit k in
        let g1 := set_bricks (pre ++ k1 :: post) g in
        let scoreGain := 100%Z in
        let g2 := set_score (score g1 + scoreGain)%Z g1 in
        let g3 := play SfxBreak g2 in
        (b1, spawn_powerup k1 g3)
    end.

Fixpoint brick_loop (bs : list Ball.t) (g : t) : list Ball.t * t :=
  match bs with
  | [] => ([], g)
  | b :: rest =>
      let '(b', g1) := brick_step b g in
      let '(rest', g2) := brick_loop rest g1 in
      (b' :: rest', g2)
  end.

Definition brick_collisions (g : t) : t :=
  let '(bs, g1) := brick_loop (balls g) g in
  set_balls bs g1.

(** *** Power-ups: fall and collection *)

Definition caught (p : PowerUp.t) (r : Rect) : bool :=
  circleRectCollision (PowerUp.x p) (PowerUp.y p) (PowerUp.radius p)
                      (rx r) (ry r) (rw r) (rh r).

(** The collection loop runs from the last power-up to the first, so
    [ps] is given last first; the power-ups kept come back in the same
    order. *)
Fixpoint collect_loop (ps : list PowerUp.t) (g : t)
    : list PowerUp.t * t :=
  match ps with
  | [] => ([], g)
  | p :: rest =>
      if caught p (Paddle.getRect (paddle g)) then
        collect_loop rest (play SfxPower (applyPowerUp (PowerUp.type p) g))
      else if negb (PowerUp.alive p) then collect_loop rest g
      else
        let '(kept, g1) := collect_loop rest g in
        (p :: kept, g1)
  end.

Definition update_powerups (dt : R) (g : t) : t :=
  let moved := map (PowerUp.update dt) (powerups g) in
  let '(kept, g1) := collect_loop (rev moved) (set_powerups moved g) in
  set_powerups (rev kept) g1.

(** *** Balls lost below the field *)

Definition lost (b : Ball.t) : bool :=
  Rltb (IZR HEIGHT + 8) (Ball.y b - Ball.radius b).

Definition sweep_balls (g : t) : t :=
  set_balls (filter (fun b => negb (lost b)) (balls g)) g.

(** *** Lives, level completion and timers *)

Definition fresh_ball (p : Paddle.t) : Ball.t :=
  Ball.attachToPaddle p
    (Ball.new (Paddle.x p + Paddle.width p / 2)
              (Paddle.y p - BALL_RADIUS - 2) Ball.default_speed).

Definition lose_life (g : t) : t :=
  if (length (balls g) =? 0)%nat then
    let g1 := set_lives (lives g - 1)%Z g in
    if (lives g1 <=? 0)%Z then set_state GAME_OVER g1
    else set_state READY (set_balls (balls g1 ++ [fresh_ball (paddle g1)]) g1)
  else g.

Definition check_level (g : t) : t :=
  let remaining := length (filter (fun b => Brick.alive b) (bricks g)) in
  if (remaining =? 0)%nat then play SfxBreak (set_state LEVEL_COMPLETE g)
  else g.

Definition reset_speed (b : Ball.t) : Ball.t :=
  Ball.mk (Ball.x b) (Ball.y b) (Ball.vx b) (Ball.vy b) (Ball.radius b)
          360 (Ball.stuck b).

Definition update_timers (dt : R) (g : t) : t :=
  let g1 :=
    if Rltb 0 (speedBoostTimer g) then
      let t1 := speedBoostTimer g - dt in
      let g' := set_speedBoostTimer t1 g in
      if Rleb t1 0 then set_balls (map reset_speed (balls g')) g' else g'
    else g in
  if Rltb 0 (multiBallTimer g1)
  then set_multiBallTimer (multiBallTimer g1 - dt) g1
  else g1.

(** *** [update(dt)] *)

(** The frame up to and including the removal of lost balls. *)
Definition simulate (dt : R) (g : t) : t :=
  let g1 := set_paddle (Paddle.update dt (input g) (paddle g)) g in
  let g2 := update_balls dt g1 in
  let g3 := paddle_collisions g2 in
  let g4 := brick_collisions g3 in
  let g5 := update_powerups dt g4 in
  sweep_balls g5.

Definition update (dt : R) (g : t) : t :=
  update_timers dt (check_level (lose_life (simulate dt g))).

(** [_loop()], given the clock reading [now] in milliseconds. *)
Definition loop (now : R) (g : t) : t :=
  let dt0 := (now - lastTime g) / 1000 in
  let dt := if Rltb (5 / 100) dt0 then 5 / 100 else dt0 in
  let g1 := set_lastTime now g in
  match state g1 with
  | PLAYING => update dt g1
  | _ => g1
  end.
End Update.
End Game.

(** ** Level layouts

    [LevelManager._generateLevels]: the brick records of each level, in the
    order in which they are pushed. *)

Module Levels.
Section WithCanvas.
Context `{Canvas}.

(** [colors[i % colors.length]] *)
Definition pick (colors : list string) (i : nat) : string :=
  default ""%string (colors !! (i mod length colors)%nat).

Definition col_x (c : nat) : Z := (40 + Z.of_nat c * (BRICK_W + 2))%Z.
Definition row_y (r : nat) : Z := (60 + Z.of_nat r * (BRICK_H + 6))%Z.

Definition makeGrid (rows cols : nat) (offsetX offsetY : Z)
    (colors : list string) : list Brick.t :=
  flat_map (fun r =>
    map (fun c =>
      Brick.new (col_x c) (row_y r + offsetY)%Z BRICK_W BRICK_H
                (pick colors (r + c)) 1)
      (seq 0 cols))
    (seq 0 rows).

Definition level1 : list Brick.t :=
  makeGrid 3 (Z.to_nat BRICK_COLS) 0 0
    ["#ff4dd2"; "#33e0ff"; "#7cff6a"; "#ffd84d"]%string.

Definition level2 : list Brick.t :=
  flat_map (fun r =>
    map (fun c =>
      if ((r + c) mod 2 =? 0)%nat
      then Brick.new (col_x c) (row_y r) BRICK_W BRICK_H "#7cff6a" 2
      else Brick.new (col_x c) (row_y r) BRICK_W BRICK_H "#33e0ff" 1)
      (seq 0 (Z.to_nat BRICK_COLS)))
    (seq 0 4).

Definition level3 : list Brick.t :=
  flat_map (fun r =>
    flat_map (fun c =>
      if (Z.of_nat c <? 2)%Z || (BRICK_COLS - 3 <? Z.of_nat c)%Z then []
      else
        [Brick.new (col_x c) (row_y r) BRICK_W BRICK_H "#ff4dd2"
           (if (r =? 2)%nat && ((4 <=? c)%nat && (c <=? 5)%nat)
            then 3 else 1)])
      (seq 0 (Z.to_nat BRICK_COLS)))
    (seq 0 5).

(** The levels made by the loop [for (L = 4; L <= 6; L++)]. *)
Definition levelN (L : nat) : list Brick.t :=
  let rows := (3 + L - 1)%nat in
  flat_map (fun r =>
    map (fun c =>
      let hp := (1 + Z.of_nat (r + c + L) / 6)%Z in
      let colors := ["#33e0ff"; "#ff4dd2"; "#ffd84d"]%string in
      Brick.new (col_x c) (row_y r) BRICK_W BRICK_H
                (pick colors (r + c)) hp)
      (seq 0 (Z.to_nat BRICK_COLS)))
    (seq 0 rows).

Definition generateLevels : list (list Brick.t) :=
  [level1; level2; level3] ++ map levelN (seq 4 3).
End WithCanvas.
End Levels.

(** ** LevelManager with object identity

    Bricks are objects: the level templates and the lists handed to the game
    hold references into a store.  [getBricksForLevel] serialises the
    template to JSON and parses it back with a reviver that builds a new
    [Brick] for every brick-shaped object.  The JSON text is modelled by the
    tree it denotes. *)

Module LevelManager.
Set Warnings "-register-all".

Abbreviation loc := nat (only parsing).
Abbreviation heap := (gmap nat Brick.t) (only parsing).

Inductive value :=
| VNull
| VBool (b : bool)
| VNum (z : Z)
| VStr (s : string)
| VArr (vs : list value)
| VObj (fs : list (string * value))
| VBrick (l : loc).

Record t := mk { level : Z; levels : list (list loc) }.

(** [new Brick(...)] as an object: a fresh reference. *)
Definition alloc (b : Brick.t) (h : heap) : loc * heap :=
  let l := fresh (dom h) in (l, <[l := b]> h).

Fixpoint alloc_all (bs : list Brick.t) (h : heap) : list loc * heap :=
  match bs with
  | [] => ([], h)
  | b :: rest =>
      let '(l, h1) := alloc b h in
      let '(ls, h2) := alloc_all rest h1 in
      (l :: ls, h2)
  end.

Fixpoint alloc_levels (lvls : list (list Brick.t)) (h : heap)
    : list (list loc) * heap :=
  match lvls with
  | [] => ([], h)
  | bs :: rest =>
      let '(ls, h1) := alloc_all bs h in
      let '(lss, h2) := alloc_levels rest h1 in
      (ls :: lss, h2)
  end.

(** [new LevelManager()] *)
Definition new `{Canvas} (h : heap) : t * heap :=
  let '(lss, h1) := alloc_levels Levels.generateLevels h in
  (mk 1 lss, h1).

Definition maxLevel (lm : t) : Z := Z.of_nat (length (levels lm)).

(** The bricks behind a list of references. *)
Definition deref (h : heap) (ls : list loc) : option (list Brick.t) :=
  mapM (fun l => h !! l) ls.

(** *** [JSON.stringify] of an array of bricks *)

Definition brick_json (b : Brick.t) : value :=
  VObj [("x", VNum (Brick.x b)); ("y", VNum (Brick.y b));
        ("w", VNum (Brick.w b)); ("h", VNum (Brick.h b));
        ("color", VStr (Brick.color b)); ("hp", VNum (Brick.hp b));
        ("alive", VBool (Brick.alive b))]%string.

Definition stringify (h : heap) (ls : list loc) : option value :=
  bs ← deref h ls; Some (VArr (brick_json <$> bs)).

(** *** [JSON.parse] with the reviver *)

Fixpoint field (k : string) (fs : list (string * value)) : option value :=
  match fs with
  | [] => None
  | (k', v) :: rest => if String.eqb k k' then Some v else field k rest
  end.

Definition has (k : string) (fs : list (string * value)) : bool :=
  match field k fs with Some _ => true | None => false end.

Definition num (v : option value) : option Z :=
  match v with Some (VNum z) => Some z | _ => None end.

(** [new Brick(v.x, v.y, v.w, v.h, v.color, v.hp)] followed by
    [b.alive = v.alive]; a missing [hp] takes the default 1.  [None] when
    a field does not hold a value of the type the record gives it. *)
Definition brick_of (fs : list (string * value)) : option Brick.t :=
  x ← num (field "x" fs);
  y ← num (field "y" fs);
  w ← num (field "w" fs);
  h ← num (field "h" fs);
  color ← match field "color" fs with Some (VStr s) => Some s | _ => None end;
  hp ← match field "hp" fs with
       | None => Some 1%Z
       | v => num v
       end;
  alive ← match field "alive" fs with Some (VBool a) => Some a | _ => None end;
  Some (Brick.mk x y w h color hp alive).

Definition reviver (v : value) (h : heap) : option (value * heap) :=
  match v with
  | VObj fs =>
      if has "x" fs && has "w" fs && has "h" fs && has "color" fs then
        b ← brick_of fs;
        let '(l, h1) := alloc b h in Some (VBrick l, h1)
      else Some (v, h)
  | _ => Some (v, h)
  end.

(** The walk of [JSON.parse]: the members of an array or object are
    revived first, in order, then the holder itself. *)
Fixpoint internalize (v : value) (h : heap) : option (value * heap) :=
  match v with
  | VArr vs =>
      '(vs', h1) ←
        (fix members (l : list value) (h : heap)
           : option (list value * heap) :=
           match l with
           | [] => Some ([], h)
           | x :: r =>
               '(x', h1) ← internalize x h;
               '(r', h2) ← members r h1;
               Some (x' :: r', h2)
           end) vs h;
      reviver (VArr vs') h1
  | VObj fs =>
      '(fs', h1) ←
        (fix members (l : list (string * value)) (h : heap)
           : option (list (string * value) * heap) :=
           match l with
           | [] => Some ([], h)
           | (k, x) :: r =>
               '(x', h1) ← internalize x h;
               '(r', h2) ← members r h1;
               Some ((k, x') :: r', h2)
           end) fs h;
      reviver (VObj fs') h1
  | _ => reviver v h
  end.

Definition as_brick (v : value) : option loc :=
  match v with VBrick l => Some l | _ => None end.

(** [getBricksForLevel(n)]; [None] stands for the exception thrown when
    [levels[n - 1]] is undefined, and for a result that is not an array of
    bricks. *)
Definition getBricksForLevel (n : Z) (lm : t) (h : heap)
    : option (list loc * heap) :=
  if (n <? 1)%Z then None else
  tmpl ← levels lm !! Z.to_nat (n - 1);
  text ← stringify h tmpl;
  '(v, h1) ← internalize text h;
  match v with
  | VArr vs => ls ← mapM as_brick vs; Some (ls, h1)
  | _ => None
  end.

(** [Brick.hit()] on the object behind a reference. *)
Definition hit (l : loc) (h : heap) : heap := alter Brick.hit l h.
End LevelManager.

(** ** Geometry checks on bricks *)

(** Brick [k] ends at or above the line [ymax], or at or left of the line
    [xmax]. *)
Definition clear_of (xmax ymax : Z) (k : Brick.t) : bool :=
  ((0 <=? Brick.h k)%Z && (Brick.y k + Brick.h k <=? ymax)%Z)
  || ((0 <=? Brick.w k)%Z && (Brick.x k + Brick.w k <=? xmax)%Z).

(** Ball [b] leaves brick [k] alone: the brick is dead or out of reach. *)
Definition untouched (b : Ball.t) (k : Brick.t) : Prop :=
  Brick.alive k = false \/ Game.hits_rect b (Game.brick_rect k) = false.

(** The fields a frame keeps until the bookkeeping at its end. *)
Definition same_session (g g' : Game.t) : Prop :=
  Game.state g' = Game.state g /\
  Game.lives g' = Game.lives g /\
  Game.currentLevel g' = Game.currentLevel g /\
  Game.lastTime g' = Game.lastTime g.

(** ** Sample inputs *)

(** A canvas of 480 by 640 pixels. *)
Definition canvas480 : Canvas := {| WIDTH := 480; HEIGHT := 640 |}.

Definition no_input : Input.t := Input.mk false false false false 0.

(** A tape on which every draw is one half. *)
Definition tape_half : nat -> R := fun _ => 1 / 2.

Module Sample.
#[local] Existing Instance canvas480.

(** The first two levels on that canvas. *)
Definition level1 : list Brick.t := Levels.level1.
Definition level2 : list Brick.t := Levels.level2.

(** A game in play on level 2 whose only ball flies straight up and is
    about to touch the brick of row 3, column 1 (two hit-points). *)
Definition rising_ball : Ball.t := Ball.mk 100 175 0 (-360) 6 360 false.

Definition level2_game : Game.t :=
  Game.mk PLAYING no_input 2 level2 Paddle.new [rising_ball] []
          3 0 0 0 0 0 [].

(** The brick of row 3, column 1 of level 2. *)
Definition level2_target : Brick.t := Brick.mk 82 144 40 22 "#7cff6a" 2 true.

(** A game in play whose only ball drops out of the field in the next
    frame, with the given bricks, lives and speed boost time. *)
Definition falling_ball : Ball.t := Ball.mk 200 650 0 360 6 360 false.

Definition falling_game (ks : list Brick.t) (lives : Z) (boost : R)
    : Game.t :=
  Game.mk PLAYING no_input 1 ks Paddle.new [falling_ball] []
          lives 0 0 boost 0 0 [].


(** A paddle at its right limit, a paddle power-up about to land on it,
    and the player holding the right key. *)
Definition right_paddle : Paddle.t := Paddle.mk 120 16 348 604 960 0.

Definition hold_right : Input.t := Input.mk false true false false 0.

Definition drag_right : Input.t := Input.mk false false false true 470.

Definition widen_game : Game.t :=
  Game.mk PLAYING hold_right 1 level1 right_paddle
          [Ball.mk 240 300 0 (-360) 6 360 false]
          [PowerUp.new 396 595 (Some PPaddle)]
          3 0 0 0 0 0 [].

(** A game waiting for the launch of its stuck ball, which has the given
    speed, while the speed boost has the given time left. *)
Definition launch_game (speed boost : R) : Game.t :=
  Game.mk PLAYING (Input.mk false false true false 0) 1 level1
          Paddle.new [Ball.new 240 596 speed] [] 3 0 0 boost 0 0 [].
End Sample.

(** ** Input events

    The listeners bound by [Input._bind], as functions on the input
    snapshot.  A pointer event carries [clientX] and the left edge and width
    of the bounding rectangle of the canvas; the width is not zero for a
    canvas that is shown. *)

Module Events.
Definition is_left (code : string) : bool :=
  String.eqb code "ArrowLeft" || String.eqb code "KeyA".
Definition is_right (code : string) : bool :=
  String.eqb code "ArrowRight" || String.eqb code "KeyD".
Definition is_space (code : string) : bool := String.eqb code "Space".

(** The [keydown] and [keyup] listeners: [v] is [true] on key down. *)
Definition key (v : bool) (code : string) (i : Input.t) : Input.t :=
  Input.mk (if is_left code then v else Input.left i)
           (if is_right code then v else Input.right i)
           (if is_space code then v else Input.launch i)
           (Input.pointerDown i) (Input.pointerX i).

Definition keydown : string -> Input.t -> Input.t := key true.
Definition keyup : string -> Input.t -> Input.t := key false.

(** [(e.clientX - rect.left) * (canvas.width / rect.width)] *)
Definition canvasX `{Canvas} (clientX rectLeft rectWidth : R) : R :=
  (clientX - rectLeft) * (IZR WIDTH / rectWidth).

Definition pointerdown `{Canvas} (clientX rectLeft rectWidth : R)
    (i : Input.t) : Input.t :=
  Input.mk (Input.left i) (Input.right i) true true
           (canvasX clientX rectLeft rectWidth).

Definition pointerup (i : Input.t) : Input.t :=
  Input.mk (Input.left i) (Input.right i) false false (Input.pointerX i).

Definition pointermove `{Canvas} (clientX rectLeft rectWidth : R)
    (i : Input.t) : Input.t :=
  if negb (Input.pointerDown i) then i
  else Input.mk (Input.left i) (Input.right i) (Input.launch i)
                (Input.pointerDown i) (canvasX clientX rectLeft rectWidth).

Inductive event :=
| KeyDown (code : string)
| KeyUp (code : string)
| PointerDown (clientX rectLeft rectWidth : R)
| PointerUp
| PointerMove (clientX rectLeft rectWidth : R).

Definition handle `{Canvas} (e : event) (i : Input.t) : Input.t :=
  match e with
  | KeyDown c => keydown c i
  | KeyUp c => keyup c i
  | PointerDown cx l w => pointerdown cx l w i
  | PointerUp => pointerup i
  | PointerMove cx l w => pointermove cx l w i
  end.

(** The listeners run on a sequence of events, oldest first. *)
Definition run `{Canvas} (es : list event) (i : Input.t) : Input.t :=
  fold_left (fun i e => handle e i) es i.

Definition is_pointerdown (e : event) : bool :=
  match e with PointerDown _ _ _ => true | _ => false end.
End Events.

(** ** Game commands

    The constructor, [resetGame], [startLevel] and the click listeners of
    the three buttons.  [levelBricks n] is what
    [levelManager.getBricksForLevel(n)] hands out, by value: the bricks of
    the generated level [n], or [None] for the exception thrown when the
    level does not exist. *)

Module Commands.
Section WithCanvas.
Context `{Canvas}.

Definition maxLevel : Z := Z.of_nat (length Levels.generateLevels).

Definition levelBricks (n : Z) : option (list Brick.t) :=
  if (n <? 1)%Z then None else Levels.generateLevels !! Z.to_nat (n - 1).

(** [new Game()] up to the first call of [_loop]; [now] is the clock. *)
Definition newGame (now : R) : option Game.t :=
  bricks ← levelBricks 1;
  Some (Game.mk READY (Input.mk false false false false 0) 1 bricks
                Paddle.new [Game.fresh_ball Paddle.new] [] 3 0 now 0 0 0%nat []).

Definition resetGame (g : Game.t) : option Game.t :=
  bricks ← levelBricks 1;
  Some (Game.mk READY (Game.input g) 1 bricks
                Paddle.new [Game.fresh_ball Paddle.new] [] 3 0
                (Game.lastTime g) 0 0 (Game.draws g) (Game.sfx g)).

Definition startLevel (g : Game.t) : option Game.t :=
  '(level, bricks) ←
    match Game.state g with
    | LEVEL_COMPLETE =>
        let l1 := (Game.currentLevel g + 1)%Z in
        let l2 := if (maxLevel <? l1)%Z then 1%Z else l1 in
        bs ← levelBricks l2; Some (l2, bs)
    | _ => Some (Game.currentLevel g, Game.bricks g)
    end;
  Some (Game.mk PLAYING (Game.input g) level bricks
                Paddle.new [Game.fresh_ball Paddle.new] []
                (Game.lives g) (Game.score g) (Game.lastTime g)
                (Game.speedBoostTimer g) (Game.multiBallTimer g)
                (Game.draws g) (Game.sfx g)).

(** The click listeners of [_bindUI]. *)
Definition clickStart (g : Game.t) : option Game.t :=
  match Game.state g with
  | READY | LEVEL_COMPLETE => startLevel g
  | _ => Some g
  end.

Definition clickPause (g : Game.t) : Game.t :=
  match Game.state g with
  | PLAYING => Game.togglePause g
  | PAUSED => Game.togglePause g
  | _ => g
  end.

Definition clickReset (g : Game.t) : option Game.t := resetGame g.

(** One thing that happens to a running game: an animation frame at clock
    reading [now], a click on a button, or an input event. *)
Inductive step (random : nat -> R) : Game.t -> Game.t -> Prop :=
| step_frame now g : step random g (Game.loop random now g)
| step_start g g' : clickStart g = Some g' -> step random g g'
| step_pause g : step random g (clickPause g)
| step_reset g g' : clickReset g = Some g' -> step random g g'
| step_event e g :
    step random g (Game.set_input (Events.handle e (Game.input g)) g).

(** Successive animation frames at the clock readings [ts]. *)
Definition frames (random : nat -> R) (ts : list R) (g : Game.t) : Game.t :=
  fold_left (fun g now => Game.loop random now g) ts g.

(** The games a session can be in. *)
Inductive reachable (random : nat -> R) : Game.t -> Prop :=
| reach_new now g : newGame now = Some g -> reachable random g
| reach_step g g' : reachable random g -> step random g g' -> reachable random g'.
End WithCanvas.
End Commands.

(** ** Measures and invariants of the world *)

(** What a brick never changes: place, size and colour. *)
Definition brick_shape (k : Brick.t) : Z * Z * Z * Z * string :=
  (Brick.x k, Brick.y k, Brick.w k, Brick.h k, Brick.color k).

(** A brick is alive exactly while it has hit-points left. *)
Definition brick_sound (k : Brick.t) : Prop :=
  (0 <= Brick.hp k)%Z /\ (Brick.alive k = true <-> (0 < Brick.hp k)%Z).

Definition total_hp (ks : list Brick.t) : Z :=
  foldr (fun k acc => (Brick.hp k + acc)%Z) 0%Z ks.

(** The direction asked for by the keys: 1 for right, -1 for left, 0 for
    both or none. *)
Definition key_dir (i : Input.t) : Z :=
  ((if Input.right i then 1 else 0) - (if Input.left i then 1 else 0))%Z.



(** The number of balls stuck to the paddle. *)
Definition stuck_count (bs : list Ball.t) : nat :=
  length (List.filter Ball.stuck bs).

(** A ball has its speed in the band from 200 to 1000, and the base speed
    while it is stuck. *)
Definition ball_ok (b : Ball.t) : Prop :=
  200 <= Ball.speed b <= 1000 /\ (Ball.stuck b = true -> Ball.speed b = 360).

(** What every phase of a frame keeps of the balls: a stuck ball is the
    only ball, and no power-up is around with it. *)
Definition balls_mid (g : Game.t) : Prop :=
  Forall ball_ok (Game.balls g) /\
  (Exists (fun b => Ball.stuck b = true) (Game.balls g) ->
   length (Game.balls g) = 1%nat /\ Game.powerups g = []).

Definition in_play (g : Game.t) : Prop :=
  Game.state g = PLAYING \/ Game.state g = PAUSED.

(** What holds of the balls in every game of a session. *)
Record balls_ok (g : Game.t) : Prop := {
  each_ball_ok : Forall ball_ok (Game.balls g);
  stuck_alone :
    in_play g ->
    Exists (fun b => Ball.stuck b = true) (Game.balls g) ->
    length (Game.balls g) = 1%nat /\ Game.powerups g = [];
  ball_present : in_play g -> Game.balls g <> []
}.

(** What holds of the paddle in every game of a session: it has the base
    width, or the widened one while its timer runs; its left edge is where
    a paddle of base width may be; height, y and speed never change. *)
Definition paddle_ok `{Canvas} (p : Paddle.t) : Prop :=
  (Paddle.width p = PADDLE_BASE_WIDTH \/
   (Paddle.width p = PADDLE_BASE_WIDTH * (16 / 10) /\
    0 < Paddle.expireTimer p)) /\
  12 <= Paddle.x p <= IZR WIDTH - 12 - PADDLE_BASE_WIDTH /\
  (Paddle.height p, Paddle.y p, Paddle.speed p)
    = (PADDLE_HEIGHT, PADDLE_Y, 960).

(** What holds of levels, lives, score and bricks in every game of a
    session. *)
Record world_ok `{Canvas} (g : Game.t) : Prop := {
  level_in_range : (1 <= Game.currentLevel g <= 6)%Z;
  lives_at_most_3 : (Game.lives g <= 3)%Z;
  score_hundreds : (0 <= Game.score g)%Z /\ (Game.score g mod 100 = 0)%Z;
  bricks_of_level :
    exists bs, Commands.levelBricks (Game.currentLevel g) = Some bs /\
               map brick_shape (Game.bricks g) = map brick_shape bs;
  bricks_sound : Forall brick_sound (Game.bricks g)
}.

(** The templates kept by a level manager still hold the generated levels
    in heap [h]. *)
Definition templates_intact `{Canvas} (lm : LevelManager.t)
    (h : gmap nat Brick.t) : Prop :=
  Forall2 (fun ls bs => LevelManager.deref h ls = Some bs)
          (LevelManager.levels lm) Levels.generateLevels.

(** ** Sample sessions *)

Module Session.
#[local] Existing Instance canvas480.

(** The game built by the constructor at clock reading 0. *)
Definition opening : Game.t :=
  Game.mk READY no_input 1 Sample.level1 Paddle.new
          [Game.fresh_ball Paddle.new] [] 3 0 0 0 0 0 [].

(** The opening game after a click on Start. *)
Definition started : Game.t :=
  Game.mk PLAYING no_input 1 Sample.level1 Paddle.new
          [Game.fresh_ball Paddle.new] [] 3 0 0 0 0 0 [].

(** A finished level 6 with two lives and 8000 points. *)
Definition level6_done : Game.t :=
  Game.mk LEVEL_COMPLETE no_input 6 (map Brick.hit (Levels.levelN 6))
          Sample.right_paddle [Sample.rising_ball] [] 2 8000 0 3 0 0 [].

End Session.

(** * Properties *)

(** ** Deciding comparisons of reals *)

Lemma Rltb_true a b : a < b -> Rltb a b = true.
Proof. intros; unfold Rltb; destruct (Rlt_dec a b); [reflexivity | lra]. Qed.

Lemma Rltb_false a b : b <= a -> Rltb a b = false.
Proof. intros; unfold Rltb; destruct (Rlt_dec a b); [lra | reflexivity]. Qed.

Lemma Rleb_true a b : a <= b -> Rleb a b = true.
Proof. intros; unfold Rleb; destruct (Rle_dec a b); [reflexivity | lra]. Qed.

Lemma Rleb_false a b : b < a -> Rleb a b = false.
Proof. intros; unfold Rleb; destruct (Rle_dec a b); [lra | reflexivity]. Qed.



Lemma Rltb_spec a b : reflect (a < b) (Rltb a b).
Proof. unfold Rltb; destruct (Rlt_dec a b); constructor; assumption. Qed.

Lemma Rleb_spec a b : reflect (a <= b) (Rleb a b).
Proof. unfold Rleb; destruct (Rle_dec a b); constructor; assumption. Qed.

Lemma clamp_low v a b : v <= a -> clamp v a b = a.
Proof.
  intros; unfold clamp; apply Rmax_left.
  pose proof (Rmin_r b v); lra.
Qed.

Lemma clamp_high v a b : a <= b -> b <= v -> clamp v a b = b.
Proof.
  intros; unfold clamp; rewrite (Rmin_left b v) by assumption.
  apply Rmax_right; assumption.
Qed.

Lemma clamp_id v a b : a <= v <= b -> clamp v a b = v.
Proof.
  intros [? ?]; unfold clamp; rewrite (Rmin_right b v) by assumption.
  apply Rmax_right; assumption.
Qed.

Lemma clamp_bounds v a b : a <= b -> a <= clamp v a b <= b.
Proof.
  intros; unfold clamp, Rmax, Rmin.
  destruct (Rle_dec b v); destruct (Rle_dec a _); lra.
Qed.

(** Resolve the comparisons, clamps and absolute values of an expression
    over numerals. *)
Ltac rstep :=
  match goal with
  | |- context [Rltb ?a ?b] =>
      first [rewrite (Rltb_true a b) by lra | rewrite (Rltb_false a b) by lra]
  | |- context [Rleb ?a ?b] =>
      first [rewrite (Rleb_true a b) by lra | rewrite (Rleb_false a b) by lra]
  | |- context [clamp ?v ?a ?b] =>
      first [rewrite (clamp_id v a b) by lra
            | rewrite (clamp_high v a b) by lra
            | rewrite (clamp_low v a b) by lra]
  | |- context [Rmin ?a ?b] =>
      first [rewrite (Rmin_left a b) by lra | rewrite (Rmin_right a b) by lra]
  | |- context [Rabs ?a] =>
      first [rewrite (Rabs_right a) by lra | rewrite (Rabs_left a) by lra]
  end.

Ltac rsimp :=
  cbv -[Rltb Rleb Reqb clamp Rmin Rmax Rabs IZR INR Int_part Rplus Rminus Rmult
        Rdiv Ropp Rinv cos sin PI sqrt atan atan2 hypot].

Ltac reval := rsimp; repeat (rstep; rsimp).

(** Evaluate the subterm [t] of the goal on its own. *)
Ltac eval_at t :=
  let E := fresh "E" in
  eassert (E : t = _) by (reval; reflexivity); rewrite E; clear E.

(** ** The pause command *)

(** C6. [togglePause] turns PLAYING into PAUSED and PAUSED back into
    PLAYING; in READY, LEVEL_COMPLETE and GAME_OVER it returns the game
    as it was.  In every case only the state field can change. *)
Theorem togglePause_transitions :
  (forall g, Game.state g = PLAYING ->
     Game.state (Game.togglePause g) = PAUSED /\
     Game.state (Game.togglePause (Game.togglePause g)) = PLAYING) /\
  (forall g, Game.state g = PAUSED ->
     Game.state (Game.togglePause g) = PLAYING) /\
  (forall g, Game.state g = READY \/ Game.state g = LEVEL_COMPLETE \/
             Game.state g = GAME_OVER ->
     Game.togglePause g = g) /\
  (forall g, Game.set_state (Game.state g) (Game.togglePause g) = g).
Proof.
  split; [| split; [| split]]; intros g; unfold Game.togglePause.
  - intros E; rewrite E; split; [reflexivity |].
    destruct g; simpl in *; reflexivity.
  - intros E; rewrite E; reflexivity.
  - intros [E | [E | E]]; rewrite E; reflexivity.
  - destruct g as [st ? ? ? ? ? ? ? ? ? ? ? ? ?]; destruct st; reflexivity.
Qed.

Lemma togglePause_transitions_witness :
  Game.state (Game.togglePause Sample.level2_game) = PAUSED /\
  Game.state (Game.togglePause (Game.togglePause Sample.level2_game)) = PLAYING /\
  Game.state (Game.togglePause (Game.set_state PAUSED Sample.level2_game))
    = PLAYING /\
  Game.togglePause (Game.set_state GAME_OVER Sample.level2_game)
    = Game.set_state GAME_OVER Sample.level2_game.
Proof.
  destruct togglePause_transitions as (Hplay & Hpause & Hother & _).
  split; [| split; [| split]].
  - apply (Hplay Sample.level2_game); reflexivity.
  - apply (Hplay Sample.level2_game); reflexivity.
  - apply (Hpause (Game.set_state PAUSED Sample.level2_game)); reflexivity.
  - apply (Hother (Game.set_state GAME_OVER Sample.level2_game)).
    right; right; reflexivity.
Defined.

(** ** Magnitudes and headings *)



Lemma hypot_scaled s c d : 0 <= s -> c * c + d * d = 1 -> hypot (s * c) (s * d) = s.
Proof.
  intros Hs E; unfold hypot.
  replace (s * c * (s * c) + s * d * (s * d)) with (s * s * (c * c + d * d))
    by ring.
  rewrite E, Rmult_1_r; apply sqrt_square; assumption.
Qed.

Lemma hypot_polar s a : 0 <= s -> hypot (s * cos a) (s * sin a) = s.
Proof.
  intros Hs; apply hypot_scaled; [assumption |].
  pose proof (sin2_cos2 a) as E; unfold Rsqr in E; lra.
Qed.

Lemma hypot_flip a b : hypot (- a) b = hypot a b /\ hypot a (- b) = hypot a b.
Proof. unfold hypot; split; f_equal; ring. Qed.

Lemma hypot_abs a b : hypot (Rabs a) b = hypot a b /\ hypot a (Rabs b) = hypot a b.
Proof.
  unfold hypot; split; f_equal.
  - replace (Rabs a * Rabs a) with (a * a); [reflexivity |].
    rewrite <- Rabs_mult; symmetry; apply Rabs_right; nra.
  - replace (Rabs b * Rabs b) with (b * b); [reflexivity |].
    rewrite <- Rabs_mult; symmetry; apply Rabs_right; nra.
Qed.

Lemma sqrt_ratio x y : x <> 0 -> sqrt (1 + (y / x)²) = hypot x y / Rabs x.
Proof.
  intros Hx; unfold hypot.
  assert (Hax : 0 < Rabs x) by (apply Rabs_pos_lt; assumption).
  assert (Hsq : Rabs x * Rabs x = x * x).
  { rewrite <- Rabs_mult; apply Rabs_right; nra. }
  replace (1 + (y / x)²) with ((x * x + y * y) / (Rabs x * Rabs x)).
  - rewrite sqrt_div_alt by nra.
    rewrite sqrt_square by lra; reflexivity.
  - rewrite Hsq; unfold Rsqr; field; assumption.
Qed.

Lemma hypot_pos x y : x <> 0 \/ y <> 0 -> 0 < hypot x y.
Proof.
  intros Hxy; unfold hypot; apply sqrt_lt_R0.
  destruct Hxy; nra.
Qed.

Lemma atan_polar x y :
  x <> 0 ->
  hypot x y * cos (atan (y / x)) = Rabs x /\
  hypot x y * sin (atan (y / x)) = Rabs x * (y / x).
Proof.
  intros Hx.
  assert (Hh : 0 < hypot x y) by (apply hypot_pos; left; assumption).
  assert (Hax : 0 < Rabs x) by (apply Rabs_pos_lt; assumption).
  rewrite cos_atan, sin_atan, sqrt_ratio by assumption.
  split; field; split; lra.
Qed.

(** [atan2] is the heading of a non-zero vector. *)
Lemma atan2_heading x y :
  x <> 0 \/ y <> 0 ->
  x = hypot x y * cos (atan2 y x) /\ y = hypot x y * sin (atan2 y x).
Proof.
  intros Hxy; unfold atan2.
  destruct (Rltb_spec 0 x) as [Hx | Hx].
  - destruct (atan_polar x y) as [Ec Es]; [lra |].
    rewrite Ec, Es, Rabs_right by lra; split; [reflexivity | field; lra].
  - destruct (Rltb_spec x 0) as [Hx' | Hx'].
    + destruct (atan_polar x y) as [Ec Es]; [lra |].
      rewrite Rabs_left in Ec, Es by lra.
      destruct (Rleb_spec 0 y).
      * rewrite cos_plus, sin_plus, cos_PI, sin_PI; split.
        -- transitivity (- (hypot x y * cos (atan (y / x)))); [lra | ring].
        -- transitivity (- (hypot x y * sin (atan (y / x)))); [| ring].
           rewrite Es; field; lra.
      * rewrite cos_minus, sin_minus, cos_PI, sin_PI; split.
        -- transitivity (- (hypot x y * cos (atan (y / x)))); [lra | ring].
        -- transitivity (- (hypot x y * sin (atan (y / x)))); [| ring].
           rewrite Es; field; lra.
    + assert (x = 0) by lra; subst x.
      assert (Hy : y <> 0) by (destruct Hxy; [lra | assumption]).
      unfold hypot; rewrite Rmult_0_l, Rplus_0_l.
      destruct (Rltb_spec 0 y).
      * rewrite cos_PI2, sin_PI2, sqrt_square by lra; lra.
      * destruct (Rltb_spec y 0); [| lra].
        rewrite cos_neg, sin_neg, cos_PI2, sin_PI2.
        replace (y * y) with ((- y) * (- y)) by ring.
        rewrite sqrt_square by lra; lra.
Qed.

(** ** Velocity normalisation in [Ball.reflect] *)




(** ** What each loop of [update] does to the balls *)

Section Loops.
Context `{Canvas}.
Variable random : nat -> R.

(** The first loop: a ball is moved, re-attached or launched. *)
Lemma step_balls_cases dt p boost bs launch n :
  Forall2
    (fun b b' =>
       (Ball.stuck b = false /\ b' = Ball.update dt b) \/
       (Ball.stuck b = true /\ Ball.stuck b' = true /\
        Ball.speed b' = Ball.speed b) \/
       (Ball.stuck b = true /\ Ball.stuck b' = false /\
        exists u, b' = Game.launched boost u (Ball.attachToPaddle p b)))
    bs (Game.step_balls random dt p boost bs launch n).1.1.
Proof.
  revert launch n; induction bs as [| b rest IH]; intros launch n; cbn.
  - constructor.
  - destruct (Ball.stuck b) eqn:Es.
    + destruct launch.
      * specialize (IH false (S n)).
        destruct (Game.step_balls random dt p boost rest false (S n))
          as [[rest' l'] n']; cbn in *.
        constructor; [| exact IH].
        right; right; split; [exact Es |]; split; [reflexivity |].
        exists (random n); reflexivity.
      * specialize (IH false n).
        destruct (Game.step_balls random dt p boost rest false n)
          as [[rest' l'] n']; cbn in *.
        constructor; [| exact IH].
        right; left; split; [exact Es |]; split; reflexivity.
    + specialize (IH launch n).
      destruct (Game.step_balls random dt p boost rest launch n)
        as [[rest' l'] n']; cbn in *.
      constructor; [| exact IH].
      left; split; [exact Es |].
      unfold Ball.update; rewrite Es; reflexivity.
Qed.

Lemma update_balls_balls dt g :
  Game.balls (Game.update_balls random dt g)
  = (Game.step_balls random dt (Game.paddle g) (Game.speedBoostTimer g)
       (Game.balls g) (Input.launch (Game.input g)) (Game.draws g)).1.1.
Proof.
  unfold Game.update_balls.
  destruct (Game.step_balls _ _ _ _ _ _ _) as [[bs l] n]; reflexivity.
Qed.

(** The second loop: a free ball touching the paddle bounces. *)
Lemma paddle_loop_cases r boost bs :
  Forall2
    (fun b b' =>
       b' = b \/
       (Ball.stuck b = false /\ Game.hits_rect b r = true /\
        b' = Game.paddle_bounce r boost b))
    bs (Game.paddle_loop r boost bs).1.
Proof.
  induction bs as [| b rest IH]; cbn; [constructor |].
  destruct (Game.paddle_loop r boost rest) as [rest' s]; cbn in *.
  destruct (Ball.stuck b) eqn:Es; cbn; [constructor; auto |].
  destruct (Game.hits_rect b r) eqn:Eh; cbn; constructor; auto.
Qed.

Lemma paddle_collisions_balls g :
  Game.balls (Game.paddle_collisions g)
  = (Game.paddle_loop (Paddle.getRect (Game.paddle g))
       (Game.speedBoostTimer g) (Game.balls g)).1.
Proof.
  unfold Game.paddle_collisions.
  destruct (Game.paddle_loop _ _ _) as [bs s]; reflexivity.
Qed.

(** The third loop: a free ball touching an alive brick bounces off the
    first such brick. *)
Lemma brick_step_cases b g :
  (Game.brick_step random b g).1 = b \/
  exists pre k post,
    Ball.stuck b = false /\
    Game.first_brick_hit b (Game.bricks g) = Some (pre, k, post) /\
    (Game.brick_step random b g).1 = Game.brick_bounce k b.
Proof.
  unfold Game.brick_step.
  destruct (Ball.stuck b) eqn:Es; [left; reflexivity |].
  destruct (Game.first_brick_hit b (Game.bricks g)) as [[[pre k] post] |];
    [| left; reflexivity].
  right; exists pre, k, post; repeat split; reflexivity.
Qed.


Lemma brick_collisions_balls g :
  Game.balls (Game.brick_collisions random g)
  = (Game.brick_loop random (Game.balls g) g).1.
Proof.
  unfold Game.brick_collisions.
  destruct (Game.brick_loop random (Game.balls g) g) as [bs g1]; reflexivity.
Qed.
End Loops.

(** ** Speed bands *)

Lemma launched_speed boost u b :
  Ball.speed (Game.launched boost u b)
  = Ball.speed b * (if Rltb 0 boost then 108 / 100 else 1).
Proof. reflexivity. Qed.

Lemma paddle_bounce_speed r boost b :
  200 <= Ball.speed (Game.paddle_bounce r boost b) <= 820.
Proof. cbn; apply clamp_bounds; lra. Qed.

Lemma brick_bounce_speed k b :
  Ball.speed (Game.brick_bounce k b) = clamp (Ball.speed b * (101 / 100)) 220 900.
Proof. unfold Game.brick_bounce; destruct (Rltb _ _); reflexivity. Qed.

Lemma multi_spawn_speed b b' :
  b' ∈ Game.multi_spawn b ->
  Ball.speed b' = clamp (Ball.speed b * (102 / 100)) 260 920.
Proof.
  unfold Game.multi_spawn; intros Hin.
  apply list_elem_of_In in Hin.
  destruct Hin as [<- | [<- | []]]; reflexivity.
Qed.

Lemma Ball_update_kept `{Canvas} dt b :
  Ball.speed (Ball.update dt b) = Ball.speed b /\
  Ball.radius (Ball.update dt b) = Ball.radius b /\
  Ball.stuck (Ball.update dt b) = Ball.stuck b.
Proof.
  unfold Ball.update.
  destruct (Ball.stuck b) eqn:Es; [auto |].
  repeat destruct (Rleb _ _); cbn; auto.
Qed.





(** ** The multi-ball power-up *)

Lemma flat_map_pairs_length {A B} (f : A -> list B) l :
  (forall a, length (f a) = 2%nat) -> length (flat_map f l) = (2 * length l)%nat.
Proof.
  intros Hf; induction l as [| a l IH]; [reflexivity |].
  cbn [flat_map]; rewrite length_app, Hf, IH; cbn; lia.
Qed.

Lemma flat_map_pairs_lookup {A B} (f : A -> list B) l i a :
  (forall a, length (f a) = 2%nat) ->
  l !! i = Some a ->
  flat_map f l !! (2 * i)%nat = f a !! 0%nat /\
  flat_map f l !! (2 * i + 1)%nat = f a !! 1%nat.
Proof.
  intros Hf; revert i; induction l as [| a0 l IH]; intros i Hi; [discriminate |].
  cbn [flat_map].
  destruct i as [| i]; cbn in Hi.
  - inversion Hi; subst a0.
    split; apply lookup_app_l; rewrite Hf; lia.
  - destruct (IH i Hi) as [E0 E1].
    split.
    + rewrite lookup_app_r by (rewrite Hf; lia).
      rewrite Hf; replace (2 * S i - 2)%nat with (2 * i)%nat by lia; exact E0.
    + rewrite lookup_app_r by (rewrite Hf; lia).
      rewrite Hf; replace (2 * S i + 1 - 2)%nat with (2 * i + 1)%nat by lia.
      exact E1.
Qed.

(** C7. Collecting the multi-ball power-up keeps the balls in play and
    appends two new balls for each of them, so [n] balls become [3 * n] and
    one ball becomes three.  The two balls made from a ball [b] sit 8 pixels
    to its right and to its left at the same height, are not stuck, have the
    speed [clamp (1.02 * speed b) 260 920], and fly at the angles
    [atan2 (vy b) (vx b) + 0.18] and [atan2 (vy b) (vx b) - 0.18] with a
    velocity of exactly that speed; [atan2 (vy b) (vx b)] is the heading of
    [b] whenever [b] moves. *)
Theorem multi_ball_spawns_two_per_ball g :
  let g' := Game.applyPowerUp (Some PMulti) g in
  let n := length (Game.balls g) in
  take n (Game.balls g') = Game.balls g /\
  length (Game.balls g') = (3 * n)%nat /\
  (n = 1%nat -> length (Game.balls g') = 3%nat) /\
  (forall i b, Game.balls g !! i = Some b ->
     let s := clamp (Ball.speed b * (102 / 100)) 260 920 in
     let a := atan2 (Ball.vy b) (Ball.vx b) in
     Game.balls g' !! (n + 2 * i)%nat
       = Some (Ball.mk (Ball.x b + 8) (Ball.y b)
                       (s * cos (a + 18 / 100)) (s * sin (a + 18 / 100))
                       BALL_RADIUS s false) /\
     Game.balls g' !! (n + 2 * i + 1)%nat
       = Some (Ball.mk (Ball.x b - 8) (Ball.y b)
                       (s * cos (a - 18 / 100)) (s * sin (a - 18 / 100))
                       BALL_RADIUS s false) /\
     260 <= s <= 920 /\
     hypot (s * cos (a + 18 / 100)) (s * sin (a + 18 / 100)) = s /\
     hypot (s * cos (a - 18 / 100)) (s * sin (a - 18 / 100)) = s /\
     (Ball.vx b <> 0 \/ Ball.vy b <> 0 ->
        Ball.vx b = hypot (Ball.vx b) (Ball.vy b) * cos a /\
        Ball.vy b = hypot (Ball.vx b) (Ball.vy b) * sin a)).
Proof.
  cbv zeta; cbn [Game.applyPowerUp Game.balls Game.set_balls Game.set_multiBallTimer].
  assert (Hlen : length (Game.balls g ++ flat_map Game.multi_spawn (Game.balls g))
                 = (3 * length (Game.balls g))%nat).
  { rewrite length_app, flat_map_pairs_length by reflexivity; lia. }
  split; [apply take_app_length |].
  split; [exact Hlen |].
  split; [intros E; rewrite Hlen, E; reflexivity |].
  intros i b Hi.
  destruct (flat_map_pairs_lookup Game.multi_spawn _ i b (fun _ => eq_refl) Hi)
    as [E0 E1].
  assert (Hs : 260 <= clamp (Ball.speed b * (102 / 100)) 260 920 <= 920)
    by (apply clamp_bounds; lra).
  split; [| split; [| split; [exact Hs | split; [| split]]]].
  - rewrite lookup_app_r by lia.
    replace (length (Game.balls g) + 2 * i - length (Game.balls g))%nat
      with (2 * i)%nat by lia.
    rewrite E0; reflexivity.
  - rewrite lookup_app_r by lia.
    replace (length (Game.balls g) + 2 * i + 1 - length (Game.balls g))%nat
      with (2 * i + 1)%nat by lia.
    rewrite E1; reflexivity.
  - apply hypot_polar; lra.
  - apply hypot_polar; lra.
  - apply atan2_heading.
Qed.

Lemma multi_ball_spawns_two_per_ball_witness :
  length (Game.balls (Game.applyPowerUp (Some PMulti) Sample.level2_game)) = 3%nat /\
  Game.balls (Game.applyPowerUp (Some PMulti) Sample.level2_game) !! 1%nat
    = Some (Ball.mk (100 + 8) 175
              (clamp (360 * (102 / 100)) 260 920 * cos (atan2 (-360) 0 + 18 / 100))
              (clamp (360 * (102 / 100)) 260 920 * sin (atan2 (-360) 0 + 18 / 100))
              BALL_RADIUS (clamp (360 * (102 / 100)) 260 920) false).
Proof.
  pose proof (multi_ball_spawns_two_per_ball Sample.level2_game)
    as (_ & _ & Hone & Hnew).
  split.
  - apply Hone; reflexivity.
  - apply (Hnew 0%nat Sample.rising_ball); reflexivity.
Defined.

(** ** The search for the brick a ball hits *)

Section BrickSearch.
Context `{Canvas}.

Lemma first_brick_hit_none b ks :
  Forall (untouched b) ks -> Game.first_brick_hit b ks = None.
Proof.
  induction 1 as [| k rest Hk _ IH]; cbn; [reflexivity |].
  rewrite IH.
  destruct Hk as [-> | ->]; cbn; [reflexivity |].
  destruct (Brick.alive k); reflexivity.
Qed.

Lemma first_brick_hit_found b pre k post :
  Forall (untouched b) pre ->
  Brick.alive k = true ->
  Game.hits_rect b (Game.brick_rect k) = true ->
  Game.first_brick_hit b (pre ++ k :: post) = Some (pre, k, post).
Proof.
  intros Hpre Hk Hh; induction Hpre as [| k0 rest Hk0 _ IH]; cbn.
  - rewrite Hk, Hh; reflexivity.
  - rewrite IH.
    destruct Hk0 as [-> | ->]; cbn; [reflexivity |].
    destruct (Brick.alive k0); reflexivity.
Qed.

Lemma first_brick_hit_split b ks pre k post :
  Game.first_brick_hit b ks = Some (pre, k, post) ->
  ks = pre ++ k :: post /\
  Forall (untouched b) pre /\
  Brick.alive k = true /\
  Game.hits_rect b (Game.brick_rect k) = true.
Proof.
  revert pre; induction ks as [| k0 rest IH]; intros pre; cbn; [discriminate |].
  destruct (Brick.alive k0) eqn:Ea; cbn.
  - destruct (Game.hits_rect b (Game.brick_rect k0)) eqn:Eh.
    + intros E; inversion E; subst; repeat split; auto.
    + destruct (Game.first_brick_hit b rest) as [[[pre' k'] post'] |];
        cbn; [| discriminate].
      intros E; inversion E; subst.
      destruct (IH pre' eq_refl) as (-> & Hpre & Hk & Hh).
      repeat split; auto.
      constructor; [right; exact Eh | exact Hpre].
  - destruct (Game.first_brick_hit b rest) as [[[pre' k'] post'] |];
      cbn; [| discriminate].
    intros E; inversion E; subst.
    destruct (IH pre' eq_refl) as (-> & Hpre & Hk & Hh).
    repeat split; auto.
    constructor; [left; exact Ea | exact Hpre].
Qed.

(** A ball whose centre is more than a radius and a pixel below, or to the
    right of, a brick does not touch it. *)
Lemma clear_of_untouched b k xmax ymax :
  clear_of xmax ymax k = true ->
  0 <= Ball.radius b ->
  IZR ymax + Ball.radius b + 1 <= Ball.y b ->
  IZR xmax + Ball.radius b + 1 <= Ball.x b ->
  Game.hits_rect b (Game.brick_rect k) = false.
Proof.
  unfold clear_of; intros Hc Hr Hy Hx.
  unfold Game.hits_rect, Game.brick_rect, circleRectCollision; cbn [rx ry rw rh].
  apply Rltb_false.
  apply orb_true_iff in Hc; destruct Hc as [Hc | Hc];
    apply andb_true_iff in Hc; destruct Hc as [H0 Hle];
    apply Z.leb_le in H0, Hle; apply IZR_le in H0, Hle;
    rewrite plus_IZR in Hle.
  - rewrite (clamp_high (Ball.y b)) by lra.
    set (dx := Ball.x b - clamp _ _ _); nra.
  - rewrite (clamp_high (Ball.x b)) by lra.
    set (dy := Ball.y b - clamp _ _ _); nra.
Qed.

Lemma clear_of_all b ks xmax ymax :
  forallb (clear_of xmax ymax) ks = true ->
  0 <= Ball.radius b ->
  IZR ymax + Ball.radius b + 1 <= Ball.y b ->
  IZR xmax + Ball.radius b + 1 <= Ball.x b ->
  Forall (untouched b) ks.
Proof.
  intros Hall Hr Hy Hx; apply Forall_forall; intros k Hk.
  right; apply (clear_of_untouched b k xmax ymax); try assumption.
  rewrite forallb_forall in Hall; apply Hall, list_elem_of_In, Hk.
Qed.
End BrickSearch.

(** ** Fields the simulation part of a frame never writes *)

Section Session.
Context `{Canvas}.
Variable random : nat -> R.

Lemma same_session_refl g : same_session g g.
Proof. repeat split. Qed.

Lemma same_session_trans g1 g2 g3 :
  same_session g1 g2 -> same_session g2 g3 -> same_session g1 g3.
Proof.
  unfold same_session; intros (? & ? & ? & ?) (? & ? & ? & ?).
  repeat split; congruence.
Qed.

Lemma applyPowerUp_session ty g : same_session g (Game.applyPowerUp ty g).
Proof. destruct ty as [[| |] |]; repeat split. Qed.

Lemma update_balls_session dt g : same_session g (Game.update_balls random dt g).
Proof.
  unfold Game.update_balls.
  destruct (Game.step_balls _ _ _ _ _ _ _) as [[bs l] n]; repeat split.
Qed.

Lemma paddle_collisions_session g : same_session g (Game.paddle_collisions g).
Proof.
  unfold Game.paddle_collisions.
  destruct (Game.paddle_loop _ _ _) as [bs s]; repeat split.
Qed.

Lemma spawn_powerup_session k g : same_session g (Game.spawn_powerup random k g).
Proof.
  unfold Game.spawn_powerup.
  destruct (negb (Brick.alive k)); [| apply same_session_refl].
  destruct (Rltb _ _); repeat split.
Qed.

Lemma brick_step_session b g : same_session g (Game.brick_step random b g).2.
Proof.
  unfold Game.brick_step.
  destruct (Ball.stuck b); [apply same_session_refl |].
  destruct (Game.first_brick_hit b (Game.bricks g)) as [[[pre k] post] |];
    [| apply same_session_refl].
  cbn [snd].
  eapply same_session_trans; [| apply spawn_powerup_session].
  repeat split.
Qed.

Lemma brick_loop_session bs g : same_session g (Game.brick_loop random bs g).2.
Proof.
  revert g; induction bs as [| b rest IH]; intros g; cbn;
    [apply same_session_refl |].
  pose proof (brick_step_session b g) as Hb.
  destruct (Game.brick_step random b g) as [b' g1]; cbn in Hb.
  specialize (IH g1).
  destruct (Game.brick_loop random rest g1) as [rest' g2]; cbn in *.
  eapply same_session_trans; eassumption.
Qed.

Lemma brick_collisions_session g :
  same_session g (Game.brick_collisions random g).
Proof.
  unfold Game.brick_collisions.
  pose proof (brick_loop_session (Game.balls g) g) as Hl.
  destruct (Game.brick_loop random (Game.balls g) g) as [bs g1]; cbn in Hl.
  eapply same_session_trans; [exact Hl | repeat split].
Qed.

Lemma collect_loop_session ps g : same_session g (Game.collect_loop ps g).2.
Proof.
  revert g; induction ps as [| p rest IH]; intros g; cbn;
    [apply same_session_refl |].
  destruct (Game.caught p (Paddle.getRect (Game.paddle g))).
  - eapply same_session_trans; [| apply IH].
    eapply same_session_trans; [apply (applyPowerUp_session (PowerUp.type p)) |].
    repeat split.
  - destruct (negb (PowerUp.alive p)); [apply IH |].
    specialize (IH g).
    destruct (Game.collect_loop rest g) as [kept g1]; exact IH.
Qed.

Lemma update_powerups_session dt g :
  same_session g (Game.update_powerups dt g).
Proof.
  unfold Game.update_powerups.
  pose proof (collect_loop_session
                (rev (map (PowerUp.update dt) (Game.powerups g)))
                (Game.set_powerups (map (PowerUp.update dt) (Game.powerups g)) g))
    as Hl.
  destruct (Game.collect_loop _ _) as [kept g1]; cbn in Hl.
  eapply same_session_trans; [| eapply same_session_trans; [exact Hl |]];
    repeat split.
Qed.

Lemma simulate_session dt g : same_session g (Game.simulate random dt g).
Proof.
  unfold Game.simulate.
  eapply same_session_trans; [| repeat split].
  eapply same_session_trans; [| apply update_powerups_session].
  eapply same_session_trans; [| apply brick_collisions_session].
  eapply same_session_trans; [| apply paddle_collisions_session].
  eapply same_session_trans; [| apply update_balls_session].
  repeat split.
Qed.
End Session.

(** ** The end of a frame *)

Section Bookkeeping.
Context `{Canvas}.
Variable random : nat -> R.

Lemma brick_loop_untouched bs g :
  Forall (fun b => Ball.stuck b = true \/ Forall (untouched b) (Game.bricks g)) bs ->
  Game.brick_loop random bs g = (bs, g).
Proof.
  induction 1 as [| b rest Hb _ IH]; cbn; [reflexivity |].
  assert (E : Game.brick_step random b g = (b, g)).
  { unfold Game.brick_step.
    destruct Hb as [-> | Hb]; [reflexivity |].
    rewrite (first_brick_hit_none b _ Hb).
    destruct (Ball.stuck b); reflexivity. }
  rewrite E, IH; reflexivity.
Qed.

Lemma brick_collisions_untouched g :
  Forall (fun b => Ball.stuck b = true \/ Forall (untouched b) (Game.bricks g))
         (Game.balls g) ->
  Game.brick_collisions random g = g.
Proof.
  intros Hb; unfold Game.brick_collisions.
  rewrite (brick_loop_untouched _ _ Hb).
  destruct g; reflexivity.
Qed.

Lemma check_level_alive g k :
  k ∈ Game.bricks g -> Brick.alive k = true -> Game.check_level g = g.
Proof.
  intros Hk Ha; unfold Game.check_level.
  destruct (filter (fun b => Brick.alive b) (Game.bricks g)) as [| k0 l] eqn:Ef;
    [| reflexivity].
  assert (Hin : k ∈ filter (fun b => Brick.alive b) (Game.bricks g)).
  { apply list_elem_of_filter; split; [rewrite Ha; exact I | exact Hk]. }
  rewrite Ef in Hin; inversion Hin.
Qed.

Lemma check_level_cleared g :
  Forall (fun k => Brick.alive k = false) (Game.bricks g) ->
  Game.check_level g = Game.play SfxBreak (Game.set_state LEVEL_COMPLETE g).
Proof.
  intros Hd; unfold Game.check_level.
  replace (filter (fun b => Brick.alive b) (Game.bricks g)) with (@nil Brick.t);
    [reflexivity |].
  symmetry; induction Hd as [| k l Hk _ IH]; [reflexivity |].
  rewrite filter_cons, Hk; cbn. exact IH.
Qed.

Lemma reset_speed_fresh p : Game.reset_speed (Game.fresh_ball p) = Game.fresh_ball p.
Proof. reflexivity. Qed.

Lemma check_level_kept g :
  Game.balls (Game.check_level g) = Game.balls g /\
  Game.lives (Game.check_level g) = Game.lives g /\
  Game.score (Game.check_level g) = Game.score g /\
  Game.bricks (Game.check_level g) = Game.bricks g /\
  Game.powerups (Game.check_level g) = Game.powerups g /\
  Game.paddle (Game.check_level g) = Game.paddle g /\
  Game.currentLevel (Game.check_level g) = Game.currentLevel g /\
  Game.speedBoostTimer (Game.check_level g) = Game.speedBoostTimer g.
Proof. unfold Game.check_level; destruct (_ =? _)%nat; repeat split. Qed.

Lemma update_timers_kept dt g :
  Game.state (Game.update_timers dt g) = Game.state g /\
  Game.lives (Game.update_timers dt g) = Game.lives g /\
  Game.score (Game.update_timers dt g) = Game.score g /\
  Game.bricks (Game.update_timers dt g) = Game.bricks g /\
  Game.powerups (Game.update_timers dt g) = Game.powerups g /\
  Game.paddle (Game.update_timers dt g) = Game.paddle g /\
  Game.currentLevel (Game.update_timers dt g) = Game.currentLevel g.
Proof.
  unfold Game.update_timers.
  destruct (Rltb 0 (Game.speedBoostTimer g));
    [destruct (Rleb _ _) |]; cbn; destruct (Rltb _ _); repeat split.
Qed.

Lemma update_timers_balls dt g :
  Game.balls (Game.update_timers dt g) = Game.balls g \/
  Game.balls (Game.update_timers dt g) = map Game.reset_speed (Game.balls g).
Proof.
  unfold Game.update_timers.
  destruct (Rltb 0 (Game.speedBoostTimer g));
    [destruct (Rleb _ _) |]; cbn; destruct (Rltb _ _); cbn; auto.
Qed.
End Bookkeeping.

(** ** A ball dropping out of the field *)

Section FallingBall.
#[local] Existing Instance canvas480.

Lemma falling_simulate ks n t :
  Forall (untouched (Ball.mk 200 (650 + 360 * (16 / 1000)) 0 360 6 360 false)) ks ->
  Game.simulate tape_half (16 / 1000) (Sample.falling_game ks n t)
  = Game.set_balls [] (Sample.falling_game ks n t).
Proof.
  intros Hks.
  unfold Game.simulate, Sample.falling_game, Sample.falling_ball.
  match goal with |- context [Paddle.update ?a ?b ?c] =>
    eval_at (Paddle.update a b c) end.
  match goal with |- context [Game.update_balls ?a ?b ?c] =>
    eval_at (Game.update_balls a b c) end.
  match goal with |- context [Game.paddle_collisions ?c] =>
    eval_at (Game.paddle_collisions c) end.
  rewrite brick_collisions_untouched.
  2:{ cbn [Game.balls Game.bricks]; constructor; [| constructor].
      right; replace (200 + 0 * (16 / 1000)) with 200 by lra; exact Hks. }
  match goal with |- context [Game.update_powerups ?a ?c] =>
    eval_at (Game.update_powerups a c) end.
  match goal with |- context [Game.sweep_balls ?c] =>
    eval_at (Game.sweep_balls c) end.
  rsimp; repeat f_equal; lra.
Qed.

Lemma level1_out_of_reach b :
  0 <= Ball.radius b -> 151 + Ball.radius b <= Ball.y b ->
  -99 + Ball.radius b <= Ball.x b ->
  Forall (untouched b) Sample.level1.
Proof.
  intros Hr Hy Hx.
  apply (clear_of_all b _ (-100) 150); [vm_compute; reflexivity | lra | lra | lra].
Qed.


Lemma level1_first_alive :
  exists k, k ∈ Sample.level1 /\ Brick.alive k = true.
Proof.
  exists (Brick.new 40 60 40 22 "#ff4dd2" 1).
  split; [| reflexivity].
  apply list_elem_of_In; vm_compute; left; reflexivity.
Qed.

Lemma falling_level1 n t :
  Game.simulate tape_half (16 / 1000) (Sample.falling_game Sample.level1 n t)
  = Game.set_balls [] (Sample.falling_game Sample.level1 n t).
Proof. apply falling_simulate, level1_out_of_reach; cbn; lra. Qed.

End FallingBall.

(** ** Losing a life *)

Section LifeLoss.
Context `{Canvas}.
Variable random : nat -> R.

Lemma lose_life_empty g :
  Game.balls g = [] ->
  Game.lose_life g =
    if (Game.lives g - 1 <=? 0)%Z
    then Game.set_state GAME_OVER (Game.set_lives (Game.lives g - 1) g)
    else Game.set_state READY
           (Game.set_balls [Game.fresh_ball (Game.paddle g)]
              (Game.set_lives (Game.lives g - 1) g)).
Proof.
  intros E; unfold Game.lose_life; rewrite E; cbn.
  rewrite E; reflexivity.
Qed.


End LifeLoss.

(** C10. When the balls are gone after the sweep and a life is left after
    the decrement, the life-loss step puts exactly one ball into play: stuck,
    centred on the paddle top, at rest, with speed 360 whatever the speed
    boost timer holds; that ball is still the only ball, unchanged, when the
    frame ends.  The step leaves the score, the level index, the bricks, the
    falling power-ups, the paddle and the speed boost timer as they were
    after the sweep, and so are the score, the level index, the bricks and
    the power-ups when the frame ends. *)
Theorem life_loss_respawn `{Canvas} (random : nat -> R) dt g :
  let s := Game.simulate random dt g in
  let l := Game.lose_life s in
  let g' := Game.update random dt g in
  let p := Game.paddle s in
  let b := Ball.mk (Paddle.x p + Paddle.width p / 2)
                   (Paddle.y p - BALL_RADIUS - 2) 0 0 BALL_RADIUS 360 true in
  Game.balls s = [] ->
  (0 < Game.lives g - 1)%Z ->
  Game.balls l = [b] /\ Game.balls g' = [b] /\
  Game.lives l = (Game.lives g - 1)%Z /\
  Game.score l = Game.score s /\
  Game.currentLevel l = Game.currentLevel g /\
  Game.bricks l = Game.bricks s /\
  Game.powerups l = Game.powerups s /\
  Game.paddle l = Game.paddle s /\
  Game.speedBoostTimer l = Game.speedBoostTimer s /\
  Game.score g' = Game.score s /\
  Game.currentLevel g' = Game.currentLevel g /\
  Game.bricks g' = Game.bricks s /\
  Game.powerups g' = Game.powerups s.
Proof.
  cbv zeta; intros Hb Hl.
  destruct (simulate_session random dt g) as (_ & Elives & Elevel & _).
  assert (El : Game.lose_life (Game.simulate random dt g)
               = Game.set_state READY
                   (Game.set_balls
                      [Game.fresh_ball (Game.paddle (Game.simulate random dt g))]
                      (Game.set_lives (Game.lives g - 1)
                         (Game.simulate random dt g)))).
  { rewrite (lose_life_empty _ Hb), Elives.
    destruct (Z.leb_spec (Game.lives g - 1) 0); [lia | reflexivity]. }
  unfold Game.update; rewrite El.
  set (s := Game.simulate random dt g) in *.
  set (l := Game.set_state READY _).
  destruct (check_level_kept l) as (Cb & _ & Cs & Ck & Cp & _ & Cl & _).
  destruct (update_timers_kept dt (Game.check_level l))
    as (_ & _ & Ts & Tk & Tp & _ & Tl).
  split; [reflexivity |].
  split.
  { destruct (update_timers_balls dt (Game.check_level l)) as [E | E];
      rewrite E, Cb; reflexivity. }
  split; [reflexivity |].
  split; [reflexivity |].
  split; [exact Elevel |].
  split; [reflexivity |].
  split; [reflexivity |].
  split; [reflexivity |].
  split; [reflexivity |].
  split; [rewrite Ts, Cs; reflexivity |].
  split; [rewrite Tl, Cl; exact Elevel |].
  split; [rewrite Tk, Ck; reflexivity | rewrite Tp, Cp; reflexivity].
Qed.

Lemma life_loss_respawn_witness :
  exists b,
    Game.balls (Game.update (H := canvas480) tape_half (16 / 1000)
                  (Sample.falling_game Sample.level1 2 5)) = [b] /\
    Ball.stuck b = true /\ Ball.speed b = 360.
Proof.
  destruct (life_loss_respawn (H := canvas480) tape_half (16 / 1000)
              (Sample.falling_game Sample.level1 2 5)) as (_ & E & _).
  - rewrite falling_level1; reflexivity.
  - reflexivity.
  - eexists; split; [exact E |]; split; reflexivity.
Defined.




(** ** Velocity magnitude against the speed field *)

Lemma launched_consistent boost u b :
  0 <= Ball.speed b -> Ball.speed_consistent (Game.launched boost u b).
Proof.
  intros Hs; unfold Ball.speed_consistent, Game.launched; cbn.
  apply hypot_polar.
  destruct (Rltb 0 boost); nra.
Qed.

Lemma paddle_bounce_consistent r boost b :
  Ball.speed_consistent (Game.paddle_bounce r boost b).
Proof.
  unfold Ball.speed_consistent, Game.paddle_bounce; cbn.
  apply hypot_polar.
  pose proof (clamp_bounds (Ball.speed b * (if Rltb 0 boost then 108 / 100 else 1))
                200 820 ltac:(lra)); lra.
Qed.

Lemma speed_boost_consistent b : Ball.speed_consistent (Game.speed_boost b).
Proof.
  unfold Ball.speed_consistent, Game.speed_boost; cbn.
  apply hypot_polar.
  pose proof (clamp_bounds (Ball.speed b * (118 / 100)) 300 1000 ltac:(lra)); lra.
Qed.

Lemma multi_spawn_consistent b b' :
  b' ∈ Game.multi_spawn b -> Ball.speed_consistent b'.
Proof.
  unfold Game.multi_spawn; intros Hin.
  pose proof (clamp_bounds (Ball.speed b * (102 / 100)) 260 920 ltac:(lra)).
  apply list_elem_of_In in Hin.
  destruct Hin as [<- | [<- | []]]; unfold Ball.speed_consistent; cbn;
    apply hypot_polar; lra.
Qed.

(** The walls keep the magnitude of the velocity. *)
Lemma Ball_update_consistent `{Canvas} dt b :
  Ball.speed_consistent b -> Ball.speed_consistent (Ball.update dt b).
Proof.
  unfold Ball.speed_consistent, Ball.update; intros E.
  destruct (Ball.stuck b); [exact E |].
  destruct (hypot_abs (Ball.vx b) (Ball.vy b)) as [Ex Ey].
  destruct (hypot_abs (Ball.vx b) (Rabs (Ball.vy b))) as [Exy _].
  destruct (hypot_flip (Ball.vx b) (Ball.vy b)) as [Fx _].
  destruct (hypot_flip (Rabs (Ball.vx b)) (Ball.vy b)) as [Fax _].
  destruct (hypot_flip (Rabs (Ball.vx b)) (Rabs (Ball.vy b))) as [Faxy _].
  destruct (hypot_flip (Ball.vx b) (Rabs (Ball.vy b))) as [Fxy _].
  assert (Eaa : Rabs (Rabs (Ball.vx b)) = Rabs (Ball.vx b)) by apply Rabs_Rabsolu.
  repeat destruct (Rleb _ _); cbn; rewrite ?Eaa; congruence.
Qed.

(** A brick bounce keeps the magnitude of the velocity and raises the speed
    field by one percent, so a ball that was consistent is not any more. *)
Lemma brick_bounce_inconsistent k b :
  Ball.speed_consistent b ->
  220 <= Ball.speed b * (101 / 100) <= 900 ->
  hypot (Ball.vx (Game.brick_bounce k b)) (Ball.vy (Game.brick_bounce k b))
    = Ball.speed b /\
  Ball.speed (Game.brick_bounce k b) = Ball.speed b * (101 / 100) /\
  ~ Ball.speed_consistent (Game.brick_bounce k b).
Proof.
  unfold Ball.speed_consistent; intros E Hband.
  destruct (hypot_flip (Ball.vx b) (Ball.vy b)) as [Fx Fy].
  assert (Ev : hypot (Ball.vx (Game.brick_bounce k b)) (Ball.vy (Game.brick_bounce k b))
               = Ball.speed b).
  { unfold Game.brick_bounce; destruct (Rltb _ _); cbn; congruence. }
  assert (Es : Ball.speed (Game.brick_bounce k b) = Ball.speed b * (101 / 100)).
  { rewrite brick_bounce_speed; apply clamp_id; exact Hband. }
  split; [exact Ev |]; split; [exact Es |].
  rewrite Ev, Es; lra.
Qed.

Lemma brick_bounce_inconsistent_witness :
  ~ Ball.speed_consistent
      (Game.brick_bounce Sample.level2_target
         (Ball.mk 100 (16924 / 100) 0 (-360) 6 360 false)).
Proof.
  apply (brick_bounce_inconsistent Sample.level2_target
           (Ball.mk 100 (16924 / 100) 0 (-360) 6 360 false)).
  - unfold Ball.speed_consistent, hypot; cbn.
    replace (0 * 0 + -360 * -360) with (360 * 360) by lra.
    apply sqrt_square; lra.
  - cbn; lra.
Defined.

(** ** Hitting a brick *)


Section Level2Frame.
#[local] Existing Instance canvas480.

Lemma level2_split :
  Sample.level2 = take 31 Sample.level2 ++ Sample.level2_target :: drop 32 Sample.level2.
Proof. vm_compute; reflexivity. Qed.

Lemma level2_pre_untouched b :
  0 <= Ball.radius b -> 139 + Ball.radius b <= Ball.y b ->
  81 + Ball.radius b <= Ball.x b ->
  Forall (untouched b) (take 31 Sample.level2).
Proof.
  intros Hr Hy Hx.
  apply (clear_of_all b _ 80 138); [vm_compute; reflexivity | lra | lra | lra].
Qed.

Lemma level2_frame :
  Game.update tape_half (16 / 1000) Sample.level2_game
  = Game.mk PLAYING no_input 2
      (take 31 Sample.level2 ++ Brick.hit Sample.level2_target :: drop 32 Sample.level2)
      Paddle.new [Ball.mk 100 172 0 360 6 (3636 / 10) false] []
      3 100 0 0 0 0 [SfxBreak].
Proof.
  pose (b1 := Ball.mk (100 + 0 * (16 / 1000)) (175 + -360 * (16 / 1000))
                      0 (-360) 6 360 false).
  assert (Hpre : Forall (untouched b1) (take 31 Sample.level2))
    by (apply level2_pre_untouched; cbn; lra).
  assert (Hhit : Game.hits_rect b1 (Game.brick_rect Sample.level2_target) = true)
    by (unfold b1; reval; reflexivity).
  pose proof (first_brick_hit_found b1 _ Sample.level2_target (drop 32 Sample.level2)
                Hpre eq_refl Hhit) as Hfirst.
  rewrite <- level2_split in Hfirst.
  unfold Game.update, Game.simulate, Sample.level2_game, Sample.rising_ball.
  revert Hfirst.
  generalize (take 31 Sample.level2); intros pre.
  generalize (drop 32 Sample.level2); intros post.
  generalize Sample.level2; intros ks Hfirst.
  unfold b1 in Hfirst; clear b1 Hpre Hhit.
  match goal with |- context [Paddle.update ?a ?b ?c] =>
    eval_at (Paddle.update a b c) end.
  match goal with |- context [Game.update_balls ?a ?b ?c] =>
    eval_at (Game.update_balls a b c) end.
  match goal with |- context [Game.paddle_collisions ?c] =>
    eval_at (Game.paddle_collisions c) end.
  unfold Game.brick_collisions.
  cbn [Game.brick_loop Game.balls].
  unfold Game.brick_step.
  cbn [Ball.stuck Game.bricks]. rewrite Hfirst.
  match goal with |- context [Game.brick_bounce ?k ?b] =>
    eval_at (Game.brick_bounce k b) end.
  unfold Game.spawn_powerup.
  replace (Brick.alive (Brick.hit Sample.level2_target)) with true by reflexivity.
  cbn [negb].
  assert (Hin : Brick.hit Sample.level2_target ∈ pre ++ Brick.hit Sample.level2_target :: post)
    by (apply elem_of_app; right; left).
  revert Hin; generalize (pre ++ Brick.hit Sample.level2_target :: post).
  intros ks' Hin.
  match goal with |- context [Game.update_powerups ?a ?c] =>
    eval_at (Game.update_powerups a c) end.
  match goal with |- context [Game.sweep_balls ?c] =>
    eval_at (Game.sweep_balls c) end.
  match goal with |- context [Game.lose_life ?c] =>
    eval_at (Game.lose_life c) end.
  rewrite (check_level_alive _ (Brick.hit Sample.level2_target)) by (exact Hin || reflexivity).
  match goal with |- context [Game.update_timers ?a ?c] =>
    eval_at (Game.update_timers a c) end.
  rsimp; repeat f_equal; lra.
Qed.

(** C1 at a brick bounce.  In the level 2 game the ball flies straight up
    with velocity (0, -360) and speed 360.  After one frame of 16 ms it
    has bounced off a brick: its velocity is (0, 360), of magnitude 360,
    while its speed field is 363.6. *)
Theorem brick_bounce_leaves_velocity_behind :
  Ball.speed_consistent Sample.rising_ball /\
  exists b',
    Game.balls (Game.update tape_half (16 / 1000) Sample.level2_game) = [b'] /\
    Ball.stuck b' = false /\
    hypot (Ball.vx b') (Ball.vy b') = 360 /\
    Ball.speed b' = 3636 / 10 /\
    ~ Ball.speed_consistent b'.
Proof.
  assert (E : hypot 0 360 = 360).
  { unfold hypot; replace (0 * 0 + 360 * 360) with (360 * 360) by lra.
    apply sqrt_square; lra. }
  split.
  - unfold Ball.speed_consistent, Sample.rising_ball; cbn.
    unfold hypot; replace (0 * 0 + -360 * -360) with (360 * 360) by lra.
    apply sqrt_square; lra.
  - rewrite level2_frame; eexists; split; [reflexivity |]; cbn.
    split; [reflexivity |]; split; [exact E |]; split; [reflexivity |].
    unfold Ball.speed_consistent; cbn; rewrite E; lra.
Qed.

End Level2Frame.


(** ** The paddle and the field *)

(** [Paddle.update] leaves the paddle inside the field when the field has
    room for it, the paddle is at least as wide as the base width, and, for
    a pointer drag, the paddle was inside the field before. *)
Lemma Paddle_update_in_field `{Canvas} dt input p :
  12 <= IZR WIDTH - 12 - Paddle.width p ->
  PADDLE_BASE_WIDTH <= Paddle.width p ->
  (Input.pointerDown input = true -> Paddle.in_field p) ->
  Paddle.in_field (Paddle.update dt input p).
Proof.
  intros Hroom Hbase Hdrag.
  assert (Hx : 12 <= Paddle.moved_x dt input p <= IZR WIDTH - 12 - Paddle.width p).
  { unfold Paddle.moved_x.
    destruct (Input.pointerDown input).
    - specialize (Hdrag eq_refl); unfold Paddle.in_field in Hdrag.
      pose proof (clamp_bounds (Input.pointerX input - Paddle.width p / 2)
                    12 (IZR WIDTH - 12 - Paddle.width p) Hroom) as Ht.
      pose proof (clamp_bounds (dt * 12) 0 1 ltac:(lra)) as Hc.
      set (t := clamp (Input.pointerX input - _) _ _) in *.
      set (c := clamp (dt * 12) 0 1) in *.
      split; nra.
    - destruct (negb _); apply clamp_bounds; assumption. }
  unfold Paddle.update, Paddle.in_field.
  destruct (Rltb _ _); [destruct (Rleb _ _) |]; cbn; lra.
Qed.

Section WidenedPaddle.
#[local] Existing Instance canvas480.

Lemma widen_frame :
  Game.update tape_half (16 / 1000) Sample.widen_game
  = Game.mk PLAYING Sample.hold_right 1 Sample.level1
      (Paddle.mk 192 16 348 604 960 12)
      [Ball.mk 240 (29424 / 100) 0 (-360) 6 360 false] []
      3 0 0 0 0 0 [SfxPower].
Proof.
  pose (b1 := Ball.mk (240 + 0 * (16 / 1000)) (300 + -360 * (16 / 1000))
                      0 (-360) 6 360 false).
  assert (Hks : Forall (untouched b1) Sample.level1)
    by (apply level1_out_of_reach; cbn; lra).
  destruct level1_first_alive as (k & Hin & Hk).
  unfold Game.update, Game.simulate, Sample.widen_game, Sample.right_paddle,
    Sample.hold_right.
  revert Hks Hin; generalize Sample.level1; intros ks Hks Hin; unfold b1 in Hks.
  match goal with |- context [Paddle.update ?a ?b ?c] =>
    eval_at (Paddle.update a b c) end.
  match goal with |- context [Game.update_balls ?a ?b ?c] =>
    eval_at (Game.update_balls a b c) end.
  match goal with |- context [Game.paddle_collisions ?c] =>
    eval_at (Game.paddle_collisions c) end.
  rewrite brick_collisions_untouched
    by (cbn [Game.balls Game.bricks]; constructor; [right; exact Hks | constructor]).
  match goal with |- context [Game.update_powerups ?a ?c] =>
    eval_at (Game.update_powerups a c) end.
  match goal with |- context [Game.sweep_balls ?c] =>
    eval_at (Game.sweep_balls c) end.
  match goal with |- context [Game.lose_life ?c] =>
    eval_at (Game.lose_life c) end.
  rewrite (check_level_alive _ k) by assumption.
  match goal with |- context [Game.update_timers ?a ?c] =>
    eval_at (Game.update_timers a c) end.
  rsimp; repeat f_equal; lra.
Qed.

(** C5 at the paddle power-up.  The paddle stands at its right limit,
    x = 348 for the width 120 on a canvas 480 wide.  Widening it to 192
    leaves x where it was, above the limit 276 of the new width and with
    the right edge at 540, outside the canvas; a frame of pointer drag
    afterwards only eases x towards the limit and ends above it.  The same
    happens inside [update]: the frame in which the power-up is caught
    ends with the paddle outside its interval. *)
Theorem widened_paddle_leaves_field :
  let p1 := Paddle.applyPower (Some PPaddle) Sample.right_paddle in
  let p2 := Paddle.update (16 / 1000) Sample.drag_right p1 in
  let g' := Game.update tape_half (16 / 1000) Sample.widen_game in
  Paddle.in_field Sample.right_paddle /\
  (Paddle.x p1 = 348 /\ Paddle.width p1 = 192 /\ ~ Paddle.in_field p1) /\
  (Paddle.x p2 = 334176 / 1000 /\ Paddle.width p2 = 192 /\ ~ Paddle.in_field p2) /\
  (Paddle.in_field (Game.paddle Sample.widen_game) /\
   Paddle.x (Game.paddle g') = 348 /\ Paddle.width (Game.paddle g') = 192 /\
   IZR WIDTH < Paddle.x (Game.paddle g') + Paddle.width (Game.paddle g') /\
   ~ Paddle.in_field (Game.paddle g')).
Proof.
  cbv zeta.
  assert (E2 : Paddle.update (16 / 1000) Sample.drag_right
                 (Paddle.applyPower (Some PPaddle) Sample.right_paddle)
               = Paddle.mk (120 * (16 / 10)) 16
                   (348 + (480 - 12 - 120 * (16 / 10) - 348) * (16 / 1000 * 12))
                   604 960 (12 - 16 / 1000)).
  { unfold Sample.drag_right, Sample.right_paddle. reval. reflexivity. }
  rewrite E2, widen_frame.
  unfold Paddle.in_field, Sample.right_paddle, Sample.widen_game,
    PADDLE_BASE_WIDTH; cbn; unfold PADDLE_BASE_WIDTH.
  repeat split; try lra; try (intros [? ?]; lra).
Qed.
End WidenedPaddle.

Lemma Paddle_update_in_field_witness :
  Paddle.in_field (H := canvas480)
    (Paddle.update (H := canvas480) (16 / 1000) Sample.drag_right Sample.right_paddle).
Proof.
  apply (Paddle_update_in_field (H := canvas480)).
  - cbn; lra.
  - unfold PADDLE_BASE_WIDTH; cbn; lra.
  - intros _; unfold Paddle.in_field; cbn; lra.
Defined.
(** ** Level data: fresh copies on every request *)

Section Store.
Import LevelManager.
Implicit Types (h : heap) (ls : list loc) (bs : list Brick.t).

Lemma alloc_fresh b h : h !! (alloc b h).1 = None.
Proof. unfold alloc; cbn; apply not_elem_of_dom, is_fresh. Qed.

Lemma alloc_lookup b h : (alloc b h).2 !! (alloc b h).1 = Some b.
Proof. unfold alloc; cbn; apply lookup_insert_eq. Qed.

Lemma alloc_extends b h : h ⊆ (alloc b h).2.
Proof. unfold alloc; cbn; apply insert_subseteq, (alloc_fresh b h). Qed.

Lemma deref_Forall2 h ls bs :
  deref h ls = Some bs <-> Forall2 (fun l b => h !! l = Some b) ls bs.
Proof. apply mapM_Some. Qed.

Lemma deref_weaken h h' ls bs :
  h ⊆ h' -> deref h ls = Some bs -> deref h' ls = Some bs.
Proof.
  intros Hsub; rewrite !deref_Forall2; intros HF.
  eapply Forall2_impl; [exact HF |].
  intros l b Hl; cbn beta in Hl; eapply lookup_weaken; eassumption.
Qed.

Lemma deref_alter f l h ls bs :
  l ∉ ls -> deref h ls = Some bs -> deref (alter f l h) ls = Some bs.
Proof.
  rewrite !deref_Forall2; intros Hl HF.
  induction HF as [| l0 b ls bs Hb _ IH]; constructor.
  - rewrite lookup_alter_ne; [exact Hb |].
    intros ->; apply Hl; left.
  - apply IH; intros Hin; apply Hl; right; exact Hin.
Qed.

(** What [alloc_all] returns: new, distinct references holding the given
    bricks, in a store that extends the old one. *)
Lemma alloc_all_spec bs h :
  let ls := (alloc_all bs h).1 in
  let h' := (alloc_all bs h).2 in
  h ⊆ h' /\
  deref h' ls = Some bs /\
  NoDup ls /\
  (forall l, l ∈ ls -> h !! l = None).
Proof.
  revert h; induction bs as [| b rest IH]; intros h; cbn.
  - split; [reflexivity |]; split; [reflexivity |].
    split; [constructor | intros l Hl; inversion Hl].
  - specialize (IH (<[fresh (dom h) := b]> h)).
    destruct (alloc_all rest (<[fresh (dom h) := b]> h)) as [ls h2] eqn:Ea.
    cbn in *; destruct IH as (Hsub & Hd & Hnd & Hfresh).
    assert (Hnew : h !! fresh (dom h) = None) by apply (alloc_fresh b h).
    assert (Hsub0 : h ⊆ <[fresh (dom h) := b]> h) by (apply insert_subseteq, Hnew).
    split; [etrans; eassumption |].
    split.
    { rewrite (lookup_weaken _ _ _ _ (lookup_insert_eq h (fresh (dom h)) b) Hsub).
      cbn; rewrite Hd; reflexivity. }
    split.
    { constructor; [| exact Hnd].
      intros Hin; specialize (Hfresh _ Hin).
      rewrite lookup_insert_eq in Hfresh; discriminate. }
    intros l Hl; apply elem_of_cons in Hl; destruct Hl as [-> | Hl]; [exact Hnew |].
    specialize (Hfresh _ Hl).
    eapply lookup_weaken_None; eassumption.
Qed.

(** The reviver rebuilds a serialised brick as the same record behind a
    new reference. *)
Lemma internalize_brick b h :
  internalize (brick_json b) h = Some (VBrick (alloc b h).1, (alloc b h).2).
Proof. destruct b; reflexivity. Qed.

Lemma internalize_bricks bs h :
  internalize (VArr (brick_json <$> bs)) h
  = Some (VArr (VBrick <$> (alloc_all bs h).1), (alloc_all bs h).2).
Proof.
  cbn [internalize].
  match goal with |- context [?f (brick_json <$> bs) h] =>
    set (members := f) end.
  assert (E : forall bs h,
    members (brick_json <$> bs) h
    = Some (VBrick <$> (alloc_all bs h).1, (alloc_all bs h).2)).
  { clear; intros bs; induction bs as [| b rest IH]; intros h; [reflexivity |].
    cbn [fmap list_fmap]; unfold members; fold members.
    rewrite internalize_brick; cbn [mbind option_bind].
    rewrite IH; cbn.
    destruct (alloc_all rest _); reflexivity. }
  rewrite E; reflexivity.
Qed.

Lemma getBricksForLevel_alloc n lm h tmpl bs :
  (1 <= n)%Z ->
  levels lm !! Z.to_nat (n - 1) = Some tmpl ->
  deref h tmpl = Some bs ->
  getBricksForLevel n lm h = Some (alloc_all bs h).
Proof.
  intros Hn Ht Hd; unfold getBricksForLevel, stringify.
  destruct (Z.ltb_spec n 1); [lia |].
  rewrite Ht; cbn [mbind option_bind]; rewrite Hd; cbn [mbind option_bind].
  rewrite internalize_bricks; cbn [mbind option_bind].
  destruct (alloc_all bs h) as [ls h']; cbn [fst snd].
  replace (mapM as_brick (VBrick <$> ls)) with (Some ls); [reflexivity |].
  symmetry; apply mapM_Some.
  induction ls; constructor; auto.
Qed.

(** The templates made by the constructor hold the generated levels. *)
Lemma alloc_levels_spec lvls h :
  let lss := (alloc_levels lvls h).1 in
  let h' := (alloc_levels lvls h).2 in
  h ⊆ h' /\
  Forall2 (fun ls bs => deref h' ls = Some bs /\ NoDup ls) lss lvls.
Proof.
  revert h; induction lvls as [| bs rest IH]; intros h; cbn.
  - split; [reflexivity | constructor].
  - pose proof (alloc_all_spec bs h) as Ha; cbv zeta in Ha.
    destruct (alloc_all bs h) as [ls h1]; cbn in Ha.
    destruct Ha as (Hsub1 & Hd & Hnd & _).
    specialize (IH h1).
    destruct (alloc_levels rest h1) as [lss h2]; cbn in *.
    destruct IH as (Hsub2 & HF).
    split; [etrans; eassumption |].
    constructor; [| exact HF].
    split; [eapply deref_weaken; eassumption | exact Hnd].
Qed.
End Store.

Section Copies.
Import LevelManager.
Context `{Canvas}.

Lemma deref_is_Some (h : heap) ls bs l :
  deref h ls = Some bs -> l ∈ ls -> is_Some (h !! l).
Proof.
  rewrite deref_Forall2; intros HF Hl.
  induction HF as [| l0 b ls bs Hb _ IH].
  - inversion Hl.
  - apply elem_of_cons in Hl; destruct Hl as [-> | Hl]; [eexists; exact Hb | auto].
Qed.

Lemma deref_length (h : heap) ls bs :
  deref h ls = Some bs -> length ls = length bs.
Proof. rewrite deref_Forall2; apply Forall2_length. Qed.

Lemma generateLevels_length : length Levels.generateLevels = 6%nat.
Proof. reflexivity. Qed.

Lemma new_maxLevel (h0 : heap) : maxLevel (new h0).1 = 6%Z.
Proof.
  unfold new, maxLevel.
  pose proof (alloc_levels_spec Levels.generateLevels h0) as Hs; cbv zeta in Hs.
  destruct (alloc_levels Levels.generateLevels h0) as [lss h1]; cbn in *.
  destruct Hs as [_ HF].
  rewrite (Forall2_length _ _ _ HF); reflexivity.
Qed.

(** C8. For every level index from 1 to [maxLevel], two successive calls
    of [getBricksForLevel] succeed and return lists of references whose
    bricks are, field by field, the bricks of the generated level, in the
    same number and order.  No reference occurs twice among the two lists
    and the stored template, so changing a brick of one list in any way
    (a hit, a cleared alive flag) leaves the bricks of the other list and
    of the template as they were, and the level asked for again after such
    a change comes back with its initial bricks. *)
Theorem getBricksForLevel_fresh_copies (h0 : heap) (n : Z) :
  let lm := (new h0).1 in
  let h := (new h0).2 in
  (1 <= n <= maxLevel lm)%Z ->
  exists tmpl bs l1 h1 l2 h2,
    levels lm !! Z.to_nat (n - 1) = Some tmpl /\
    Levels.generateLevels !! Z.to_nat (n - 1) = Some bs /\
    getBricksForLevel n lm h = Some (l1, h1) /\
    getBricksForLevel n lm h1 = Some (l2, h2) /\
    deref h2 l1 = Some bs /\ deref h2 l2 = Some bs /\ deref h2 tmpl = Some bs /\
    length l1 = length bs /\ length l2 = length bs /\
    NoDup (l1 ++ l2 ++ tmpl) /\
    (forall l f, l ∈ l1 ->
       deref (alter f l h2) l2 = Some bs /\ deref (alter f l h2) tmpl = Some bs) /\
    (forall l f, l ∈ l2 ->
       deref (alter f l h2) l1 = Some bs /\ deref (alter f l h2) tmpl = Some bs) /\
    (forall l f, l ∈ l1 ->
       exists l3 h3,
         getBricksForLevel n lm (alter f l h1) = Some (l3, h3) /\
         deref h3 l3 = Some bs).
Proof.
  cbv zeta; rewrite new_maxLevel; intros Hn.
  unfold new.
  pose proof (alloc_levels_spec Levels.generateLevels h0) as Hs; cbv zeta in Hs.
  destruct (alloc_levels Levels.generateLevels h0) as [lss h] eqn:El; cbn in *.
  destruct Hs as [_ HF].
  assert (Hlen : length lss = 6%nat)
    by (rewrite (Forall2_length _ _ _ HF); reflexivity).
  destruct (lookup_lt_is_Some_2 lss (Z.to_nat (n - 1))) as [tmpl Ht]; [lia |].
  destruct (Forall2_lookup_l _ _ _ _ _ HF Ht) as (bs & Hbs & Hd & Hnd).
  pose proof (alloc_all_spec bs h) as H1; cbv zeta in H1.
  destruct (alloc_all bs h) as [l1 h1] eqn:E1; cbn in H1.
  destruct H1 as (Hsub1 & Hd1 & Hnd1 & Hf1).
  pose proof (alloc_all_spec bs h1) as H2; cbv zeta in H2.
  destruct (alloc_all bs h1) as [l2 h2] eqn:E2; cbn in H2.
  destruct H2 as (Hsub2 & Hd2 & Hnd2 & Hf2).
  assert (Hdt1 : deref h1 tmpl = Some bs) by (eapply deref_weaken; eassumption).
  assert (H12 : forall l, l ∈ l1 -> l ∉ l2).
  { intros l Hl1 Hl2.
    destruct (deref_is_Some _ _ _ _ Hd1 Hl1) as [b Hb].
    rewrite (Hf2 _ Hl2) in Hb; discriminate. }
  assert (H1t : forall l, l ∈ l1 -> l ∉ tmpl).
  { intros l Hl1 Hlt.
    destruct (deref_is_Some _ _ _ _ Hd Hlt) as [b Hb].
    rewrite (Hf1 _ Hl1) in Hb; discriminate. }
  assert (H2t : forall l, l ∈ l2 -> l ∉ tmpl).
  { intros l Hl2 Hlt.
    destruct (deref_is_Some _ _ _ _ Hdt1 Hlt) as [b Hb].
    rewrite (Hf2 _ Hl2) in Hb; discriminate. }
  exists tmpl, bs, l1, h1, l2, h2.
  split; [exact Ht |]; split; [exact Hbs |].
  split; [rewrite <- E1; apply (getBricksForLevel_alloc n _ h tmpl bs); [lia | exact Ht | exact Hd] |].
  split; [rewrite <- E2; apply (getBricksForLevel_alloc n _ h1 tmpl bs); [lia | exact Ht | exact Hdt1] |].
  assert (Hd12 : deref h2 l1 = Some bs) by (eapply deref_weaken; eassumption).
  assert (Hdt2 : deref h2 tmpl = Some bs) by (eapply deref_weaken; eassumption).
  split; [exact Hd12 |]; split; [exact Hd2 |]; split; [exact Hdt2 |].
  split; [eapply deref_length; eassumption |].
  split; [eapply deref_length; eassumption |].
  split.
  { apply NoDup_app; split; [exact Hnd1 |]; split.
    - intros l Hl1 Hin; apply elem_of_app in Hin; destruct Hin as [Hin | Hin].
      + exact (H12 l Hl1 Hin).
      + exact (H1t l Hl1 Hin).
    - apply NoDup_app; split; [exact Hnd2 |]; split; [exact H2t | exact Hnd]. }
  split.
  { intros l f Hl; split; apply deref_alter; auto. }
  split.
  { intros l f Hl; split; apply deref_alter; auto.
    intros Hl1; exact (H12 l Hl1 Hl). }
  intros l f Hl.
  pose proof (alloc_all_spec bs (alter f l h1)) as H3; cbv zeta in H3.
  destruct (alloc_all bs (alter f l h1)) as [l3 h3] eqn:E3; cbn in H3.
  destruct H3 as (_ & Hd3 & _).
  exists l3, h3; split; [| exact Hd3].
  rewrite <- E3; apply (getBricksForLevel_alloc n _ _ tmpl bs);
    [lia | exact Ht | apply deref_alter; auto].
Qed.
End Copies.

Lemma getBricksForLevel_fresh_copies_witness :
  exists l1 h1 l2 h2,
    LevelManager.getBricksForLevel 1
      (LevelManager.new (H := canvas480) ∅).1
      (LevelManager.new (H := canvas480) ∅).2 = Some (l1, h1) /\
    LevelManager.getBricksForLevel 1
      (LevelManager.new (H := canvas480) ∅).1 h1 = Some (l2, h2) /\
    LevelManager.deref h2 l1 = LevelManager.deref h2 l2 /\
    NoDup (l1 ++ l2).
Proof.
  destruct (getBricksForLevel_fresh_copies (H := canvas480) ∅ 1)
    as (tmpl & bs & l1 & h1 & l2 & h2 & _ & _ & E1 & E2 & D1 & D2 & _ & _ & _ & Hnd & _).
  - rewrite new_maxLevel; lia.
  - exists l1, h1, l2, h2.
    split; [exact E1 |]; split; [exact E2 |]; split; [congruence |].
    rewrite app_assoc in Hnd; apply NoDup_app in Hnd; apply Hnd.
Defined.

(** * Further properties of the code *)

(** ** The utility helpers *)

(** A collision is reported only near the rectangle. *)
Lemma circleRectCollision_near cx cy r rx ry rw rh :
  0 <= r -> 0 <= rw -> 0 <= rh ->
  circleRectCollision cx cy r rx ry rw rh = true ->
  rx - r - 1 / 100 < cx < rx + rw + r + 1 / 100 /\
  ry - r - 1 / 100 < cy < ry + rh + r + 1 / 100.
Proof.
  intros Hr Hw Hh; unfold circleRectCollision.
  intros Hc; destruct (Rltb_spec
    ((cx - clamp cx rx (rx + rw)) * (cx - clamp cx rx (rx + rw)) +
     (cy - clamp cy ry (ry + rh)) * (cy - clamp cy ry (ry + rh)))
    (r * r + 1 / 10000)) as [Hlt | ]; [| discriminate].
  revert Hlt; unfold clamp, Rmax, Rmin.
  repeat destruct (Rle_dec _ _); intros Hlt; repeat split; nra.
Qed.

(** X1. For a circle of radius [r >= 0] and a rectangle of non-negative
    width and height, [circleRectCollision] answers [true] whenever the
    centre lies in the rectangle, and answers [true] only if the centre
    lies within [r + 0.01] of the rectangle on both axes. *)
Theorem circleRectCollision_bounds cx cy r rx ry rw rh :
  0 <= r -> 0 <= rw -> 0 <= rh ->
  (rx <= cx <= rx + rw -> ry <= cy <= ry + rh ->
     circleRectCollision cx cy r rx ry rw rh = true) /\
  (circleRectCollision cx cy r rx ry rw rh = true ->
     rx - r - 1 / 100 < cx < rx + rw + r + 1 / 100 /\
     ry - r - 1 / 100 < cy < ry + rh + r + 1 / 100).
Proof.
  intros Hr Hw Hh; split.
  - intros Hx Hy; unfold circleRectCollision; rewrite !clamp_id by assumption.
    apply Rltb_true; nra.
  - apply circleRectCollision_near; assumption.
Qed.

Lemma circleRectCollision_bounds_witness :
  circleRectCollision 200 610 6 180 604 120 16 = true.
Proof.
  apply (circleRectCollision_bounds 200 610 6 180 604 120 16); lra.
Defined.

Lemma Int_part_range r (n : Z) : 0 <= r < IZR n -> (0 <= Int_part r < n)%Z.
Proof.
  intros [H0 Hn]; destruct (base_Int_part r) as [Hle Hgt].
  split.
  - assert (Hk : -1 < IZR (Int_part r)) by lra.
    apply lt_IZR in Hk; lia.
  - apply lt_IZR; lra.
Qed.

(** X2. [randChoice] on a non-empty array and a draw in [0, 1) returns an
    element of the array. *)
Theorem randChoice_in_range {A} (arr : list A) u :
  arr <> [] -> 0 <= u < 1 ->
  exists x, randChoice arr u = Some x /\ x ∈ arr.
Proof.
  intros Hne [H0 H1]; unfold randChoice.
  assert (Hlen : 0 < INR (length arr)).
  { apply lt_0_INR; destruct arr; [contradiction | cbn; lia]. }
  destruct (Int_part_range (u * INR (length arr)) (Z.of_nat (length arr)))
    as [Hk0 Hkn].
  { rewrite <- INR_IZR_INZ; split; nra. }
  destruct (Z.ltb_spec (Int_part (u * INR (length arr))) 0); [lia |].
  destruct (lookup_lt_is_Some_2 arr (Z.to_nat (Int_part (u * INR (length arr)))))
    as [x Hx]; [lia |].
  exists x; split; [exact Hx |].
  eapply list_elem_of_lookup_2; exact Hx.
Qed.

Lemma randChoice_in_range_witness :
  exists x, randChoice [PMulti; PPaddle; PSpeed] (1 / 2) = Some x /\
            x ∈ [PMulti; PPaddle; PSpeed].
Proof.
  apply (randChoice_in_range [PMulti; PPaddle; PSpeed] (1 / 2)).
  - discriminate.
  - lra.
Defined.

(** X3. Outside [0, 1) the choice can fail: on the empty array it always
    does, and on any array a draw of exactly 1 reads one past the end. *)
Theorem randChoice_outside {A} (arr : list A) :
  (forall u, randChoice (@nil A) u = None) /\
  randChoice arr 1 = None.
Proof.
  split.
  - intros u; unfold randChoice; destruct (_ <? _)%Z; reflexivity.
  - unfold randChoice; rewrite Rmult_1_l, Int_part_INR.
    destruct (Z.ltb_spec (Z.of_nat (length arr)) 0); [reflexivity |].
    apply lookup_ge_None; lia.
Qed.



(** ** Paddle movement *)

(** X5. Without a pointer drag the paddle moves by [speed * dt] to the
    right for the right key and to the left for the left key, not at all
    when both or none are held, and is then clamped to
    [12, WIDTH - 12 - width]; height, y and speed are kept. *)
Theorem Paddle_update_keyboard `{Canvas} dt i p :
  Input.pointerDown i = false ->
  Paddle.x (Paddle.update dt i p)
    = clamp (Paddle.x p + IZR (key_dir i) * Paddle.speed p * dt)
            12 (IZR WIDTH - 12 - Paddle.width p) /\
  (Paddle.height (Paddle.update dt i p), Paddle.y (Paddle.update dt i p),
   Paddle.speed (Paddle.update dt i p))
    = (Paddle.height p, Paddle.y p, Paddle.speed p).
Proof.
  intros Hp.
  assert (Hx : Paddle.moved_x dt i p
               = clamp (Paddle.x p + IZR (key_dir i) * Paddle.speed p * dt)
                       12 (IZR WIDTH - 12 - Paddle.width p)).
  { unfold Paddle.moved_x, key_dir; rewrite Hp.
    destruct (Input.left i), (Input.right i);
      repeat match goal with
      | |- context [(?a + ?b)%Z] =>
          let v := eval vm_compute in (a + b)%Z in change (a + b)%Z with v
      | |- context [(?a - ?b)%Z] =>
          let v := eval vm_compute in (a - b)%Z in change (a - b)%Z with v
      | |- context [(?a =? ?b)%Z] =>
          let v := eval vm_compute in (a =? b)%Z in change (a =? b)%Z with v
      end; cbn [negb]; f_equal; lra. }
  unfold Paddle.update; rewrite Hx.
  destruct (Rltb _ _); [destruct (Rleb _ _) |]; split; reflexivity.
Qed.

Lemma Paddle_update_keyboard_witness :
  Paddle.x (Paddle.update (H := canvas480) (16 / 1000) Sample.hold_right
              Sample.right_paddle)
  = clamp (348 + IZR (key_dir Sample.hold_right) * 960 * (16 / 1000))
          12 (IZR (WIDTH (Canvas := canvas480)) - 12 - 120).
Proof.
  apply (Paddle_update_keyboard (H := canvas480) (16 / 1000) Sample.hold_right
           Sample.right_paddle).
  reflexivity.
Defined.

(** X6. During a pointer drag the keys are ignored and the paddle closes
    the fraction [min 1 (12 * dt)] of its distance to the target, which is
    the pointer position minus half the width, clamped to the field: it
    never overshoots, and reaches the target in one frame only when
    [dt >= 1/12]. *)
Theorem Paddle_update_drag `{Canvas} dt i p :
  Input.pointerDown i = true ->
  0 <= dt ->
  let target := clamp (Input.pointerX i - Paddle.width p / 2) 12
                      (IZR WIDTH - 12 - Paddle.width p) in
  let x' := Paddle.x (Paddle.update dt i p) in
  target - x' = (1 - Rmin 1 (12 * dt)) * (target - Paddle.x p) /\
  (1 / 12 <= dt -> x' = target) /\
  Rabs (target - x') <= Rabs (target - Paddle.x p).
Proof.
  intros Hp Hdt; cbv zeta.
  assert (Hx : Paddle.x (Paddle.update dt i p) = Paddle.moved_x dt i p).
  { unfold Paddle.update.
    destruct (Rltb _ _); [destruct (Rleb _ _) |]; reflexivity. }
  rewrite Hx; unfold Paddle.moved_x; rewrite Hp.
  set (t := clamp (Input.pointerX i - _) _ _).
  assert (Hc : clamp (dt * 12) 0 1 = Rmin 1 (12 * dt)).
  { unfold clamp; rewrite Rmax_right; [f_equal; lra |].
    apply Rmin_glb; lra. }
  rewrite Hc.
  assert (Hm : 0 <= Rmin 1 (12 * dt) <= 1)
    by (split; [apply Rmin_glb; lra | apply Rmin_l]).
  split; [ring |]; split.
  - intros Hbig; rewrite Rmin_left by lra; ring.
  - replace (t - (Paddle.x p + (t - Paddle.x p) * Rmin 1 (12 * dt)))
      with ((1 - Rmin 1 (12 * dt)) * (t - Paddle.x p)) by ring.
    rewrite Rabs_mult, (Rabs_right (1 - _)) by lra.
    pose proof (Rabs_pos (t - Paddle.x p)); nra.
Qed.

Lemma Paddle_update_drag_witness :
  Paddle.x (Paddle.update (H := canvas480) (1 / 10) Sample.drag_right
              Sample.right_paddle)
  = clamp (470 - 120 / 2) 12 (IZR (WIDTH (Canvas := canvas480)) - 12 - 120).
Proof.
  apply (Paddle_update_drag (H := canvas480) (1 / 10) Sample.drag_right
           Sample.right_paddle); [reflexivity | lra | lra].
Defined.

(** ** The paddle power-up over time *)









(** ** Ball physics *)

(** X8. A free ball ends [Ball.update] inside the left, right and top
    walls when the field is at least as wide as the ball
    ([16 + 2 * radius <= WIDTH]); there is no bottom wall, so [y] has no
    upper bound.  A ball that reached the left or the top wall moves away
    from it afterwards, one that reached the right wall moves left, and the
    magnitude of the velocity is kept. *)
Theorem Ball_update_walls `{Canvas} dt b :
  Ball.stuck b = false ->
  0 <= Ball.radius b ->
  16 + 2 * Ball.radius b <= IZR WIDTH ->
  let b' := Ball.update dt b in
  let x1 := Ball.x b + Ball.vx b * dt in
  let y1 := Ball.y b + Ball.vy b * dt in
  8 + Ball.radius b <= Ball.x b' <= IZR WIDTH - 8 - Ball.radius b /\
  8 + Ball.radius b <= Ball.y b' /\
  (8 < y1 - Ball.radius b -> Ball.y b' = y1 /\ Ball.vy b' = Ball.vy b) /\
  (y1 - Ball.radius b <= 8 -> 0 <= Ball.vy b') /\
  (x1 - Ball.radius b <= 8 -> 16 + 2 * Ball.radius b < IZR WIDTH ->
     0 <= Ball.vx b') /\
  (IZR WIDTH - 8 <= x1 + Ball.radius b -> Ball.vx b' <= 0) /\
  hypot (Ball.vx b') (Ball.vy b') = hypot (Ball.vx b) (Ball.vy b).
Proof.
  intros Hs Hr Hw; cbv zeta; unfold Ball.update; rewrite Hs.
  pose proof (Rabs_pos (Ball.vx b)) as Hax.
  pose proof (Rabs_pos (Ball.vy b)) as Hay.
  pose proof (Rabs_pos (Rabs (Ball.vx b))) as Haax.
  destruct (hypot_abs (Ball.vx b) (Ball.vy b)) as [Ex Ey].
  destruct (hypot_abs (Ball.vx b) (Rabs (Ball.vy b))) as [Exy _].
  destruct (hypot_flip (Ball.vx b) (Ball.vy b)) as [Fx _].
  destruct (hypot_flip (Rabs (Ball.vx b)) (Ball.vy b)) as [Fax _].
  destruct (hypot_flip (Rabs (Ball.vx b)) (Rabs (Ball.vy b))) as [Faxy _].
  destruct (hypot_flip (Ball.vx b) (Rabs (Ball.vy b))) as [Fxy _].
  assert (Eaa : Rabs (Rabs (Ball.vx b)) = Rabs (Ball.vx b)) by apply Rabs_Rabsolu.
  destruct (Rleb_spec (Ball.x b + Ball.vx b * dt - Ball.radius b) 8) as [Hl | Hl];
    cbv beta iota zeta;
    match goal with |- context [Rleb ?a ?c] =>
      destruct (Rleb_spec a c) as [Hr' | Hr'] end;
    cbv beta iota zeta;
    destruct (Rleb_spec (Ball.y b + Ball.vy b * dt - Ball.radius b) 8) as [Ht | Ht];
    cbn [Ball.x Ball.y Ball.vx Ball.vy]; rewrite ?Eaa;
    (repeat split; try lra; try congruence).
Qed.

Lemma Ball_update_walls_witness :
  8 + 6 <= Ball.x (Ball.update (H := canvas480) (16 / 1000)
                     (Ball.mk 15 300 (-360) 0 6 360 false))
        <= 480 - 8 - 6.
Proof.
  apply (Ball_update_walls (H := canvas480) (16 / 1000)
           (Ball.mk 15 300 (-360) 0 6 360 false)); cbn; [reflexivity | lra | lra].
Defined.

(** ** The paddle bounce *)

Lemma sin_negative a : - PI < a < 0 -> sin a < 0.
Proof.
  intros [Hl Hu].
  assert (Hs : 0 < sin (- a)) by (apply sin_gt_0; lra).
  rewrite sin_neg in Hs; lra.
Qed.

(** X9. A free ball that touches the paddle (radius at least 0, paddle
    wider than four times the radius plus 0.04) leaves the bounce moving
    upwards, with the speed as magnitude of its velocity, sitting one pixel
    above the paddle so that it no longer touches it; a hit on the exact
    centre goes straight up. *)
Theorem paddle_bounce_goes_up r boost b :
  0 <= Ball.radius b ->
  0 <= rh r ->
  4 * (Ball.radius b + 1 / 100) < rw r ->
  Game.hits_rect b r = true ->
  let b' := Game.paddle_bounce r boost b in
  Ball.vy b' < 0 /\
  hypot (Ball.vx b') (Ball.vy b') = Ball.speed b' /\
  Ball.y b' = ry r - Ball.radius b - 1 /\
  Game.hits_rect b' r = false /\
  (Ball.x b = rx r + rw r / 2 ->
     Ball.vx b' = 0 /\ Ball.vy b' = - Ball.speed b').
Proof.
  intros Hr Hh Hw Hhit; cbv zeta.
  pose proof (paddle_bounce_speed r boost b) as Hsp.
  destruct (circleRectCollision_near (Ball.x b) (Ball.y b) (Ball.radius b)
              (rx r) (ry r) (rw r) (rh r) Hr ltac:(lra) Hh Hhit)
    as [[Hx1 Hx2] _].
  set (rel := (Ball.x b - (rx r + rw r / 2)) / (rw r / 2)).
  assert (Hrel : - (3 / 2) < rel < 3 / 2).
  { assert (E : rel * (rw r / 2) = Ball.x b - (rx r + rw r / 2))
      by (unfold rel; field; lra).
    split; nra. }
  pose proof PI_RGT_0 as Hpi.
  assert (Hang : - PI < rel * (PI / 3) - PI / 2 < 0) by (split; nra).
  split.
  { cbn; fold rel.
    pose proof (sin_negative _ Hang).
    set (s := clamp _ 200 820) in *; cbn in Hsp; fold s in Hsp; nra. }
  split; [apply paddle_bounce_consistent |].
  split; [reflexivity |].
  split.
  { unfold Game.hits_rect, circleRectCollision; cbn.
    apply Rltb_false.
    rewrite (clamp_low (ry r - Ball.radius b - 1)) by lra.
    set (dx := Ball.x b - clamp _ _ _); nra. }
  intros Hc; cbn.
  replace ((Ball.x b - (rx r + rw r / 2)) / (rw r / 2) * (PI / 3) - PI / 2)
    with (- (PI / 2)).
  - rewrite cos_neg, sin_neg, cos_PI2, sin_PI2; split; ring.
  - rewrite Hc; unfold Rdiv; ring.
Qed.

Lemma paddle_bounce_goes_up_witness :
  Ball.vy (Game.paddle_bounce (mkRect 180 604 120 16) 0
             (Ball.mk 200 600 0 360 6 360 false)) < 0.
Proof.
  apply (paddle_bounce_goes_up (mkRect 180 604 120 16) 0
           (Ball.mk 200 600 0 360 6 360 false)); cbn; try lra.
  unfold Game.hits_rect; reval; reflexivity.
Defined.

(** ** The speed power-up *)

(** X10. The speed power-up keeps the heading of a moving ball: the new
    velocity is the old one scaled by new speed over old magnitude, and its
    magnitude is the new speed [clamp (1.18 * speed) 300 1000].  A ball at
    rest, such as one stuck to the paddle, is given the velocity
    [(new speed, 0)]. *)
Theorem speed_boost_keeps_heading b :
  let b' := Game.speed_boost b in
  let m := hypot (Ball.vx b) (Ball.vy b) in
  Ball.speed b' = clamp (Ball.speed b * (118 / 100)) 300 1000 /\
  hypot (Ball.vx b') (Ball.vy b') = Ball.speed b' /\
  (Ball.vx b <> 0 \/ Ball.vy b <> 0 ->
     Ball.vx b' = Ball.speed b' / m * Ball.vx b /\
     Ball.vy b' = Ball.speed b' / m * Ball.vy b) /\
  (Ball.vx b = 0 -> Ball.vy b = 0 ->
     Ball.vx b' = Ball.speed b' /\ Ball.vy b' = 0).
Proof.
  cbv zeta; split; [reflexivity |].
  split; [apply speed_boost_consistent |].
  split.
  - intros Hv; destruct (atan2_heading _ _ Hv) as [Ex Ey].
    pose proof (hypot_pos _ _ Hv) as Hm.
    cbn; set (s := clamp _ 300 1000); set (a := atan2 _ _) in *.
    set (m := hypot _ _) in *.
    split.
    + transitivity (s / m * (m * cos a)); [field; lra | rewrite <- Ex; reflexivity].
    + transitivity (s / m * (m * sin a)); [field; lra | rewrite <- Ey; reflexivity].
  - intros Ex Ey; cbn; rewrite Ex, Ey.
    unfold atan2; rewrite !Rltb_false by lra.
    rewrite cos_0, sin_0; split; ring.
Qed.

Lemma speed_boost_keeps_heading_witness :
  Ball.vx (Game.speed_boost Sample.rising_ball)
  = Ball.speed (Game.speed_boost Sample.rising_ball)
    / hypot (Ball.vx Sample.rising_ball) (Ball.vy Sample.rising_ball)
    * Ball.vx Sample.rising_ball.
Proof.
  apply (speed_boost_keeps_heading Sample.rising_ball).
  right; cbn; lra.
Defined.

(** ** Launching *)

Lemma stuck_count_cons b bs :
  stuck_count (b :: bs) = ((if Ball.stuck b then 1 else 0) + stuck_count bs)%nat.
Proof.
  unfold stuck_count; cbn [List.filter].
  destruct (Ball.stuck b); reflexivity.
Qed.

Lemma Ball_update_stuck `{Canvas} dt b :
  Ball.stuck b = false -> Ball.stuck (Ball.update dt b) = false.
Proof. intros Hs; destruct (Ball_update_kept dt b) as (_ & _ & ->); exact Hs. Qed.

(** What the first loop returns, for the number [k] of balls it launches:
    one if a launch is requested and a ball is stuck, none otherwise. *)
Lemma step_balls_launch `{Canvas} random dt p boost bs launch n :
  let k := if launch && (0 <? stuck_count bs)%nat then 1%nat else 0%nat in
  let r := Game.step_balls random dt p boost bs launch n in
  length r.1.1 = length bs /\
  (stuck_count r.1.1 + k)%nat = stuck_count bs /\
  r.1.2 = (launch && negb (0 <? stuck_count bs)%nat) /\
  r.2 = (n + k)%nat /\
  Forall (fun b => Ball.stuck b = true ->
            Ball.x b = Paddle.x p + Paddle.width p / 2 /\
            Ball.y b = Paddle.y p - Ball.radius b - 2) r.1.1.
Proof.
  cbv zeta; revert launch n; induction bs as [| b rest IH]; intros launch n.
  - cbn; destruct launch; cbn; repeat split; try lia; constructor.
  - cbn [Game.step_balls]; rewrite stuck_count_cons.
    destruct (Ball.stuck b) eqn:Es.
    + destruct launch.
      * specialize (IH false (S n)).
        destruct (Game.step_balls random dt p boost rest false (S n))
          as [[rest' l'] n']; cbn [fst snd andb] in *.
        destruct IH as (Hl & Hc & Hf & Hn & Ha).
        rewrite stuck_count_cons; cbn [Game.launched Ball.stuck length].
        replace (0 <? 1 + stuck_count rest)%nat with true
          by (symmetry; apply Nat.ltb_lt; lia).
        cbn [negb andb]; repeat split; try lia; try exact Hf.
        constructor; [cbn; discriminate | exact Ha].
      * specialize (IH false n).
        destruct (Game.step_balls random dt p boost rest false n)
          as [[rest' l'] n']; cbn [fst snd andb] in *.
        destruct IH as (Hl & Hc & Hf & Hn & Ha).
        rewrite stuck_count_cons; cbn [Ball.stuck length].
        repeat split; try lia; try exact Hf.
        constructor; [cbn; intros _; split; reflexivity | exact Ha].
    + specialize (IH launch n).
      destruct (Game.step_balls random dt p boost rest launch n)
        as [[rest' l'] n']; cbn [fst snd] in *.
      destruct IH as (Hl & Hc & Hf & Hn & Ha).
      rewrite stuck_count_cons, (Ball_update_stuck dt b Es); cbn [length].
      repeat split; try lia; try assumption.
      constructor; [rewrite (Ball_update_stuck dt b Es); discriminate | exact Ha].
Qed.

(** X11. The first loop of [update] keeps the number of balls.  A launch
    request releases exactly one stuck ball, the first, per frame: it is
    then cleared and one random number is drawn.  With no stuck ball the
    request stays set and nothing is drawn; with no request no ball is
    released.  Every ball still stuck sits on the top centre of the paddle,
    and the keys and the pointer state are not touched. *)
Theorem launch_releases_one_ball `{Canvas} random dt g :
  let g' := Game.update_balls random dt g in
  let launch := Input.launch (Game.input g) in
  let stuck := stuck_count (Game.balls g) in
  length (Game.balls g') = length (Game.balls g) /\
  (launch = true -> (0 < stuck)%nat ->
     stuck_count (Game.balls g') = (stuck - 1)%nat /\
     Input.launch (Game.input g') = false /\
     Game.draws g' = S (Game.draws g)) /\
  (launch = false \/ stuck = 0%nat ->
     stuck_count (Game.balls g') = stuck /\
     Input.launch (Game.input g') = launch /\
     Game.draws g' = Game.draws g) /\
  Forall (fun b => Ball.stuck b = true ->
            Ball.x b = Paddle.x (Game.paddle g) + Paddle.width (Game.paddle g) / 2 /\
            Ball.y b = Paddle.y (Game.paddle g) - Ball.radius b - 2)
         (Game.balls g') /\
  Input.set_launch launch (Game.input g') = Game.input g.
Proof.
  cbv zeta; unfold Game.update_balls.
  pose proof (step_balls_launch random dt (Game.paddle g) (Game.speedBoostTimer g)
                (Game.balls g) (Input.launch (Game.input g)) (Game.draws g)) as Hs.
  cbv zeta in Hs.
  destruct (Game.step_balls _ _ _ _ _ _ _) as [[bs l] n]; cbn [fst snd] in Hs.
  destruct Hs as (Hl & Hc & Hf & Hn & Ha); cbn.
  split; [exact Hl |].
  split; [| split; [| split; [exact Ha |]]].
  - intros El Hpos; rewrite El in *.
    replace (0 <? stuck_count (Game.balls g))%nat with true in *
      by (symmetry; apply Nat.ltb_lt; exact Hpos).
    cbn in *; unfold stuck_count in *; repeat split; lia || assumption.
  - intros [El | E0].
    + rewrite El in *; cbn in *; unfold stuck_count in *;
        repeat split; lia || assumption.
    + rewrite E0 in *; cbn in *.
      rewrite andb_false_r, andb_true_r in *; unfold stuck_count in *;
        repeat split; lia || assumption.
  - destruct (Game.input g); reflexivity.
Qed.

Lemma launch_releases_one_ball_witness :
  stuck_count (Game.balls (Game.update_balls (H := canvas480) tape_half
                             (16 / 1000) (Sample.launch_game 360 0))) = 0%nat.
Proof.
  apply (launch_releases_one_ball (H := canvas480) tape_half (16 / 1000)
           (Sample.launch_game 360 0)).
  - reflexivity.
  - unfold stuck_count, Sample.launch_game; cbn; lia.
Defined.

(** ** Bricks and score over a frame *)

Lemma total_hp_app ks1 ks2 : total_hp (ks1 ++ ks2) = (total_hp ks1 + total_hp ks2)%Z.
Proof.
  induction ks1 as [| k ks1 IH]; [reflexivity |].
  unfold total_hp in *; cbn [app foldr]; rewrite IH; lia.
Qed.

Lemma total_hp_cons k ks : total_hp (k :: ks) = (Brick.hp k + total_hp ks)%Z.
Proof. reflexivity. Qed.

Lemma brick_hit_sound k :
  Brick.alive k = true -> brick_sound k -> brick_sound (Brick.hit k).
Proof.
  unfold brick_sound, Brick.hit; intros Ha [H0 Hiff]; cbn.
  apply Hiff in Ha; rewrite (proj2 Hiff Ha).
  destruct (Z.leb_spec (Brick.hp k - 1) 0); split; try lia; split; intros;
    (lia || congruence).
Qed.

Lemma spawn_powerup_kept random k g :
  Game.bricks (Game.spawn_powerup random k g) = Game.bricks g /\
  Game.score (Game.spawn_powerup random k g) = Game.score g.
Proof.
  unfold Game.spawn_powerup.
  destruct (negb _); [destruct (Rltb _ _) |]; split; reflexivity.
Qed.

(** One ball against the bricks: shapes, the balance of score and
    hit-points, and soundness. *)
Lemma brick_step_ledger random b g :
  let g' := (Game.brick_step random b g).2 in
  map brick_shape (Game.bricks g') = map brick_shape (Game.bricks g) /\
  (Game.score g' + 100 * total_hp (Game.bricks g')
   = Game.score g + 100 * total_hp (Game.bricks g))%Z /\
  (Game.score g <= Game.score g' <= Game.score g + 100)%Z /\
  (Game.score g' mod 100 = Game.score g mod 100)%Z /\
  (Forall brick_sound (Game.bricks g) -> Forall brick_sound (Game.bricks g')).
Proof.
  cbv zeta; unfold Game.brick_step.
  destruct (Ball.stuck b); [cbn; repeat split; auto; lia |].
  destruct (Game.first_brick_hit b (Game.bricks g)) as [[[pre k] post] |] eqn:Ef;
    [| cbn; repeat split; auto; lia].
  destruct (first_brick_hit_split _ _ _ _ _ Ef) as (Eks & _ & Ha & _).
  cbn [snd].
  destruct (spawn_powerup_kept random (Brick.hit k)
              (Game.play SfxBreak
                 (Game.set_score
                    (Game.score (Game.set_bricks (pre ++ Brick.hit k :: post) g) + 100)
                    (Game.set_bricks (pre ++ Brick.hit k :: post) g))))
    as [-> ->].
  cbn [Game.bricks Game.score Game.play Game.set_score Game.set_bricks].
  rewrite Eks, !total_hp_app, !total_hp_cons, !map_app; cbn [map].
  split; [reflexivity |].
  split; [cbn; lia |].
  split; [lia |].
  split.
  { replace (Game.score g + 100)%Z with (Game.score g + 1 * 100)%Z by lia.
    apply Z_mod_plus_full. }
  intros Hs; apply Forall_app in Hs; destruct Hs as [Hpre Hs].
  apply Forall_cons in Hs; destruct Hs as [Hk Hpost].
  apply Forall_app; split; [exact Hpre |].
  constructor; [apply brick_hit_sound; assumption | exact Hpost].
Qed.

Lemma brick_loop_ledger random bs g :
  let g' := (Game.brick_loop random bs g).2 in
  map brick_shape (Game.bricks g') = map brick_shape (Game.bricks g) /\
  (Game.score g' + 100 * total_hp (Game.bricks g')
   = Game.score g + 100 * total_hp (Game.bricks g))%Z /\
  (Game.score g <= Game.score g' <= Game.score g + 100 * Z.of_nat (length bs))%Z /\
  (Game.score g' mod 100 = Game.score g mod 100)%Z /\
  (Forall brick_sound (Game.bricks g) -> Forall brick_sound (Game.bricks g')).
Proof.
  cbv zeta; revert g; induction bs as [| b rest IH]; intros g.
  - cbn; repeat split; auto; lia.
  - cbn [Game.brick_loop].
    pose proof (brick_step_ledger random b g) as Hb; cbv zeta in Hb.
    destruct (Game.brick_step random b g) as [b' g1]; cbn [snd] in Hb.
    specialize (IH g1).
    destruct (Game.brick_loop random rest g1) as [rest' g2]; cbn [snd] in *.
    destruct Hb as (Hb1 & Hb2 & Hb3 & Hb4 & Hb5).
    destruct IH as (H1 & H2 & H3 & H4 & H5).
    split; [congruence |].
    split; [lia |].
    split; [cbn [length]; lia |].
    split; [congruence | auto].
Qed.

(** The fields each of the other loops leaves alone. *)
Lemma update_balls_kept `{Canvas} random dt g :
  Game.bricks (Game.update_balls random dt g) = Game.bricks g /\
  Game.score (Game.update_balls random dt g) = Game.score g /\
  Game.powerups (Game.update_balls random dt g) = Game.powerups g /\
  Game.paddle (Game.update_balls random dt g) = Game.paddle g.
Proof.
  unfold Game.update_balls.
  destruct (Game.step_balls _ _ _ _ _ _ _) as [[bs l] n]; repeat split.
Qed.

Lemma paddle_collisions_kept g :
  Game.bricks (Game.paddle_collisions g) = Game.bricks g /\
  Game.score (Game.paddle_collisions g) = Game.score g /\
  Game.powerups (Game.paddle_collisions g) = Game.powerups g /\
  Game.paddle (Game.paddle_collisions g) = Game.paddle g /\
  length (Game.balls (Game.paddle_collisions g)) = length (Game.balls g).
Proof.
  unfold Game.paddle_collisions.
  pose proof (paddle_loop_cases (Paddle.getRect (Game.paddle g))
                (Game.speedBoostTimer g) (Game.balls g)) as HF.
  destruct (Game.paddle_loop _ _ _) as [bs s]; cbn in *.
  repeat split; symmetry; eapply Forall2_length; exact HF.
Qed.

Lemma applyPowerUp_kept ty g :
  Game.bricks (Game.applyPowerUp ty g) = Game.bricks g /\
  Game.score (Game.applyPowerUp ty g) = Game.score g /\
  Game.powerups (Game.applyPowerUp ty g) = Game.powerups g.
Proof. destruct ty as [[| |] |]; repeat split. Qed.

Lemma collect_loop_kept ps g :
  Game.bricks (Game.collect_loop ps g).2 = Game.bricks g /\
  Game.score (Game.collect_loop ps g).2 = Game.score g /\
  Game.powerups (Game.collect_loop ps g).2 = Game.powerups g.
Proof.
  revert g; induction ps as [| p rest IH]; intros g; cbn; [repeat split |].
  destruct (Game.caught p _).
  - destruct (IH (Game.play SfxPower (Game.applyPowerUp (PowerUp.type p) g)))
      as (-> & -> & ->).
    destruct (applyPowerUp_kept (PowerUp.type p) g) as (Eb & Es & Ep).
    cbn; repeat split; assumption.
  - destruct (negb _); [apply IH |].
    specialize (IH g); destruct (Game.collect_loop rest g); exact IH.
Qed.

Lemma update_powerups_kept `{Canvas} dt g :
  Game.bricks (Game.update_powerups dt g) = Game.bricks g /\
  Game.score (Game.update_powerups dt g) = Game.score g.
Proof.
  unfold Game.update_powerups.
  pose proof (collect_loop_kept
                (rev (map (PowerUp.update dt) (Game.powerups g)))
                (Game.set_powerups (map (PowerUp.update dt) (Game.powerups g)) g))
    as Hl.
  destruct (Game.collect_loop _ _) as [kept g1]; cbn in *.
  destruct Hl as (-> & -> & _); split; reflexivity.
Qed.

Lemma lose_life_kept g :
  Game.bricks (Game.lose_life g) = Game.bricks g /\
  Game.score (Game.lose_life g) = Game.score g /\
  Game.powerups (Game.lose_life g) = Game.powerups g /\
  Game.paddle (Game.lose_life g) = Game.paddle g /\
  Game.currentLevel (Game.lose_life g) = Game.currentLevel g.
Proof.
  unfold Game.lose_life.
  destruct (_ =? _)%nat; [| repeat split].
  cbn; destruct (_ <=? _)%Z; repeat split.
Qed.

(** The ledger of a whole frame. *)
Lemma update_ledger `{Canvas} random dt g :
  let g' := Game.update random dt g in
  map brick_shape (Game.bricks g') = map brick_shape (Game.bricks g) /\
  (Game.score g' - Game.score g
   = 100 * (total_hp (Game.bricks g) - total_hp (Game.bricks g')))%Z /\
  (Game.score g <= Game.score g'
   <= Game.score g + 100 * Z.of_nat (length (Game.balls g)))%Z /\
  (Game.score g' mod 100 = Game.score g mod 100)%Z /\
  (Forall brick_sound (Game.bricks g) -> Forall brick_sound (Game.bricks g')).
Proof.
  cbv zeta; unfold Game.update, Game.simulate.
  set (g1 := Game.set_paddle _ g).
  set (g2 := Game.update_balls random dt g1).
  set (g3 := Game.paddle_collisions g2).
  set (g4 := Game.brick_collisions random g3).
  set (g5 := Game.update_powerups dt g4).
  set (g6 := Game.sweep_balls g5).
  destruct (update_timers_kept dt (Game.check_level (Game.lose_life g6)))
    as (_ & _ & -> & -> & _).
  destruct (check_level_kept (Game.lose_life g6)) as (_ & _ & -> & -> & _).
  destruct (lose_life_kept g6) as (-> & -> & _).
  change (Game.bricks g6) with (Game.bricks g5).
  change (Game.score g6) with (Game.score g5).
  destruct (update_powerups_kept dt g4) as (E5b & E5s); fold g5 in E5b, E5s.
  rewrite E5b, E5s.
  destruct (update_balls_kept random dt g1) as (E2b & E2s & _); fold g2 in E2b, E2s.
  destruct (paddle_collisions_kept g2) as (E3b & E3s & _ & _ & E3l);
    fold g3 in E3b, E3s, E3l.
  assert (El : length (Game.balls g3) = length (Game.balls g)).
  { rewrite E3l; unfold g2; rewrite update_balls_balls.
    pose proof (step_balls_cases random dt (Game.paddle g1)
                  (Game.speedBoostTimer g1) (Game.balls g1)
                  (Input.launch (Game.input g1)) (Game.draws g1)) as HF.
    symmetry; apply (Forall2_length _ _ _ HF). }
  pose proof (brick_loop_ledger random (Game.balls g3) g3) as Hl; cbv zeta in Hl.
  assert (E4 : Game.bricks g4 = Game.bricks (Game.brick_loop random (Game.balls g3) g3).2
               /\ Game.score g4 = Game.score (Game.brick_loop random (Game.balls g3) g3).2).
  { unfold g4, Game.brick_collisions.
    destruct (Game.brick_loop random (Game.balls g3) g3); split; reflexivity. }
  destruct E4 as [-> ->].
  rewrite El, E3b, E3s, E2b, E2s in Hl.
  change (Game.bricks g1) with (Game.bricks g) in Hl.
  change (Game.score g1) with (Game.score g) in Hl.
  destruct Hl as (H1 & H2 & H3 & H4 & H5).
  repeat split; try assumption; lia.
Qed.

(** X12. Over a whole frame the bricks keep their number, order, places,
    sizes and colours; the score grows by exactly 100 for every hit-point
    the bricks lose, by at most 100 per ball, and stays a multiple of 100 if
    it was one; and if every brick was alive exactly while it had
    hit-points left, with none below zero, the same holds afterwards. *)
Theorem update_bricks_and_score `{Canvas} random dt g :
  let g' := Game.update random dt g in
  map brick_shape (Game.bricks g') = map brick_shape (Game.bricks g) /\
  (Game.score g' - Game.score g
   = 100 * (total_hp (Game.bricks g) - total_hp (Game.bricks g')))%Z /\
  (Game.score g <= Game.score g'
   <= Game.score g + 100 * Z.of_nat (length (Game.balls g)))%Z /\
  (Game.score g' mod 100 = Game.score g mod 100)%Z /\
  (Forall brick_sound (Game.bricks g) -> Forall brick_sound (Game.bricks g')).
Proof. exact (update_ledger random dt g). Qed.

Lemma update_bricks_and_score_witness :
  Forall brick_sound
    (Game.bricks (Game.update (H := canvas480) tape_half (16 / 1000)
                    Sample.level2_game)).
Proof.
  apply (update_bricks_and_score (H := canvas480) tape_half (16 / 1000)
           Sample.level2_game).
  apply Forall_forall; intros k Hk.
  apply list_elem_of_In in Hk; vm_compute in Hk.
  unfold brick_sound.
  repeat (destruct Hk as [<- | Hk]; [cbn; split; [lia | split; [lia | reflexivity]] |]).
  destruct Hk.
Defined.

(** ** Power-ups over a frame *)

Lemma sublist_rev {A} (l k : list A) : l `sublist_of` k -> rev l `sublist_of` rev k.
Proof.
  induction 1 as [| x l k _ IH | x l k _ IH]; cbn [rev].
  - constructor.
  - apply sublist_app; [exact IH | reflexivity].
  - apply sublist_inserts_r; exact IH.
Qed.

Lemma collect_loop_sublist ps g :
  (Game.collect_loop ps g).1 `sublist_of` ps /\
  Forall (fun p => PowerUp.alive p = true) (Game.collect_loop ps g).1.
Proof.
  revert g; induction ps as [| p rest IH]; intros g; cbn.
  - split; constructor.
  - destruct (Game.caught p _).
    + destruct (IH (Game.play SfxPower (Game.applyPowerUp (PowerUp.type p) g)))
        as [Hs Ha].
      split; [apply sublist_cons; exact Hs | exact Ha].
    + destruct (PowerUp.alive p) eqn:Ea; cbn [negb].
      * specialize (IH g); destruct (Game.collect_loop rest g) as [kept g1].
        destruct IH as [Hs Ha]; cbn in *.
        split; [apply sublist_skip; exact Hs | constructor; assumption].
      * destruct (IH g) as [Hs Ha].
        split; [apply sublist_cons; exact Hs | exact Ha].
Qed.

(** X13. The power-ups left by the power-up loop are a selection, in
    order, of the power-ups it started with, each moved down by its falling
    speed times [dt]; every one of them is alive and not more than 40
    pixels below the field.  So no dead power-up is ever left in the list
    at the end of [update]. *)
Theorem update_powerups_keeps_alive `{Canvas} random dt :
  (forall g,
     Game.powerups (Game.update_powerups dt g)
       `sublist_of` map (PowerUp.update dt) (Game.powerups g) /\
     Forall (fun p => PowerUp.alive p = true /\ PowerUp.y p <= IZR HEIGHT + 40)
            (Game.powerups (Game.update_powerups dt g))) /\
  (forall g,
     Forall (fun p => PowerUp.alive p = true /\ PowerUp.y p <= IZR HEIGHT + 40)
            (Game.powerups (Game.update random dt g))).
Proof.
  assert (Hloop : forall g,
     Game.powerups (Game.update_powerups dt g)
       `sublist_of` map (PowerUp.update dt) (Game.powerups g) /\
     Forall (fun p => PowerUp.alive p = true /\ PowerUp.y p <= IZR HEIGHT + 40)
            (Game.powerups (Game.update_powerups dt g))).
  { intros g; unfold Game.update_powerups.
    set (moved := map (PowerUp.update dt) (Game.powerups g)).
    pose proof (collect_loop_sublist (rev moved) (Game.set_powerups moved g))
      as [Hs Ha].
    destruct (Game.collect_loop (rev moved) (Game.set_powerups moved g))
      as [kept g1]; cbn [fst] in Hs, Ha; cbn [Game.powerups Game.set_powerups].
    assert (Hsub : rev kept `sublist_of` moved).
    { rewrite <- (rev_involutive moved); apply sublist_rev; exact Hs. }
    split; [exact Hsub |].
    apply Forall_forall; intros p Hp.
    assert (Hal : PowerUp.alive p = true).
    { rewrite Forall_forall in Ha; apply Ha.
      apply list_elem_of_In, in_rev, list_elem_of_In in Hp; exact Hp. }
    split; [exact Hal |].
    assert (Hin : p ∈ moved) by (eapply elem_of_sublist; eassumption).
    apply list_elem_of_In, in_map_iff in Hin; destruct Hin as (p0 & <- & _).
    unfold PowerUp.update in *; cbn in *.
    destruct (Rltb_spec (IZR HEIGHT + 40) (PowerUp.y p0 + PowerUp.vy p0 * dt));
      [discriminate | lra]. }
  split; [exact Hloop |].
  intros g; unfold Game.update, Game.simulate.
  set (g4 := Game.brick_collisions random _).
  destruct (update_timers_kept dt
              (Game.check_level (Game.lose_life
                 (Game.sweep_balls (Game.update_powerups dt g4)))))
    as (_ & _ & _ & _ & -> & _).
  destruct (check_level_kept
              (Game.lose_life (Game.sweep_balls (Game.update_powerups dt g4))))
    as (_ & _ & _ & _ & -> & _).
  destruct (lose_life_kept (Game.sweep_balls (Game.update_powerups dt g4)))
    as (_ & _ & -> & _).
  apply (Hloop g4).
Qed.

(** ** The generated levels *)

Section LevelFacts.
Context `{Canvas}.

(** Every brick of every level sits on the grid. *)
Lemma level_brick_form ks k :
  ks ∈ Levels.generateLevels -> k ∈ ks ->
  exists r c hp color,
    (r < 8)%nat /\ (c < 10)%nat /\ (1 <= hp <= 4)%Z /\
    k = Brick.new (Levels.col_x c) (Levels.row_y r) BRICK_W BRICK_H color hp.
Proof.
  intros Hks Hk.
  assert (Hgrid : forall L, (4 <= L <= 6)%nat -> k ∈ Levels.levelN L ->
    exists r c hp color,
      (r < 8)%nat /\ (c < 10)%nat /\ (1 <= hp <= 4)%Z /\
      k = Brick.new (Levels.col_x c) (Levels.row_y r) BRICK_W BRICK_H color hp).
  { intros L HL Hin; unfold Levels.levelN in Hin.
    apply list_elem_of_In, in_flat_map in Hin; destruct Hin as (r & Hr & Hin).
    apply in_map_iff in Hin; destruct Hin as (c & <- & Hc).
    apply in_seq in Hr, Hc; change (Z.to_nat BRICK_COLS) with 10%nat in Hc.
    eexists r, c, _, _; split; [lia |]; split; [lia |]; split; [| reflexivity].
    assert (0 <= Z.of_nat (r + c + L) <= 22)%Z by lia.
    split; [apply Z.le_trans with (1 + 0)%Z; [lia |];
            apply Z.add_le_mono_l, Z.div_pos; lia |].
    assert (Z.of_nat (r + c + L) / 6 < 4)%Z
      by (apply Z.div_lt_upper_bound; lia).
    lia. }
  unfold Levels.generateLevels in Hks.
  change (map Levels.levelN (seq 4 3))
    with [Levels.levelN 4; Levels.levelN 5; Levels.levelN 6] in Hks.
  cbn [app] in Hks.
  repeat (apply elem_of_cons in Hks; destruct Hks as [-> | Hks]);
    [| | | | | | inversion Hks].
  - unfold Levels.level1, Levels.makeGrid in Hk.
    apply list_elem_of_In, in_flat_map in Hk; destruct Hk as (r & Hr & Hk).
    apply in_map_iff in Hk; destruct Hk as (c & <- & Hc).
    apply in_seq in Hr, Hc; change (Z.to_nat BRICK_COLS) with 10%nat in Hc.
    eexists r, c, 1%Z, _; split; [lia |]; split; [lia |]; split; [lia |].
    rewrite Z.add_0_r; reflexivity.
  - unfold Levels.level2 in Hk.
    apply list_elem_of_In, in_flat_map in Hk; destruct Hk as (r & Hr & Hk).
    apply in_map_iff in Hk; destruct Hk as (c & <- & Hc).
    apply in_seq in Hr, Hc; change (Z.to_nat BRICK_COLS) with 10%nat in Hc.
    destruct (_ =? _)%nat;
      eexists r, c, _, _; (split; [lia |]; split; [lia |]; split; [| reflexivity]);
      lia.
  - unfold Levels.level3 in Hk.
    apply list_elem_of_In, in_flat_map in Hk; destruct Hk as (r & Hr & Hk).
    apply in_flat_map in Hk; destruct Hk as (c & Hc & Hk).
    apply in_seq in Hr, Hc; change (Z.to_nat BRICK_COLS) with 10%nat in Hc.
    destruct (_ || _); [destruct Hk |].
    destruct Hk as [<- | []].
    destruct (_ && _);
      eexists r, c, _, _; (split; [lia |]; split; [lia |]; split; [| reflexivity]);
      lia.
  - apply (Hgrid 4%nat); [lia | exact Hk].
  - apply (Hgrid 5%nat); [lia | exact Hk].
  - apply (Hgrid 6%nat); [lia | exact Hk].
Qed.

(** X14. There are six levels, of 30, 40, 30, 60, 70 and 80 bricks on any
    canvas.  Every brick starts alive with 1 to 4 hit-points, is [BRICK_W]
    wide and 22 high, and lies between y = 60 and y = 278; on a canvas at
    least 80 wide it lies between x = 40 and x = WIDTH - 22. *)
Theorem generateLevels_bricks :
  map length Levels.generateLevels = [30; 40; 30; 60; 70; 80]%nat /\
  (forall ks k, ks ∈ Levels.generateLevels -> k ∈ ks ->
     Brick.alive k = true /\ (1 <= Brick.hp k <= 4)%Z /\
     Brick.w k = BRICK_W /\ Brick.h k = 22%Z /\
     (60 <= Brick.y k)%Z /\ (Brick.y k + Brick.h k <= 278)%Z /\
     ((80 <= WIDTH)%Z ->
        (40 <= Brick.x k)%Z /\ (Brick.x k + Brick.w k <= WIDTH - 22)%Z)).
Proof.
  split; [reflexivity |].
  intros ks k Hks Hk.
  destruct (level_brick_form ks k Hks Hk) as (r & c & hp & color & Hr & Hc & Hhp & ->).
  unfold Brick.new, Levels.row_y, Levels.col_x, BRICK_H;
    cbn [Brick.alive Brick.hp Brick.w Brick.h Brick.x Brick.y].
  split; [reflexivity |]; split; [exact Hhp |].
  split; [reflexivity |]; split; [reflexivity |].
  split; [lia |]; split; [lia |].
  intros Hw; unfold BRICK_W, BRICK_COLS.
  assert (Hbw : (0 <= (WIDTH - 80) / 10)%Z) by (apply Z.div_pos; lia).
  assert (Hmul : (10 * ((WIDTH - 80) / 10) <= WIDTH - 80)%Z)
    by (apply Z.mul_div_le; lia).
  split; nia.
Qed.

End LevelFacts.

Lemma generateLevels_bricks_witness :
  Brick.alive Sample.level2_target = true /\
  (1 <= Brick.hp Sample.level2_target <= 4)%Z.
Proof.
  destruct (generateLevels_bricks (H := canvas480)) as [_ Hall].
  destruct (Hall Sample.level2 Sample.level2_target) as (Ha & Hhp & _).
  - unfold Levels.generateLevels, Sample.level2.
    apply elem_of_app; left; apply elem_of_cons; right; apply elem_of_cons; left.
    reflexivity.
  - rewrite level2_split; apply elem_of_app; right; left.
  - split; assumption.
Defined.

(** ** Levels handed out by the level manager *)

Lemma new_templates_intact `{Canvas} (h0 : gmap nat Brick.t) :
  templates_intact (LevelManager.new h0).1 (LevelManager.new h0).2.
Proof.
  unfold templates_intact, LevelManager.new.
  pose proof (alloc_levels_spec Levels.generateLevels h0) as Hs; cbv zeta in Hs.
  destruct (LevelManager.alloc_levels Levels.generateLevels h0) as [lss h1].
  cbn in *; destruct Hs as [_ HF].
  eapply Forall2_impl; [exact HF |].
  intros ls bs [Hd _]; exact Hd.
Qed.

(** X15. While the templates are intact, [getBricksForLevel n] throws
    exactly for the levels that do not exist (n < 1 or n > 6).  For the
    others it returns references that were not in use before, holding the
    bricks of generated level n as [Commands.levelBricks] gives them by
    value, and it leaves the templates intact. *)
Theorem getBricksForLevel_by_value `{Canvas} lm (h : gmap nat Brick.t) n :
  templates_intact lm h ->
  match LevelManager.getBricksForLevel n lm h with
  | Some (ls, h') =>
      (1 <= n <= 6)%Z /\
      (exists bs, Commands.levelBricks n = Some bs /\
                  LevelManager.deref h' ls = Some bs) /\
      (forall l, l ∈ ls -> h !! l = None) /\
      templates_intact lm h'
  | None => (n < 1 \/ 6 < n)%Z /\ Commands.levelBricks n = None
  end.
Proof.
  intros HT; unfold Commands.levelBricks.
  destruct (Z.ltb_spec n 1) as [Hlt | Hge].
  { unfold LevelManager.getBricksForLevel.
    destruct (Z.ltb_spec n 1); [| lia].
    split; [left; exact Hlt | reflexivity]. }
  pose proof (Forall2_length _ _ _ HT) as Hlen.
  rewrite generateLevels_length in Hlen.
  destruct (LevelManager.levels lm !! Z.to_nat (n - 1)) as [tmpl |] eqn:Et.
  - destruct (Forall2_lookup_l _ _ _ _ _ HT Et) as (bs & Hbs & Hd).
    rewrite (getBricksForLevel_alloc n lm h tmpl bs) by (lia || assumption).
    pose proof (alloc_all_spec bs h) as Ha; cbv zeta in Ha.
    destruct (LevelManager.alloc_all bs h) as [ls h']; cbn [fst snd] in Ha.
    destruct Ha as (Hsub & Hd' & _ & Hfresh).
    apply lookup_lt_Some in Et.
    split; [lia |]; split; [exists bs; split; assumption |].
    split; [exact Hfresh |].
    eapply Forall2_impl; [exact HT |].
    intros ls0 bs0 Hd0; cbn beta in Hd0.
    eapply deref_weaken; eassumption.
  - unfold LevelManager.getBricksForLevel.
    destruct (Z.ltb_spec n 1); [lia |].
    rewrite Et; cbn [mbind option_bind].
    apply lookup_ge_None in Et.
    split; [right; lia |].
    apply lookup_ge_None; rewrite generateLevels_length; lia.
Qed.

Lemma getBricksForLevel_by_value_witness :
  templates_intact (H := canvas480)
    (LevelManager.new (H := canvas480) ∅).1
    (LevelManager.new (H := canvas480) ∅).2 /\
  match LevelManager.getBricksForLevel 2
          (LevelManager.new (H := canvas480) ∅).1
          (LevelManager.new (H := canvas480) ∅).2 with
  | Some (ls, h') =>
      (1 <= 2 <= 6)%Z /\
      (exists bs, Commands.levelBricks (H := canvas480) 2 = Some bs /\
                  LevelManager.deref h' ls = Some bs) /\
      (forall l, l ∈ ls ->
         (LevelManager.new (H := canvas480) ∅).2 !! l = None) /\
      templates_intact (H := canvas480)
        (LevelManager.new (H := canvas480) ∅).1 h'
  | None => (2 < 1 \/ 6 < 2)%Z /\ Commands.levelBricks (H := canvas480) 2 = None
  end.
Proof.
  split; [apply new_templates_intact |].
  apply (getBricksForLevel_by_value (H := canvas480)), new_templates_intact.
Defined.

(** ** Input events *)

Lemma run_app `{Canvas} es1 es2 i :
  Events.run (es1 ++ es2) i = Events.run es2 (Events.run es1 i).
Proof. unfold Events.run; apply fold_left_app. Qed.

(** X16. Whatever was pressed before, the release of one key of a
    direction clears that direction, also while the other key of the same
    direction is still held; and the launch request is cleared by the
    release of the space bar as well as by the release of the pointer,
    whichever of the two set it. *)
Theorem release_clears_request `{Canvas} (es : list Events.event) (c : string)
    (i : Input.t) :
  (Events.is_left c = true ->
     Input.left (Events.run (es ++ [Events.KeyUp c]) i) = false) /\
  (Events.is_right c = true ->
     Input.right (Events.run (es ++ [Events.KeyUp c]) i) = false) /\
  (Events.is_space c = true ->
     Input.launch (Events.run (es ++ [Events.KeyUp c]) i) = false) /\
  Input.launch (Events.run (es ++ [Events.PointerUp]) i) = false /\
  Input.pointerDown (Events.run (es ++ [Events.PointerUp]) i) = false.
Proof.
  rewrite !run_app; unfold Events.run at 1 3 5 7 9; cbn [fold_left Events.handle].
  unfold Events.keyup, Events.key, Events.pointerup; cbn [Input.left Input.right Input.launch Input.pointerDown].
  repeat split; intros ->; reflexivity.
Qed.

Lemma release_clears_request_witness :
  Events.is_left "KeyA" = true /\
  Input.left
    (Events.run (H := canvas480)
       ([Events.KeyDown "ArrowLeft"; Events.KeyDown "KeyA"]
          ++ [Events.KeyUp "KeyA"])
       no_input) = false.
Proof.
  split; [reflexivity |].
  exact (proj1 (release_clears_request (H := canvas480)
                  [Events.KeyDown "ArrowLeft"; Events.KeyDown "KeyA"]
                  "KeyA" no_input) eq_refl).
Defined.



(** X18. Without a press of the pointer, no sequence of events turns
    dragging on: while [pointerDown] is false, key events, pointer moves
    and pointer releases leave it false and leave [pointerX] as it was, so
    the paddle stays under keyboard control. *)
Theorem no_drag_without_press `{Canvas} (es : list Events.event) (i : Input.t) :
  Input.pointerDown i = false ->
  forallb (fun e => negb (Events.is_pointerdown e)) es = true ->
  Input.pointerDown (Events.run es i) = false /\
  Input.pointerX (Events.run es i) = Input.pointerX i.
Proof.
  revert i; induction es as [| e es IH]; intros i Hd Hes; [split; [exact Hd | reflexivity] |].
  cbn [forallb] in Hes; apply andb_true_iff in Hes; destruct Hes as [He Hes].
  change (Events.run (e :: es) i) with (Events.run es (Events.handle e i)).
  assert (Hstep : Input.pointerDown (Events.handle e i) = false /\
                  Input.pointerX (Events.handle e i) = Input.pointerX i).
  { destruct e; cbn [Events.is_pointerdown negb] in He; try discriminate;
      cbn [Events.handle]; unfold Events.keydown, Events.keyup, Events.key,
        Events.pointerup, Events.pointermove; rewrite ?Hd;
      cbn [negb Input.pointerDown Input.pointerX]; split; (exact Hd || reflexivity). }
  destruct Hstep as [Hd1 Hx1].
  destruct (IH (Events.handle e i) Hd1 Hes) as [Hd2 Hx2].
  split; [exact Hd2 | rewrite Hx2; exact Hx1].
Qed.

Lemma no_drag_without_press_witness :
  Input.pointerDown
    (Events.run (H := canvas480)
       [Events.KeyDown "KeyD"; Events.PointerMove 300 0 480; Events.PointerUp]
       no_input) = false.
Proof.
  apply (no_drag_without_press (H := canvas480)
           [Events.KeyDown "KeyD"; Events.PointerMove 300 0 480; Events.PointerUp]
           no_input); reflexivity.
Defined.

(** ** Game commands *)

Section CommandFacts.
Context `{Canvas}.

Lemma levelBricks_in_range n :
  (1 <= n <= 6)%Z -> exists bs, Commands.levelBricks n = Some bs.
Proof.
  intros Hn; unfold Commands.levelBricks.
  destruct (Z.ltb_spec n 1); [lia |].
  apply lookup_lt_is_Some_2; rewrite generateLevels_length; lia.
Qed.

Lemma levelBricks_1 : Commands.levelBricks 1 = Some Levels.level1.
Proof. reflexivity. Qed.

(** What [startLevel] builds when it does not throw. *)
Lemma startLevel_shape g g' :
  Commands.startLevel g = Some g' ->
  exists level bricks,
    g' = Game.mk PLAYING (Game.input g) level bricks Paddle.new
           [Game.fresh_ball Paddle.new] [] (Game.lives g) (Game.score g)
           (Game.lastTime g) (Game.speedBoostTimer g)
           (Game.multiBallTimer g) (Game.draws g) (Game.sfx g) /\
    ((Game.state g = LEVEL_COMPLETE /\
      level = (if (6 <? Game.currentLevel g + 1)%Z then 1%Z
               else (Game.currentLevel g + 1)%Z) /\
      Commands.levelBricks level = Some bricks) \/
     (Game.state g <> LEVEL_COMPLETE /\
      level = Game.currentLevel g /\ bricks = Game.bricks g)).
Proof.
  unfold Commands.startLevel; intros E.
  match type of E with
  | (?m ≫= _) = _ => destruct m as [[level bricks] |] eqn:Em
  end; [| discriminate].
  cbn in E; injection E as <-.
  exists level, bricks; split; [reflexivity |].
  unfold Commands.maxLevel in Em; rewrite generateLevels_length in Em.
  change (Z.of_nat 6) with 6%Z in Em.
  destruct (Game.state g) eqn:Es;
    try (right; split; [discriminate |]; injection Em as <- <-;
         split; reflexivity).
  left; split; [reflexivity |].
  destruct (Commands.levelBricks _) as [bs |] eqn:Eb; [| discriminate].
  cbn in Em; injection Em as <- <-.
  split; [reflexivity | exact Eb].
Qed.

(** X19. [resetGame] never throws and rebuilds the world of the
    constructor: state READY, level 1 with its generated bricks, a centred
    paddle of base width, one stuck ball, no power-up, 3 lives, score 0 and
    both timers at 0.  Only the held input, the clock, the position on the
    random tape and the sound log survive, and a second reset changes
    nothing. *)
Theorem resetGame_rebuilds (g : Game.t) :
  exists g0 g',
    Commands.newGame (Game.lastTime g) = Some g0 /\
    Commands.resetGame g = Some g' /\
    g' = Game.set_draws (Game.draws g)
           (Game.set_input (Game.input g)
              (Game.mk (Game.state g0) (Game.input g0) (Game.currentLevel g0)
                 (Game.bricks g0) (Game.paddle g0) (Game.balls g0)
                 (Game.powerups g0) (Game.lives g0) (Game.score g0)
                 (Game.lastTime g0) (Game.speedBoostTimer g0)
                 (Game.multiBallTimer g0) (Game.draws g0) (Game.sfx g))) /\
    Game.bricks g' = Levels.level1 /\
    Commands.resetGame g' = Some g'.
Proof.
  unfold Commands.newGame, Commands.resetGame; rewrite levelBricks_1.
  cbn [mbind option_bind].
  eexists _, _; split; [reflexivity |]; split; [reflexivity |].
  repeat split.
Qed.

(** X20. [startLevel] on a level between 1 and 6 never throws.  After a
    completed level it moves to the next level, from 6 back to 1, with the
    bricks as generated; in any other state it keeps the level and the
    bricks as they stand, damage included.  In both cases the game is
    PLAYING with a new centred paddle, one stuck ball of speed 360 and no
    power-up, and lives, score and both power-up timers are carried
    over. *)
Theorem startLevel_levels (g : Game.t) :
  (1 <= Game.currentLevel g <= 6)%Z ->
  exists g',
    Commands.startLevel g = Some g' /\
    (Game.state g = LEVEL_COMPLETE ->
       Game.currentLevel g' = (Game.currentLevel g mod 6 + 1)%Z /\
       Commands.levelBricks (Game.currentLevel g') = Some (Game.bricks g')) /\
    (Game.state g <> LEVEL_COMPLETE ->
       Game.currentLevel g' = Game.currentLevel g /\
       Game.bricks g' = Game.bricks g) /\
    Game.state g' = PLAYING /\
    Game.paddle g' = Paddle.new /\
    Game.balls g' = [Game.fresh_ball Paddle.new] /\
    Game.powerups g' = [] /\
    Game.lives g' = Game.lives g /\ Game.score g' = Game.score g /\
    Game.speedBoostTimer g' = Game.speedBoostTimer g /\
    Game.multiBallTimer g' = Game.multiBallTimer g.
Proof.
  intros Hl; unfold Commands.startLevel.
  destruct (Game.state g) eqn:Es.
  1, 2, 3, 5:
    cbn [mbind option_bind]; eexists; split; [reflexivity |];
    cbn [Game.currentLevel Game.bricks Game.state Game.paddle Game.balls
         Game.powerups Game.lives Game.score Game.speedBoostTimer
         Game.multiBallTimer];
    (split; [intros ?; discriminate |]); repeat split.
  unfold Commands.maxLevel; rewrite generateLevels_length.
  change (Z.of_nat 6) with 6%Z.
  set (l2 := if (6 <? Game.currentLevel g + 1)%Z then 1%Z
             else (Game.currentLevel g + 1)%Z).
  assert (Hl2 : (1 <= l2 <= 6)%Z /\ l2 = (Game.currentLevel g mod 6 + 1)%Z).
  { unfold l2; destruct (Z.ltb_spec 6 (Game.currentLevel g + 1)).
    - assert (Game.currentLevel g = 6)%Z as -> by lia.
      split; [lia | reflexivity].
    - split; [lia |]; rewrite Z.mod_small; lia. }
  destruct Hl2 as [Hr Hm].
  destruct (levelBricks_in_range l2 Hr) as [bs Hbs].
  rewrite Hbs; cbn [mbind option_bind].
  eexists; split; [reflexivity |].
  cbn [Game.currentLevel Game.bricks Game.state Game.paddle Game.balls
       Game.powerups Game.lives Game.score Game.speedBoostTimer
       Game.multiBallTimer].
  split; [intros _; split; [exact Hm | exact Hbs] |].
  split; [intros Hne; contradiction |].
  repeat split.
Qed.
End CommandFacts.

Lemma startLevel_levels_witness :
  (1 <= Game.currentLevel Session.level6_done <= 6)%Z /\
  exists g',
    Commands.startLevel (H := canvas480) Session.level6_done = Some g' /\
    Game.currentLevel g' = 1%Z /\ Game.lives g' = 2%Z /\
    Game.score g' = 8000%Z /\ Game.speedBoostTimer g' = 3.
Proof.
  assert (Hl : (1 <= Game.currentLevel Session.level6_done <= 6)%Z)
    by (cbn; lia).
  split; [exact Hl |].
  destruct (startLevel_levels (H := canvas480) Session.level6_done Hl)
    as (g' & Hs & Hnext & _ & _ & _ & _ & _ & Hlives & Hscore & Hboost & _).
  exists g'; split; [exact Hs |].
  destruct (Hnext eq_refl) as [Hlev _].
  repeat split; assumption.
Defined.

(** ** Pause and game over *)

Section IdleFacts.
Context `{Canvas}.
Variable random : nat -> R.

(** Outside PLAYING a frame only reads the clock. *)
Lemma loop_idle now g :
  Game.state g <> PLAYING -> Game.loop random now g = Game.set_lastTime now g.
Proof.
  intros Hs; unfold Game.loop.
  change (Game.state (Game.set_lastTime now g)) with (Game.state g).
  destruct (Game.state g); [reflexivity | contradiction | reflexivity ..].
Qed.

Lemma last_cons {A} (t : A) ts d : List.last (t :: ts) d = List.last ts t.
Proof.
  revert t d; induction ts as [| t' ts IH]; intros t d; [reflexivity |].
  change (List.last (t :: t' :: ts) d) with (List.last (t' :: ts) d).
  rewrite !IH; reflexivity.
Qed.

Lemma frames_idle ts g :
  Game.state g <> PLAYING ->
  Commands.frames random ts g
  = Game.set_lastTime (List.last ts (Game.lastTime g)) g.
Proof.
  revert g; induction ts as [| t ts IH]; intros g Hs.
  - destruct g; reflexivity.
  - change (Commands.frames random (t :: ts) g)
      with (Commands.frames random ts (Game.loop random t g)).
    rewrite loop_idle by exact Hs.
    rewrite IH by exact Hs.
    rewrite last_cons; reflexivity.
Qed.

(** X21. A pause freezes the game: pausing a game in play, letting any
    number of animation frames pass and resuming gives back the game as it
    was, with only [lastTime] moved to the clock reading of the last frame,
    so the first frame after the pause does not see the paused time. *)
Theorem pause_freezes_the_game ts g :
  Game.state g = PLAYING ->
  Commands.clickPause
    (Commands.frames random ts (Commands.clickPause g))
  = Game.set_lastTime (List.last ts (Game.lastTime g)) g.
Proof.
  intros Hs.
  unfold Commands.clickPause at 2; rewrite Hs.
  unfold Game.togglePause; rewrite Hs.
  rewrite frames_idle by (cbn; discriminate).
  destruct g; cbn in *; subst; reflexivity.
Qed.

End IdleFacts.

Lemma pause_freezes_the_game_witness :
  Game.state Sample.level2_game = PLAYING /\
  Commands.clickPause
    (Commands.frames (H := canvas480) tape_half [16; 33; 50]
       (Commands.clickPause Sample.level2_game))
  = Game.set_lastTime (List.last [16; 33; 50] (Game.lastTime Sample.level2_game))
      Sample.level2_game.
Proof.
  split; [reflexivity |].
  apply (pause_freezes_the_game (H := canvas480) tape_half [16; 33; 50]
           Sample.level2_game).
  reflexivity.
Defined.


(** ** What holds of the balls throughout a session *)

Section BallFacts.
Context `{Canvas}.
Variable random : nat -> R.

Lemma stuck_or_not bs :
  Forall (fun b => Ball.stuck b = false) bs \/
  Exists (fun b => Ball.stuck b = true) bs.
Proof.
  induction bs as [| b bs IH]; [left; constructor |].
  destruct (Ball.stuck b) eqn:E; [right; constructor; exact E |].
  destruct IH as [IH | IH];
    [left; constructor; assumption | right; apply Exists_cons_tl; exact IH].
Qed.

(** A phase that changes the balls one by one. *)
Lemma phase_balls (rel : Ball.t -> Ball.t -> Prop) bs bs' :
  Forall2 rel bs bs' ->
  (forall b b', rel b b' -> ball_ok b ->
     ball_ok b' /\ (Ball.stuck b' = true -> Ball.stuck b = true)) ->
  Forall ball_ok bs ->
  Forall ball_ok bs' /\
  (Exists (fun b => Ball.stuck b = true) bs' ->
   Exists (fun b => Ball.stuck b = true) bs) /\
  length bs' = length bs.
Proof.
  intros HF Hrel; induction HF as [| b b' bs bs' Hb _ IH]; intros Hok.
  - split; [constructor |]; split; [tauto | reflexivity].
  - apply Forall_cons in Hok; destruct Hok as [Hb0 Hok].
    destruct (Hrel b b' Hb Hb0) as [Hb' Hs].
    destruct (IH Hok) as (IH1 & IH2 & IH3).
    split; [constructor; assumption |]; split; [| cbn; rewrite IH3; reflexivity].
    intros Hex; apply Exists_cons in Hex; destruct Hex as [Hex | Hex];
      [left; auto | right; auto].
Qed.

Lemma mid_step (rel : Ball.t -> Ball.t -> Prop) g g' :
  Forall2 rel (Game.balls g) (Game.balls g') ->
  (forall b b', rel b b' -> ball_ok b ->
     ball_ok b' /\ (Ball.stuck b' = true -> Ball.stuck b = true)) ->
  (Exists (fun b => Ball.stuck b = true) (Game.balls g) ->
   length (Game.balls g) = 1%nat -> Game.powerups g' = Game.powerups g) ->
  balls_mid g -> balls_mid g'.
Proof.
  intros HF Hrel Hp [Hok Hal].
  destruct (phase_balls rel _ _ HF Hrel Hok) as (Hok' & Hex & Hlen).
  split; [exact Hok' |].
  intros Hex'; specialize (Hex Hex').
  destruct (Hal Hex) as [Hl Hpw].
  split; [rewrite Hlen; exact Hl | rewrite (Hp Hex Hl); exact Hpw].
Qed.

Lemma update_balls_mid dt g :
  balls_mid g -> balls_mid (Game.update_balls random dt g).
Proof.
  eapply mid_step.
  - rewrite update_balls_balls; apply step_balls_cases.
  - intros b b' Hc [Hband Hbase]; cbn beta in Hc.
    destruct Hc as [[Hs ->] | [(Hs & Hs' & Hv) | (Hs & Hs' & u & ->)]].
    + destruct (Ball_update_kept dt b) as (Ev & _ & Es).
      unfold ball_ok; rewrite Ev, Es, Hs.
      split; [split; [exact Hband | discriminate] | discriminate].
    + unfold ball_ok; rewrite Hv.
      split; [split; [exact Hband | intros _; auto] | intros _; exact Hs].
    + unfold ball_ok; rewrite launched_speed.
      cbn [Ball.attachToPaddle Ball.speed]; rewrite (Hbase Hs).
      split; [| intros Hx; rewrite Hs' in Hx; discriminate].
      split; [destruct (Rltb 0 _); lra |].
      intros Hx; rewrite Hs' in Hx; discriminate.
  - intros _ _; apply (update_balls_kept random dt g).
Qed.

Lemma paddle_collisions_mid g :
  balls_mid g -> balls_mid (Game.paddle_collisions g).
Proof.
  eapply mid_step.
  - rewrite paddle_collisions_balls; apply paddle_loop_cases.
  - intros b b' Hc Hb; cbn beta in Hc.
    destruct Hc as [-> | (Hs & _ & ->)]; [split; [exact Hb | auto] |].
    pose proof (paddle_bounce_speed (Paddle.getRect (Game.paddle g))
                  (Game.speedBoostTimer g) b) as Hv.
    assert (Es : Ball.stuck (Game.paddle_bounce (Paddle.getRect (Game.paddle g))
                               (Game.speedBoostTimer g) b) = false)
      by (cbn; exact Hs).
    unfold ball_ok; rewrite Es.
    split; [split; [lra | discriminate] | discriminate].
  - intros _ _; apply (paddle_collisions_kept g).
Qed.

Lemma brick_bounce_stuck k b :
  Ball.stuck (Game.brick_bounce k b) = Ball.stuck b.
Proof. unfold Game.brick_bounce; destruct (Rltb _ _); reflexivity. Qed.

Lemma brick_loop_flying bs g :
  Forall2 (fun b b' =>
             b' = b \/
             (Ball.stuck b = false /\ exists k, b' = Game.brick_bounce k b))
          bs (Game.brick_loop random bs g).1.
Proof.
  revert g; induction bs as [| b rest IH]; intros g; [constructor |].
  cbn [Game.brick_loop].
  pose proof (brick_step_cases random b g) as Hc.
  destruct (Game.brick_step random b g) as [b' g1]; cbn [fst] in Hc.
  specialize (IH g1).
  destruct (Game.brick_loop random rest g1) as [rest' g2]; cbn [fst] in *.
  constructor; [| exact IH].
  destruct Hc as [-> | (pre & k & post & Hs & _ & ->)];
    [left; reflexivity | right; split; [exact Hs | exists k; reflexivity]].
Qed.

Lemma brick_loop_stuck bs g :
  Forall (fun b => Ball.stuck b = true) bs ->
  Game.brick_loop random bs g = (bs, g).
Proof.
  intros HF; induction HF as [| b rest Hb _ IH]; [reflexivity |].
  cbn [Game.brick_loop]; unfold Game.brick_step; rewrite Hb, IH; reflexivity.
Qed.

Lemma brick_collisions_mid g :
  balls_mid g -> balls_mid (Game.brick_collisions random g).
Proof.
  eapply mid_step.
  - rewrite brick_collisions_balls; apply brick_loop_flying.
  - intros b b' Hc Hb; cbn beta in Hc.
    destruct Hc as [-> | (Hs & k & ->)]; [split; [exact Hb | auto] |].
    unfold ball_ok; rewrite brick_bounce_stuck, brick_bounce_speed, Hs.
    pose proof (clamp_bounds (Ball.speed b * (101 / 100)) 220 900 ltac:(lra)).
    split; [split; [lra | discriminate] | discriminate].
  - intros Hex Hlen.
    destruct (Game.balls g) as [| b [| ? ?]] eqn:Eb; try discriminate.
    apply Exists_cons in Hex; destruct Hex as [Hs | Hex]; [| inversion Hex].
    unfold Game.brick_collisions; rewrite Eb.
    rewrite brick_loop_stuck by (constructor; [exact Hs | constructor]).
    reflexivity.
Qed.

(** Power-ups are applied to balls in flight only. *)
Lemma applyPowerUp_flying ty g :
  Forall (fun b => Ball.stuck b = false /\ ball_ok b) (Game.balls g) ->
  Forall (fun b => Ball.stuck b = false /\ ball_ok b)
         (Game.balls (Game.applyPowerUp ty g)).
Proof.
  intros HF; destruct ty as [[| |] |]; cbn [Game.applyPowerUp]; try exact HF.
  - cbn [Game.balls Game.set_multiBallTimer Game.set_balls].
    apply Forall_app; split; [exact HF |].
    apply Forall_forall; intros b' Hb'.
    apply list_elem_of_In, in_flat_map in Hb'; destruct Hb' as (b & _ & Hb').
    apply list_elem_of_In in Hb'.
    pose proof (multi_spawn_speed b b' Hb') as Hv.
    assert (Hs : Ball.stuck b' = false).
    { unfold Game.multi_spawn in Hb'.
      repeat (apply elem_of_cons in Hb'; destruct Hb' as [-> | Hb']);
        [reflexivity | reflexivity | inversion Hb']. }
    pose proof (clamp_bounds (Ball.speed b * (102 / 100)) 260 920 ltac:(lra)).
    split; [exact Hs |]; unfold ball_ok; rewrite Hv, Hs.
    split; [lra | discriminate].
  - cbn [Game.balls Game.set_speedBoostTimer Game.set_balls].
    apply Forall_fmap; eapply Forall_impl; [exact HF |].
    intros b [Hs _].
    pose proof (clamp_bounds (Ball.speed b * (118 / 100)) 300 1000 ltac:(lra)).
    unfold compose, ball_ok, Game.speed_boost; cbn [Ball.stuck Ball.speed].
    split; [exact Hs |]; split; [lra | rewrite Hs; discriminate].
Qed.

Lemma collect_loop_flying ps g :
  Forall (fun b => Ball.stuck b = false /\ ball_ok b) (Game.balls g) ->
  Forall (fun b => Ball.stuck b = false /\ ball_ok b)
         (Game.balls (Game.collect_loop ps g).2).
Proof.
  revert g; induction ps as [| p rest IH]; intros g HF; [exact HF |].
  cbn [Game.collect_loop].
  destruct (Game.caught p _).
  - apply IH; apply (applyPowerUp_flying (PowerUp.type p) g HF).
  - destruct (negb (PowerUp.alive p)); [apply IH; exact HF |].
    specialize (IH g HF).
    destruct (Game.collect_loop rest g) as [kept g1]; exact IH.
Qed.

Lemma update_powerups_mid dt g :
  balls_mid g -> balls_mid (Game.update_powerups dt g).
Proof.
  intros [Hok Hal].
  destruct (stuck_or_not (Game.balls g)) as [Hfree | Hex].
  - assert (HF : Forall (fun b => Ball.stuck b = false /\ ball_ok b)
                        (Game.balls (Game.update_powerups dt g))).
    { unfold Game.update_powerups.
      pose proof (collect_loop_flying
                    (rev (map (PowerUp.update dt) (Game.powerups g)))
                    (Game.set_powerups
                       (map (PowerUp.update dt) (Game.powerups g)) g)) as Hc.
      destruct (Game.collect_loop _ _) as [kept g1]; cbn [snd] in Hc.
      apply Hc; cbn [Game.balls Game.set_powerups].
      apply Forall_forall; intros b Hb; split.
      - exact (proj1 (Forall_forall _ _) Hfree b Hb).
      - exact (proj1 (Forall_forall _ _) Hok b Hb). }
    split; [eapply Forall_impl; [exact HF | intros b [_ Hb]; exact Hb] |].
    intros Hex; apply Exists_exists in Hex; destruct Hex as (b & Hb & Hs).
    destruct (proj1 (Forall_forall _ _) HF b Hb) as [Hs' _]; congruence.
  - destruct (Hal Hex) as [Hl Hp].
    assert (E : Game.update_powerups dt g = Game.set_powerups [] g)
      by (unfold Game.update_powerups; rewrite Hp; reflexivity).
    rewrite E; split; [exact Hok | intros _; split; [exact Hl | reflexivity]].
Qed.

Lemma sweep_balls_mid g : balls_mid g -> balls_mid (Game.sweep_balls g).
Proof.
  intros [Hok Hal]; unfold Game.sweep_balls, balls_mid.
  cbn [Game.balls Game.powerups Game.set_balls].
  split.
  - apply Forall_forall; intros b Hb.
    apply list_elem_of_filter in Hb; destruct Hb as [_ Hb].
    exact (proj1 (Forall_forall _ _) Hok b Hb).
  - intros Hex.
    assert (Hex0 : Exists (fun b => Ball.stuck b = true) (Game.balls g)).
    { apply Exists_exists in Hex; destruct Hex as (b & Hb & Hs).
      apply list_elem_of_filter in Hb; destruct Hb as [_ Hb].
      apply Exists_exists; exists b; split; assumption. }
    destruct (Hal Hex0) as [Hl Hp]; split; [| exact Hp].
    pose proof (length_filter (fun b : Ball.t => negb (Game.lost b))
                  (Game.balls g)) as Hle.
    destruct (filter _ (Game.balls g)); [inversion Hex |].
    cbn [length] in *; lia.
Qed.

Lemma simulate_mid dt g :
  balls_mid g -> balls_mid (Game.simulate random dt g).
Proof.
  intros Hm; unfold Game.simulate.
  apply sweep_balls_mid, update_powerups_mid, brick_collisions_mid,
    paddle_collisions_mid, update_balls_mid.
  exact Hm.
Qed.

Lemma fresh_ball_ok p : ball_ok (Game.fresh_ball p).
Proof.
  unfold ball_ok, Game.fresh_ball, Ball.attachToPaddle, Ball.new,
    Ball.default_speed; cbn [Ball.speed Ball.stuck]; split; [lra | reflexivity].
Qed.

Lemma lose_life_balls_ok g : balls_mid g -> balls_ok (Game.lose_life g).
Proof.
  intros [Hok Hal]; unfold Game.lose_life.
  destruct (Game.balls g) as [| b bs] eqn:Eb; cbn [length Nat.eqb].
  - cbn [Game.lives Game.set_lives].
    destruct (_ <=? _)%Z; constructor;
      cbn [Game.balls Game.set_state Game.set_balls Game.set_lives app];
      try (intros [Hs | Hs]; cbn in Hs; discriminate).
    + rewrite Eb; constructor.
    + rewrite Eb; constructor; [apply fresh_ball_ok | constructor].
  - constructor; rewrite ?Eb;
      [exact Hok | intros _; exact Hal | intros _; discriminate].
Qed.

Lemma check_level_balls_ok g : balls_ok g -> balls_ok (Game.check_level g).
Proof.
  intros [Hok Hal Hne]; unfold Game.check_level.
  destruct (_ =? _)%nat; [| constructor; assumption].
  constructor; cbn [Game.balls Game.play Game.set_state];
    [exact Hok | |]; intros [Hs | Hs]; cbn in Hs; discriminate.
Qed.

Lemma update_timers_balls_ok dt g :
  balls_ok g -> balls_ok (Game.update_timers dt g).
Proof.
  intros [Hok Hal Hne].
  destruct (update_timers_kept dt g) as (Es & _ & _ & _ & Ep & _).
  assert (Hin : in_play (Game.update_timers dt g) -> in_play g)
    by (unfold in_play; rewrite Es; auto).
  destruct (update_timers_balls dt g) as [Eb | Eb]; constructor;
    rewrite Eb, ?Ep.
  - exact Hok.
  - intros Hi; apply Hal, Hin, Hi.
  - intros Hi; apply Hne, Hin, Hi.
  - apply Forall_fmap, Forall_forall; intros b _.
    unfold ball_ok; cbn; split; [lra | reflexivity].
  - intros Hi Hex; rewrite length_map; apply (Hal (Hin Hi)).
    apply Exists_fmap in Hex.
    eapply Exists_impl; [exact Hex | intros b Hb; exact Hb].
  - intros Hi E; apply (Hne (Hin Hi)).
    destruct (Game.balls g); [reflexivity | discriminate].
Qed.

Lemma update_balls_ok dt g :
  Game.state g = PLAYING -> balls_ok g -> balls_ok (Game.update random dt g).
Proof.
  intros Hs [Hok Hal Hne]; unfold Game.update.
  apply update_timers_balls_ok, check_level_balls_ok, lose_life_balls_ok,
    simulate_mid.
  split; [exact Hok | apply Hal; left; exact Hs].
Qed.

Lemma loop_balls_ok now g :
  balls_ok g -> balls_ok (Game.loop random now g).
Proof.
  intros Hg; unfold Game.loop.
  assert (Hg1 : balls_ok (Game.set_lastTime now g))
    by (destruct Hg; constructor; assumption).
  change (Game.state (Game.set_lastTime now g)) with (Game.state g).
  destruct (Game.state g) eqn:Es; try exact Hg1.
  apply update_balls_ok; [exact Es | exact Hg1].
Qed.

Lemma one_fresh_ball_ok g :
  Game.balls g = [Game.fresh_ball Paddle.new] -> Game.powerups g = [] ->
  balls_ok g.
Proof.
  intros Eb Ep; constructor; rewrite Eb.
  - constructor; [apply fresh_ball_ok | constructor].
  - intros _ _; split; [reflexivity | exact Ep].
  - intros _; discriminate.
Qed.

Lemma step_balls_ok g g' :
  Commands.step random g g' -> balls_ok g -> balls_ok g'.
Proof.
  intros Hstep Hg; destruct Hstep as [now g | g g' Hc | g | g g' Hr | e g].
  - apply loop_balls_ok; exact Hg.
  - unfold Commands.clickStart in Hc.
    assert (Hst : Commands.startLevel g = Some g' -> balls_ok g').
    { intros E; destruct (startLevel_shape g g' E) as (l & ks & -> & _).
      apply one_fresh_ball_ok; reflexivity. }
    destruct (Game.state g); try (injection Hc as <-; exact Hg); auto.
  - unfold Commands.clickPause, Game.togglePause.
    destruct Hg as [Hok Hal Hne].
    destruct (Game.state g) eqn:Es; try (constructor; assumption).
    + constructor; cbn [Game.balls Game.powerups Game.set_state];
        [exact Hok | intros _; apply Hal | intros _; apply Hne];
        left; exact Es.
    + constructor; cbn [Game.balls Game.powerups Game.set_state];
        [exact Hok | intros _; apply Hal | intros _; apply Hne];
        right; exact Es.
  - unfold Commands.clickReset, Commands.resetGame in Hr.
    destruct (Commands.levelBricks 1); [| discriminate].
    cbn [mbind option_bind] in Hr; injection Hr as <-.
    apply one_fresh_ball_ok; reflexivity.
  - destruct Hg; constructor; assumption.
Qed.

Lemma new_balls_ok now g : Commands.newGame now = Some g -> balls_ok g.
Proof.
  unfold Commands.newGame; intros E.
  destruct (Commands.levelBricks 1); [| discriminate].
  cbn [mbind option_bind] in E; injection E as <-.
  apply one_fresh_ball_ok; reflexivity.
Qed.

(** X23. In every game of a session, whatever the clock, the random
    draws, the clicks and the input events: every ball has a speed between
    200 and 1000; a ball stuck to the paddle has the base speed 360; while
    the game is PLAYING or PAUSED there is at least one ball, and a stuck
    ball is then the only ball, with no power-up on the field. *)
Theorem reachable_balls_ok g : Commands.reachable random g -> balls_ok g.
Proof.
  intros Hr; induction Hr as [now g Hn | g g' _ IH Hstep].
  - exact (new_balls_ok now g Hn).
  - exact (step_balls_ok g g' Hstep IH).
Qed.
End BallFacts.

Lemma opening_reachable random :
  Commands.reachable (H := canvas480) random Session.opening.
Proof. apply (Commands.reach_new random 0); reflexivity. Qed.

Lemma started_reachable random :
  Commands.reachable (H := canvas480) random Session.started.
Proof.
  eapply Commands.reach_step; [apply opening_reachable |].
  apply Commands.step_start; reflexivity.
Qed.

Lemma reachable_balls_ok_witness :
  Commands.reachable (H := canvas480) tape_half
    (Game.loop (H := canvas480) tape_half 16 Session.started) /\
  balls_ok (Game.loop (H := canvas480) tape_half 16 Session.started).
Proof.
  assert (Hr : Commands.reachable (H := canvas480) tape_half
                 (Game.loop (H := canvas480) tape_half 16 Session.started))
    by (eapply Commands.reach_step;
        [apply started_reachable | apply Commands.step_frame]).
  split; [exact Hr |].
  exact (reachable_balls_ok (H := canvas480) tape_half _ Hr).
Defined.

(** ** What holds of levels, lives, score and bricks throughout a session *)

Section WorldFacts.
Context `{Canvas}.
Variable random : nat -> R.

Lemma levelBricks_sound n bs :
  Commands.levelBricks n = Some bs -> Forall brick_sound bs.
Proof.
  unfold Commands.levelBricks; destruct (n <? 1)%Z; [discriminate |].
  intros Hl; apply list_elem_of_lookup_2 in Hl.
  apply Forall_forall; intros k Hk.
  destruct (level_brick_form bs k Hl Hk)
    as (r & c & hp & color & _ & _ & Hhp & ->).
  unfold brick_sound, Brick.new; cbn [Brick.hp Brick.alive].
  split; [lia | split; [intros _; lia | reflexivity]].
Qed.

Lemma levelBricks_range n bs :
  Commands.levelBricks n = Some bs -> (1 <= n <= 6)%Z.
Proof.
  unfold Commands.levelBricks; destruct (Z.ltb_spec n 1); [discriminate |].
  intros Hl; apply lookup_lt_Some in Hl.
  rewrite generateLevels_length in Hl; lia.
Qed.

Lemma lose_life_lives g : (Game.lives (Game.lose_life g) <= Game.lives g)%Z.
Proof.
  unfold Game.lose_life; destruct (_ =? _)%nat; [| lia].
  cbn [Game.lives Game.set_lives]; destruct (_ <=? _)%Z; cbn; lia.
Qed.

Lemma update_level_lives dt g :
  Game.currentLevel (Game.update random dt g) = Game.currentLevel g /\
  (Game.lives (Game.update random dt g) <= Game.lives g)%Z.
Proof.
  unfold Game.update.
  destruct (update_timers_kept dt
              (Game.check_level (Game.lose_life (Game.simulate random dt g))))
    as (_ & -> & _ & _ & _ & _ & ->).
  destruct (check_level_kept (Game.lose_life (Game.simulate random dt g)))
    as (_ & -> & _ & _ & _ & _ & -> & _).
  destruct (lose_life_kept (Game.simulate random dt g))
    as (_ & _ & _ & _ & ->).
  pose proof (lose_life_lives (Game.simulate random dt g)).
  destruct (simulate_session random dt g) as (_ & El & -> & _).
  split; [reflexivity | lia].
Qed.

Lemma update_world_ok dt g : world_ok g -> world_ok (Game.update random dt g).
Proof.
  intros [Hlev Hliv [Hs0 Hs100] (bs & Hbs & Hshape) Hsound].
  pose proof (update_ledger random dt g) as Hl; cbv zeta in Hl.
  destruct Hl as (L1 & _ & L3 & L4 & L5).
  destruct (update_level_lives dt g) as [El Hlives].
  constructor.
  - rewrite El; exact Hlev.
  - lia.
  - split; [lia | rewrite L4; exact Hs100].
  - exists bs; rewrite El, L1; split; assumption.
  - exact (L5 Hsound).
Qed.

Lemma loop_world_ok now g : world_ok g -> world_ok (Game.loop random now g).
Proof.
  intros Hg; unfold Game.loop.
  assert (Hg1 : world_ok (Game.set_lastTime now g))
    by (destruct Hg; constructor; assumption).
  change (Game.state (Game.set_lastTime now g)) with (Game.state g).
  destruct (Game.state g); try exact Hg1.
  apply update_world_ok; exact Hg1.
Qed.

Lemma step_world_ok g g' :
  Commands.step random g g' -> world_ok g -> world_ok g'.
Proof.
  intros Hstep Hg; destruct Hstep as [now g | g g' Hc | g | g g' Hr | e g].
  - apply loop_world_ok; exact Hg.
  - unfold Commands.clickStart in Hc.
    assert (Hst : Commands.startLevel g = Some g' -> world_ok g').
    { intros E; destruct (startLevel_shape g g' E) as (l & ks & -> & Hcase).
      destruct Hg as [Hlev Hliv Hsc (bs & Hbs & Hshape) Hsound].
      destruct Hcase as [(_ & El & Hks) | (_ & -> & ->)].
      - constructor; cbn [Game.currentLevel Game.lives Game.score Game.bricks].
        + exact (levelBricks_range l ks Hks).
        + exact Hliv.
        + exact Hsc.
        + exists ks; split; [exact Hks | reflexivity].
        + exact (levelBricks_sound l ks Hks).
      - constructor; cbn [Game.currentLevel Game.lives Game.score Game.bricks];
          try assumption.
        exists bs; split; assumption. }
    destruct (Game.state g); try (injection Hc as <-; exact Hg); auto.
  - unfold Commands.clickPause, Game.togglePause.
    destruct (Game.state g); try exact Hg;
      destruct Hg; constructor; assumption.
  - unfold Commands.clickReset, Commands.resetGame in Hr.
    destruct (Commands.levelBricks 1) as [bs |] eqn:Eb; [| discriminate].
    cbn [mbind option_bind] in Hr; injection Hr as <-.
    constructor; cbn [Game.currentLevel Game.lives Game.score Game.bricks].
    + lia.
    + lia.
    + split; [lia | reflexivity].
    + exists bs; split; [exact Eb | reflexivity].
    + exact (levelBricks_sound 1 bs Eb).
  - destruct Hg; constructor; assumption.
Qed.

Lemma new_world_ok now g : Commands.newGame now = Some g -> world_ok g.
Proof.
  unfold Commands.newGame; intros E.
  destruct (Commands.levelBricks 1) as [bs |] eqn:Eb; [| discriminate].
  cbn [mbind option_bind] in E; injection E as <-.
  constructor; cbn [Game.currentLevel Game.lives Game.score Game.bricks].
  - lia.
  - lia.
  - split; [lia | reflexivity].
  - exists bs; split; [exact Eb | reflexivity].
  - exact (levelBricks_sound 1 bs Eb).
Qed.

(** X24. In every game of a session, whatever the clock, the random
    draws, the clicks and the input events: the level is one of 1 to 6;
    there are at most 3 lives; the score is a multiple of 100 and not
    negative; the bricks are those of the generated level in number, order,
    place, size and colour; and a brick is alive exactly while it has
    hit-points left, which never go below zero. *)
Theorem reachable_world_ok g : Commands.reachable random g -> world_ok g.
Proof.
  intros Hr; induction Hr as [now g Hn | g g' _ IH Hstep].
  - exact (new_world_ok now g Hn).
  - exact (step_world_ok g g' Hstep IH).
Qed.
End WorldFacts.

Lemma reachable_world_ok_witness :
  Commands.reachable (H := canvas480) tape_half
    (Game.loop (H := canvas480) tape_half 16 Session.started) /\
  world_ok (H := canvas480)
    (Game.loop (H := canvas480) tape_half 16 Session.started).
Proof.
  assert (Hr : Commands.reachable (H := canvas480) tape_half
                 (Game.loop (H := canvas480) tape_half 16 Session.started))
    by (eapply Commands.reach_step;
        [apply started_reachable | apply Commands.step_frame]).
  split; [exact Hr |].
  exact (reachable_world_ok (H := canvas480) tape_half _ Hr).
Defined.

(** ** What holds of the paddle throughout a session *)

Section PaddleFacts.
Context `{Canvas}.
Variable random : nat -> R.
Hypothesis wide : (144 <= WIDTH)%Z.

Lemma clamp_range v a b : a <= clamp v a b <= Rmax a b.
Proof.
  unfold clamp, Rmax, Rmin.
  destruct (Rle_dec b v); destruct (Rle_dec a _); destruct (Rle_dec a b); lra.
Qed.

Lemma Paddle_new_ok : paddle_ok Paddle.new.
Proof.
  apply IZR_le in wide.
  unfold paddle_ok, Paddle.new, PADDLE_BASE_WIDTH;
    cbn [Paddle.width Paddle.x Paddle.height Paddle.y Paddle.speed
         Paddle.expireTimer].
  split; [left; reflexivity |]; split; [lra | reflexivity].
Qed.

Lemma Paddle_update_ok dt i p :
  paddle_ok p -> paddle_ok (Paddle.update dt i p).
Proof.
  apply IZR_le in wide.
  intros (Hw & Hx & Hc); injection Hc as Hh Hy Hs.
  unfold PADDLE_BASE_WIDTH in *.
  assert (Hb : Rmax 12 (IZR WIDTH - 12 - Paddle.width p) <= IZR WIDTH - 12 - 120).
  { apply Rmax_lub; [lra |]. destruct Hw as [-> | [-> _]]; lra. }
  assert (Hm : 12 <= Paddle.moved_x dt i p <= IZR WIDTH - 12 - 120).
  { unfold Paddle.moved_x.
    destruct (Input.pointerDown i).
    - pose proof (clamp_range (Input.pointerX i - Paddle.width p / 2) 12
                    (IZR WIDTH - 12 - Paddle.width p)) as Ht.
      pose proof (clamp_bounds (dt * 12) 0 1 ltac:(lra)) as Hk.
      set (t := clamp (Input.pointerX i - Paddle.width p / 2) 12 _) in *.
      set (k := clamp (dt * 12) 0 1) in *.
      split; nra.
    - destruct (negb _).
      + pose proof (clamp_range
                      (Paddle.x p + IZR ((if Input.left i then -1 else 0)
                         + (if Input.right i then 1 else 0))
                         * Paddle.speed p * dt)
                      12 (IZR WIDTH - 12 - Paddle.width p)); lra.
      + pose proof (clamp_range (Paddle.x p) 12
                      (IZR WIDTH - 12 - Paddle.width p)); lra. }
  unfold paddle_ok, Paddle.update; fold (Paddle.moved_x dt i p).
  unfold PADDLE_BASE_WIDTH.
  destruct (Rltb_spec 0 (Paddle.expireTimer p)) as [Ht | Ht].
  - destruct (Rleb_spec (Paddle.expireTimer p - dt) 0) as [He | He];
      cbn [Paddle.width Paddle.x Paddle.height Paddle.y Paddle.speed
           Paddle.expireTimer]; rewrite Hh, Hy, Hs.
    + split; [left; reflexivity |]; split; [exact Hm | reflexivity].
    + split; [| split; [exact Hm | reflexivity]].
      destruct Hw as [Hw | [Hw _]]; [left; exact Hw | right; split; [exact Hw | lra]].
  - cbn [Paddle.width Paddle.x Paddle.height Paddle.y Paddle.speed
         Paddle.expireTimer]; rewrite Hh, Hy, Hs.
    split; [| split; [exact Hm | reflexivity]].
    destruct Hw as [Hw | [_ Hw]]; [left; exact Hw | lra].
Qed.

Lemma applyPower_ok ty p : paddle_ok p -> paddle_ok (Paddle.applyPower ty p).
Proof.
  intros (Hw & Hx & Hc); destruct ty as [[| |] |]; try (split; [| split]; assumption).
  unfold paddle_ok, Paddle.applyPower;
    cbn [Paddle.width Paddle.x Paddle.height Paddle.y Paddle.speed
         Paddle.expireTimer].
  split; [right; split; [reflexivity | lra] |]; split; assumption.
Qed.

Lemma applyPowerUp_paddle_ok ty g :
  paddle_ok (Game.paddle g) -> paddle_ok (Game.paddle (Game.applyPowerUp ty g)).
Proof.
  intros Hp; destruct ty as [[| |] |]; cbn [Game.applyPowerUp]; try exact Hp.
  cbn [Game.paddle Game.set_paddle]; apply applyPower_ok; exact Hp.
Qed.

Lemma collect_loop_paddle_ok ps g :
  paddle_ok (Game.paddle g) -> paddle_ok (Game.paddle (Game.collect_loop ps g).2).
Proof.
  revert g; induction ps as [| p rest IH]; intros g Hp; [exact Hp |].
  cbn [Game.collect_loop].
  destruct (Game.caught p _).
  - apply IH; apply (applyPowerUp_paddle_ok (PowerUp.type p) g Hp).
  - destruct (negb (PowerUp.alive p)); [apply IH; exact Hp |].
    specialize (IH g Hp).
    destruct (Game.collect_loop rest g) as [kept g1]; exact IH.
Qed.

Lemma update_powerups_paddle_ok dt g :
  paddle_ok (Game.paddle g) ->
  paddle_ok (Game.paddle (Game.update_powerups dt g)).
Proof.
  intros Hp; unfold Game.update_powerups.
  pose proof (collect_loop_paddle_ok
                (rev (map (PowerUp.update dt) (Game.powerups g)))
                (Game.set_powerups (map (PowerUp.update dt) (Game.powerups g)) g)
                Hp) as Hc.
  destruct (Game.collect_loop _ _) as [kept g1]; exact Hc.
Qed.

Lemma brick_loop_paddle bs g :
  Game.paddle (Game.brick_loop random bs g).2 = Game.paddle g.
Proof.
  revert g; induction bs as [| b rest IH]; intros g; [reflexivity |].
  cbn [Game.brick_loop].
  assert (E : Game.paddle (Game.brick_step random b g).2 = Game.paddle g).
  { unfold Game.brick_step.
    destruct (Ball.stuck b); [reflexivity |].
    destruct (Game.first_brick_hit b (Game.bricks g)) as [[[pre k] post] |];
      [| reflexivity].
    cbn [snd]; unfold Game.spawn_powerup.
    destruct (negb _); [destruct (Rltb _ _) |]; reflexivity. }
  destruct (Game.brick_step random b g) as [b' g1]; cbn [snd] in E.
  specialize (IH g1).
  destruct (Game.brick_loop random rest g1) as [rest' g2]; cbn [snd] in *.
  rewrite IH; exact E.
Qed.

Lemma brick_collisions_paddle g :
  Game.paddle (Game.brick_collisions random g) = Game.paddle g.
Proof.
  unfold Game.brick_collisions.
  pose proof (brick_loop_paddle (Game.balls g) g) as E.
  destruct (Game.brick_loop random (Game.balls g) g) as [bs g1]; exact E.
Qed.

Lemma update_paddle_ok dt g :
  paddle_ok (Game.paddle g) -> paddle_ok (Game.paddle (Game.update random dt g)).
Proof.
  intros Hp; unfold Game.update, Game.simulate.
  destruct (update_timers_kept dt
    (Game.check_level (Game.lose_life (Game.sweep_balls
       (Game.update_powerups dt (Game.brick_collisions random
          (Game.paddle_collisions (Game.update_balls random dt
             (Game.set_paddle (Paddle.update dt (Game.input g) (Game.paddle g))
                g)))))))))
    as (_ & _ & _ & _ & _ & -> & _).
  match goal with |- context [Game.check_level ?c] =>
    destruct (check_level_kept c) as (_ & _ & _ & _ & _ & -> & _) end.
  match goal with |- context [Game.lose_life ?c] =>
    destruct (lose_life_kept c) as (_ & _ & _ & -> & _) end.
  change (Game.paddle (Game.sweep_balls ?c)) with (Game.paddle c).
  apply update_powerups_paddle_ok.
  rewrite brick_collisions_paddle.
  match goal with |- context [Game.paddle_collisions ?c] =>
    destruct (paddle_collisions_kept c) as (_ & _ & _ & -> & _) end.
  match goal with |- context [Game.update_balls random dt ?c] =>
    destruct (update_balls_kept random dt c) as (_ & _ & _ & ->) end.
  cbn [Game.paddle Game.set_paddle]; apply Paddle_update_ok; exact Hp.
Qed.

Lemma step_paddle_ok g g' :
  Commands.step random g g' ->
  paddle_ok (Game.paddle g) -> paddle_ok (Game.paddle g').
Proof.
  intros Hstep Hg; destruct Hstep as [now g | g g' Hc | g | g g' Hr | e g].
  - unfold Game.loop.
    change (Game.state (Game.set_lastTime now g)) with (Game.state g).
    destruct (Game.state g); try exact Hg.
    apply update_paddle_ok; exact Hg.
  - unfold Commands.clickStart in Hc.
    assert (Hst : Commands.startLevel g = Some g' -> paddle_ok (Game.paddle g')).
    { intros E; destruct (startLevel_shape g g' E) as (l & ks & -> & _).
      apply Paddle_new_ok. }
    destruct (Game.state g); try (injection Hc as <-; exact Hg); auto.
  - unfold Commands.clickPause, Game.togglePause.
    destruct (Game.state g); exact Hg.
  - unfold Commands.clickReset, Commands.resetGame in Hr.
    destruct (Commands.levelBricks 1); [| discriminate].
    cbn [mbind option_bind] in Hr; injection Hr as <-.
    apply Paddle_new_ok.
  - exact Hg.
Qed.

(** X25. On a canvas at least 144 wide, in every game of a session: the
    paddle is 120 wide, or 192 wide while its timer is still running; its
    left edge lies between 12 and [WIDTH - 132], so a paddle of base width
    is always inside the field and a widened one sticks out to the right by
    at most 72; its height, y and speed are those it was built with. *)
Theorem reachable_paddle_ok g :
  Commands.reachable random g ->
  paddle_ok (Game.paddle g) /\
  (Paddle.width (Game.paddle g) = 120 -> Paddle.in_field (Game.paddle g)) /\
  Paddle.x (Game.paddle g) + Paddle.width (Game.paddle g)
    <= IZR WIDTH - 12 + 72.
Proof.
  intros Hr.
  assert (Hp : paddle_ok (Game.paddle g)).
  { induction Hr as [now g Hn | g g' _ IH Hstep].
    - unfold Commands.newGame in Hn.
      destruct (Commands.levelBricks 1); [| discriminate].
      cbn [mbind option_bind] in Hn; injection Hn as <-.
      apply Paddle_new_ok.
    - exact (step_paddle_ok g g' Hstep IH). }
  split; [exact Hp |].
  destruct Hp as (Hw & Hx & _); unfold PADDLE_BASE_WIDTH in *.
  split; [intros E; unfold Paddle.in_field; rewrite E; exact Hx |].
  destruct Hw as [-> | [-> _]]; lra.
Qed.
End PaddleFacts.

Lemma reachable_paddle_ok_witness :
  (144 <= WIDTH (Canvas := canvas480))%Z /\
  Commands.reachable (H := canvas480) tape_half
    (Game.loop (H := canvas480) tape_half 16 Session.started) /\
  paddle_ok (H := canvas480)
    (Game.paddle (Game.loop (H := canvas480) tape_half 16 Session.started)).
Proof.
  assert (Hw : (144 <= WIDTH (Canvas := canvas480))%Z)
    by (vm_compute; discriminate).
  assert (Hr : Commands.reachable (H := canvas480) tape_half
                 (Game.loop (H := canvas480) tape_half 16 Session.started))
    by (eapply Commands.reach_step;
        [apply started_reachable | apply Commands.step_frame]).
  split; [exact Hw |]; split; [exact Hr |].
  exact (proj1 (reachable_paddle_ok (H := canvas480) tape_half Hw _ Hr)).
Defined.

(** ** The direction of a launch *)

Lemma Rabs_bound x b : Rabs x <= b -> - b <= x <= b.
Proof. unfold Rabs; destruct (Rcase_abs x); lra. Qed.

Lemma sin_small d : Rabs d <= 3 / 10 -> Rabs (sin d) <= Rabs d.
Proof.
  intros Hd; pose proof PI2_1 as Hpi.
  destruct (Rtotal_order d 0) as [Hn | [-> | Hp]].
  - rewrite (Rabs_left d) in * by lra.
    assert (sin (- d) < - d) by (apply sin_lt_x; lra).
    assert (0 < sin (- d)) by (apply sin_gt_0; lra).
    rewrite sin_neg in *; rewrite Rabs_left by lra; lra.
  - rewrite sin_0, Rabs_R0; lra.
  - rewrite (Rabs_right d) in * by lra.
    assert (sin d < d) by (apply sin_lt_x; lra).
    assert (0 < sin d) by (apply sin_gt_0; lra).
    rewrite Rabs_right by lra; lra.
Qed.

Lemma launch_angle_polar u :
  cos (Game.launch_angle u) = sin (u * (6 / 10) - 3 / 10) /\
  sin (Game.launch_angle u) = - cos (u * (6 / 10) - 3 / 10).
Proof.
  unfold Game.launch_angle.
  set (d := u * (6 / 10) - 3 / 10).
  replace (- PI / 2 + d) with (d - PI / 2) by field.
  rewrite cos_minus, sin_minus, cos_PI2, sin_PI2; split; ring.
Qed.

(** X26. A stuck ball of positive speed is launched upwards, within 0.3
    radians of the vertical, for every draw in [0, 1): it moves up with at
    least nine tenths of its speed, sideways with at most three tenths, to
    the left for a draw below one half and to the right for a draw above;
    the magnitude of its velocity is its speed, which is the speed before
    times 1.08 while a speed boost runs. *)
Theorem launch_goes_up boost u b :
  0 <= u < 1 -> 0 < Ball.speed b ->
  let b' := Game.launched boost u b in
  Ball.stuck b' = false /\
  Ball.speed b' = Ball.speed b * (if Rltb 0 boost then 108 / 100 else 1) /\
  hypot (Ball.vx b') (Ball.vy b') = Ball.speed b' /\
  Ball.vy b' <= - (9 / 10) * Ball.speed b' /\
  Rabs (Ball.vx b') <= 3 / 10 * Ball.speed b' /\
  (u < 1 / 2 -> Ball.vx b' < 0) /\
  (1 / 2 < u -> 0 < Ball.vx b').
Proof.
  intros Hu Hs; cbv zeta.
  destruct (launch_angle_polar u) as [Ec Es].
  pose proof PI2_1 as Hpi.
  unfold Game.launched; cbn [Ball.stuck Ball.speed Ball.vx Ball.vy].
  rewrite Ec, Es.
  set (s := Ball.speed b * (if Rltb 0 boost then 108 / 100 else 1)).
  set (d := u * (6 / 10) - 3 / 10).
  assert (Hs' : 0 < s) by (unfold s; destruct (Rltb 0 boost); nra).
  assert (Hd : Rabs d <= 3 / 10) by (unfold d; apply Rabs_le; lra).
  pose proof (sin_small d Hd) as Hsin.
  assert (Hcos : 0 < cos d).
  { apply Rabs_bound in Hd; apply cos_gt_0; lra. }
  pose proof (sin2_cos2 d) as E; unfold Rsqr in E.
  assert (Hsin2 : sin d * sin d <= 9 / 100).
  { assert (Rabs (sin d) <= 3 / 10) by lra.
    apply Rabs_bound in H; nra. }
  assert (Hc9 : 9 / 10 <= cos d) by nra.
  split; [reflexivity |]; split; [reflexivity |].
  split; [apply hypot_scaled; [lra | nra] |].
  split; [nra |].
  split.
  { rewrite Rabs_mult, (Rabs_right s) by lra.
    assert (Rabs (sin d) <= 3 / 10) by lra; nra. }
  split; intros Hh.
  - assert (sin d < 0) by (apply sin_lt_0_var; unfold d; lra); nra.
  - assert (0 < sin d) by (apply sin_gt_0; unfold d; lra); nra.
Qed.

Lemma launch_goes_up_witness :
  Ball.vy (Game.launched 0 (1 / 4) (Ball.new 240 596 360))
    <= - (9 / 10) * Ball.speed (Game.launched 0 (1 / 4) (Ball.new 240 596 360)).
Proof.
  apply (launch_goes_up 0 (1 / 4) (Ball.new 240 596 360)).
  - lra.
  - cbn; lra.
Defined.

(** X27. [Ball.launch] and [setVelocityFromSpeed] give a ball of
    non-negative speed the velocity of that magnitude at the given angle
    and leave position, radius and speed alone; [launch] also frees the
    ball, [setVelocityFromSpeed] does not.  At the default angle of
    [launch], [-PI/4], the ball moves up and to the right in equal
    measure. *)
Theorem Ball_launch_polar ang b :
  0 <= Ball.speed b ->
  let b' := Ball.launch ang b in
  Ball.stuck b' = false /\
  Ball.setVelocityFromSpeed ang b
    = Ball.mk (Ball.x b') (Ball.y b') (Ball.vx b') (Ball.vy b')
              (Ball.radius b') (Ball.speed b') (Ball.stuck b) /\
  (Ball.x b', Ball.y b', Ball.radius b', Ball.speed b')
    = (Ball.x b, Ball.y b, Ball.radius b, Ball.speed b) /\
  hypot (Ball.vx b') (Ball.vy b') = Ball.speed b /\
  (ang = - PI / 4 -> Ball.vy b' = - Ball.vx b' /\ 0 <= Ball.vx b').
Proof.
  intros Hs; cbv zeta; unfold Ball.launch, Ball.setVelocityFromSpeed;
    cbn [Ball.stuck Ball.x Ball.y Ball.vx Ball.vy Ball.radius Ball.speed].
  split; [reflexivity |]; split; [reflexivity |]; split; [reflexivity |].
  split; [apply hypot_polar; exact Hs |].
  intros ->.
  replace (- PI / 4) with (- (PI / 4)) by field.
  rewrite cos_neg, sin_neg, sin_cos_PI4.
  assert (0 < cos (PI / 4)).
  { pose proof PI2_1; apply cos_gt_0; lra. }
  split; [ring | nra].
Qed.

Lemma Ball_launch_polar_witness :
  hypot (Ball.vx (Ball.launch (- PI / 4) (Ball.new 240 596 360)))
        (Ball.vy (Ball.launch (- PI / 4) (Ball.new 240 596 360)))
  = Ball.speed (Ball.new 240 596 360).
Proof.
  apply (Ball_launch_polar (- PI / 4) (Ball.new 240 596 360)).
  cbn; lra.
Defined.

(** ** The state after a frame *)

Section FrameOutcome.
Context `{Canvas}.
Variable random : nat -> R.

Lemma dead_or_alive ks :
  Forall (fun k => Brick.alive k = false) ks \/
  exists k, k ∈ ks /\ Brick.alive k = true.
Proof.
  induction ks as [| k ks IH]; [left; constructor |].
  destruct (Brick.alive k) eqn:E; [right; exists k; split; [left | exact E] |].
  destruct IH as [IH | (k' & Hk' & Ha)];
    [left; constructor; assumption | right; exists k'; split; [right |]; assumption].
Qed.

Lemma lose_life_cases s :
  (Game.balls s <> [] /\ Game.lose_life s = s) \/
  (Game.balls s = [] /\ (Game.lives s - 1 <= 0)%Z /\
   Game.state (Game.lose_life s) = GAME_OVER /\
   Game.lives (Game.lose_life s) = (Game.lives s - 1)%Z /\
   Game.balls (Game.lose_life s) = []) \/
  (Game.balls s = [] /\ (0 < Game.lives s - 1)%Z /\
   Game.state (Game.lose_life s) = READY /\
   Game.lives (Game.lose_life s) = (Game.lives s - 1)%Z /\
   Game.balls (Game.lose_life s) = [Game.fresh_ball (Game.paddle s)]).
Proof.
  destruct (Game.balls s) as [| b bs] eqn:Eb.
  - right; rewrite (lose_life_empty s Eb).
    destruct (Z.leb_spec (Game.lives s - 1) 0).
    + left; cbn; rewrite Eb; repeat split; assumption.
    + right; cbn; repeat split; assumption.
  - left; split; [discriminate |].
    unfold Game.lose_life; rewrite Eb; reflexivity.
Qed.

(** X28. What the state after a frame of a game in play tells: it is
    LEVEL_COMPLETE exactly when no brick is left alive; PLAYING only if no
    life was lost; READY only if a life was lost, at least one is left and
    a single new ball sits stuck on the paddle; GAME_OVER only if the last
    life was lost and no ball is left; it is never PAUSED. *)
Theorem frame_outcome dt g :
  Game.state g = PLAYING ->
  let g' := Game.update random dt g in
  (Game.state g' = LEVEL_COMPLETE <->
   Forall (fun k => Brick.alive k = false) (Game.bricks g')) /\
  (Game.state g' = PLAYING -> Game.lives g' = Game.lives g) /\
  (Game.state g' = READY ->
     Game.lives g' = (Game.lives g - 1)%Z /\ (0 < Game.lives g')%Z /\
     Game.balls g' = [Game.fresh_ball (Game.paddle g')]) /\
  (Game.state g' = GAME_OVER ->
     Game.lives g' = (Game.lives g - 1)%Z /\ (Game.lives g' <= 0)%Z /\
     Game.balls g' = []) /\
  Game.state g' <> PAUSED.
Proof.
  intros Hs; cbv zeta; unfold Game.update.
  set (s := Game.simulate random dt g).
  destruct (simulate_session random dt g) as (Ess & Els & _).
  fold s in Ess, Els; rewrite Hs in Ess.
  pose proof (lose_life_cases s) as Hcases.
  destruct (lose_life_kept s) as (_ & _ & _ & Elp & _).
  remember (Game.lose_life s) as l eqn:Dl.
  pose proof (check_level_cleared l) as Hcleared.
  pose proof (check_level_alive l) as Halive.
  destruct (check_level_kept l) as (Ecb & Ecl & _ & Eck & _ & Ecp & _).
  remember (Game.check_level l) as c eqn:Dc.
  destruct (update_timers_kept dt c) as (-> & -> & _ & -> & _ & Epad & _).
  assert (Hballs : forall bs,
            Game.balls c = bs -> Game.reset_speed <$> bs = bs ->
            Game.balls (Game.update_timers dt c) = bs).
  { intros bs E1 E2; destruct (update_timers_balls dt c) as [E | E];
      rewrite E, E1; [reflexivity | exact E2]. }
  rewrite Ecl, Eck, Epad, Ecp, Elp.
  destruct (dead_or_alive (Game.bricks l)) as [Hd | (k & Hk & Ha)].
  - assert (Ec : Game.state c = LEVEL_COMPLETE)
      by (rewrite (Hcleared Hd); reflexivity).
    rewrite Ec; split; [split; [intros _; exact Hd | reflexivity] |].
    repeat split; discriminate.
  - assert (Ec : c = l) by (exact (Halive k Hk Ha)).
    assert (Hnot : ~ Forall (fun k => Brick.alive k = false) (Game.bricks l)).
    { intros HF; rewrite (proj1 (Forall_forall _ _) HF k Hk) in Ha; discriminate. }
    rewrite Ec in Hballs; rewrite Ec.
    destruct Hcases
      as [[_ El] | [(_ & Hle & Est & Eli & Eba) | (_ & Hlt & Est & Eli & Eba)]].
    + rewrite El in Hnot |- *; rewrite Ess, Els.
      split; [split; [discriminate | intros HF; contradiction] |].
      repeat split; discriminate.
    + rewrite Est, Eli, Els.
      split; [split; [discriminate | intros HF; contradiction] |].
      split; [discriminate |]; split; [discriminate |].
      split; [| discriminate].
      intros _; split; [reflexivity |]; split; [rewrite <- Els; exact Hle |].
      apply Hballs; [exact Eba | reflexivity].
    + rewrite Est, Eli, Els.
      split; [split; [discriminate | intros HF; contradiction] |].
      split; [discriminate |]; split; [| split; discriminate].
      intros _; split; [reflexivity |]; split; [rewrite <- Els; exact Hlt |].
      apply Hballs; [exact Eba | reflexivity].
Qed.
End FrameOutcome.

Lemma frame_outcome_witness :
  Game.state Sample.level2_game = PLAYING /\
  Game.state (Game.update (H := canvas480) tape_half (16 / 1000)
                Sample.level2_game) <> PAUSED.
Proof.
  split; [reflexivity |].
  apply (frame_outcome (H := canvas480) tape_half (16 / 1000)
           Sample.level2_game).
  reflexivity.
Defined.

(** ** The life of a brick *)


